(** * ExcelProcessor: the processing pipeline behind the main window

    A shallow embedding of [src/gui/main_window.py]: the worker
    [ProcessingThread.run], the slots [FileDropArea.dropEvent],
    [MainWindow.get_string_values] and [MainWindow.process_files], and the
    binary64 arithmetic the progress values are computed with.

    The modules the window imports ([core.excel_processor],
    [core.file_handler], [utils.validators]) are not part of the sources.
    The worker is verified against an arbitrary implementation of them
    (record [Env]); the behaviour the specification asks of them is
    modelled separately in [InputValidator], [MergeEngine] and
    [WorkbookWriter]. *)

From Stdlib Require Import ZArith QArith Qround Qpower Lia Lqa Ascii SpecFloat.
From stdpp Require Import gmap strings list fin_maps pretty sorting.

Local Open Scope Z_scope.

(** ** Binary64 arithmetic

    The progress of a phase is computed as [int((i + 1) / total * w)]: a true
    division of two Python integers, a product with an integer converted to
    a float, and a truncation. Division and product return the binary64
    number nearest to the exact result, ties to even. A finite float is
    represented by the rational it denotes; every value computed by the
    worker lies in [[0, 40]], far from the overflow threshold, which is
    therefore left out. *)

Module Float64.

(** Number of bits of the significand and exponent of the smallest
    subnormal number. *)
Definition prec : Z := 53.
Definition emin : Z := -1074.

(** [ilog2 x] is the integer [l] with [2^l <= x < 2^(l+1)], for [0 < x]. *)
Definition ilog2 (x : Q) : Z :=
  let l := Z.log2 (Qnum x) - Z.log2 (Zpos (Qden x)) in
  if Qle_bool (2 ^ l) x then l else l - 1.

(** Nearest integer, ties to the even one. *)
Definition round_half_even (x : Q) : Z :=
  let f := Qfloor x in
  match (x - inject_Z f ?= 1 # 2)%Q with
  | Lt => f
  | Gt => f + 1
  | Eq => if Z.even f then f else f + 1
  end.

(** Exponent of the unit in the last place of the binade of [x]. *)
Definition ulp_exp (x : Q) : Z := Z.max (ilog2 x - (prec - 1)) emin.

Definition rne_pos (x : Q) : Q :=
  let e := ulp_exp x in
  (inject_Z (round_half_even (x / 2 ^ e)) * 2 ^ e)%Q.

(** Round to nearest, ties to even, below the overflow threshold. *)
Definition rne (x : Q) : Q :=
  match (x ?= 0)%Q with
  | Eq => 0%Q
  | Gt => rne_pos x
  | Lt => (- rne_pos (- x))%Q
  end.

(** [a / b] on integers ([None] stands for ZeroDivisionError). *)
Definition true_div (a b : Z) : option Q :=
  if b =? 0 then None else Some (rne (inject_Z a / inject_Z b)).

(** [x * w] for a float [x] and an integer [w] exactly representable. *)
Definition mul_int (x : Q) (w : Z) : Q := rne (x * inject_Z w).

(** [int(x)]: truncation toward zero. *)
Definition py_int (x : Q) : Z := Z.quot (Qnum x) (Zpos (Qden x)).

End Float64.

(** The same computation with the reference implementation of IEEE 754
    arithmetic of the standard library, against which [Float64] is tested. *)
Module Reference.

Definition of_int (k : positive) : spec_float :=
  binary_normalize 53 1024 (Zpos k) 0 false.

Definition value (f : spec_float) : Q :=
  match f with
  | S754_finite s m e =>
      ((if s then - inject_Z (Zpos m) else inject_Z (Zpos m)) * 2 ^ e)%Q
  | _ => 0%Q
  end.

(** [k / n * w] *)
Definition product (k n w : positive) : spec_float :=
  SFmul 53 1024 (SFdiv 53 1024 (of_int k) (of_int n)) (of_int w).

Definition agrees (k n w : positive) : bool :=
  Qeq_bool
    (Float64.mul_int (Float64.rne (inject_Z (Zpos k) / inject_Z (Zpos n)))
       (Zpos w))
    (value (product k n w)).

(** Agreement for every [1 <= k <= n <= bound]. *)
Definition agrees_up_to (bound : nat) (w : positive) : bool :=
  forallb (fun n =>
    forallb (fun k => agrees (Pos.of_nat k) (Pos.of_nat n) w) (seq 1 n))
    (seq 1 bound).

End Reference.

(** ** Python strings

    A [string] is read as a sequence of code points below 256. *)

Module Py.

Definition code (c : ascii) : N := Ascii.N_of_ascii c.

(** [str.isspace] on the code points below 256. *)
Definition isspace (c : ascii) : bool :=
  let n := code c in
  ((9 <=? n) && (n <=? 13) || (28 <=? n) && (n <=? 32)
   || (n =? 133) || (n =? 160))%N.

Fixpoint lstrip (s : string) : string :=
  match s with
  | EmptyString => EmptyString
  | String c s' => if isspace c then lstrip s' else s
  end.

Fixpoint rstrip (s : string) : string :=
  match s with
  | EmptyString => EmptyString
  | String c s' =>
      match rstrip s' with
      | EmptyString => if isspace c then EmptyString else String c EmptyString
      | r => String c r
      end
  end.

(** [s.strip()] *)
Definition strip (s : string) : string := rstrip (lstrip s).

(** [c.lower()] on the code points below 256. *)
Definition lower_char (c : ascii) : ascii :=
  let n := code c in
  if ((65 <=? n) && (n <=? 90)
      || (192 <=? n) && (n <=? 222) && negb (n =? 215))%N
  then Ascii.ascii_of_N (n + 32) else c.

(** [s.lower()] *)
Fixpoint lower (s : string) : string :=
  match s with
  | EmptyString => EmptyString
  | String c s' => String (lower_char c) (lower s')
  end.

(** [s.replace(old, new)] for a one-character [old]. *)
Fixpoint replace (old : ascii) (new : string) (s : string) : string :=
  match s with
  | EmptyString => EmptyString
  | String c s' =>
      if Ascii.eqb c old then new +:+ replace old new s'
      else String c (replace old new s')
  end.

(** [sep.join(l)] *)
Fixpoint join (sep : string) (l : list string) : string :=
  match l with
  | [] => ""
  | [s] => s
  | s :: l' => s +:+ sep +:+ join sep l'
  end.

Definition newline : string := String (Ascii.ascii_of_N 10) EmptyString.

End Py.

(** ** Exceptions, signals and the calls into the missing modules *)

(** Outcome of a call: a value, or an [Exception] with its [str(e)]. *)
Inductive result (A : Type) : Type :=
| Ok (a : A)
| Raise (msg : string).
Arguments Ok {A} a.
Arguments Raise {A} msg.

(** The three signals of [ProcessingThread]. *)
Inductive signal : Type :=
| progress_updated (progress : Z)
| processing_complete (message : string)
| processing_error (error_msg : string).

(** A call into [FileValidator], [FileHandler] or [ExcelProcessor], with what
    it returned. *)
Inductive call (Data : Type) : Type :=
| FileHandler_call (r : result unit)
| ExcelProcessor_call (r : result unit)
| is_valid_excel_file_call (file_path : string) (r : result bool)
| validate_file_accessibility_call (file_path : string) (r : result bool)
| load_excel_file_call (file_path : string) (r : result Data)
| process_files_call (loaded_data : list Data)
    (string_values : gmap string string) (r : result Data)
| save_excel_file_call (processed_data : Data) (output_path : string)
    (r : result unit).
Arguments FileHandler_call {Data}.
Arguments ExcelProcessor_call {Data}.
Arguments is_valid_excel_file_call {Data}.
Arguments validate_file_accessibility_call {Data}.
Arguments load_excel_file_call {Data}.
Arguments process_files_call {Data}.
Arguments save_excel_file_call {Data}.

Inductive event (Data : Type) : Type :=
| Signal (s : signal)
| Call (c : call Data).
Arguments Signal {Data}.
Arguments Call {Data}.

(** The modules the window imports, over a state [World] (the file system)
    that every call may read and change. [new_FileHandler] and
    [new_ExcelProcessor] are the constructors [FileHandler()] and
    [ExcelProcessor()]; [basename] is [os.path.basename]. *)
Record Env (World Data : Type) : Type := {
  new_FileHandler : World -> result unit * World;
  new_ExcelProcessor : World -> result unit * World;
  is_valid_excel_file : string -> World -> result bool * World;
  validate_file_accessibility : string -> World -> result bool * World;
  validate_string_inputs : gmap string string -> list string;
  load_excel_file : string -> World -> result Data * World;
  excel_process_files :
    list Data -> gmap string string -> World -> result Data * World;
  save_excel_file : Data -> string -> World -> result unit * World;
  basename : string -> string
}.
Arguments new_FileHandler {World Data}.
Arguments new_ExcelProcessor {World Data}.
Arguments is_valid_excel_file {World Data}.
Arguments validate_file_accessibility {World Data}.
Arguments validate_string_inputs {World Data}.
Arguments load_excel_file {World Data}.
Arguments excel_process_files {World Data}.
Arguments save_excel_file {World Data}.
Arguments basename {World Data}.

(** Computations that call the environment, emit signals and may raise: the
    body of a [try]. The trace lists signals and calls in program order. *)
Section Monad.
Context {World Data : Type}.

Definition M (A : Type) : Type :=
  World -> result A * list (event Data) * World.

Definition ret {A} (a : A) : M A := fun w => (Ok a, [], w).

Definition raise {A} (msg : string) : M A := fun w => (Raise msg, [], w).

Definition bind {A B} (m : M A) (k : A -> M B) : M B :=
  fun w =>
    match m w with
    | (Ok a, t, w') => let '(r, t', w'') := k a w' in (r, t ++ t', w'')
    | (Raise msg, t, w') => (Raise msg, t, w')
    end.

Definition emit (s : signal) : M unit := fun w => (Ok tt, [Signal s], w).

Definition extern {A} (mk : result A -> call Data)
    (f : World -> result A * World) : M A :=
  fun w => let '(r, w') := f w in (r, [Call (mk r)], w').

End Monad.

Notation "x <- m ;; k" := (bind m (fun x => k))
  (at level 100, m at next level, right associativity).
Notation "m ;;; k" := (bind m (fun _ => k))
  (at level 100, right associativity).

(** ** [class ProcessingThread] *)

Module ProcessingThread.
Section Run.
Context {World Data : Type} (env : Env World Data).
Import Float64.

(** [int((i + 1) / total_files * weight)] *)
Definition phase_progress (i total_files weight : Z)
    : M (World:=World) (Data:=Data) Z :=
  match true_div (i + 1) total_files with
  | None => raise "division by zero"
  | Some q => ret (py_int (mul_int q weight))
  end.

(** First loop of [run]: [for i, file_path in enumerate(self.input_files)]
    from index [i] on. *)
Fixpoint validate_loop (total_files i : Z) (files : list string) : M unit :=
  match files with
  | [] => ret tt
  | file_path :: rest =>
      ok <- extern (validate_file_accessibility_call file_path)
              (validate_file_accessibility env file_path) ;;
      if negb ok then raise ("Cannot access file: " +:+ file_path)
      else
        progress <- phase_progress i total_files 20 ;;
        emit (progress_updated progress) ;;;
        validate_loop total_files (i + 1) rest
  end.

(** Second loop of [run], appending to [loaded_data]. *)
Fixpoint load_loop (total_files i : Z) (files : list string)
    (loaded_data : list Data) : M (list Data) :=
  match files with
  | [] => ret loaded_data
  | file_path :: rest =>
      file_data <- extern (load_excel_file_call file_path)
                     (load_excel_file env file_path) ;;
      progress <- phase_progress i total_files 40 ;;
      emit (progress_updated (20 + progress)) ;;;
      load_loop total_files (i + 1) rest (loaded_data ++ [file_data])
  end.

Definition success_message (total_files : Z) (output_path : string) : string :=
  "Successfully processed " +:+ pretty total_files +:+ " files and saved to "
    +:+ basename env output_path +:+ "!".

(** The body of the [try] block; its value is the success message. *)
Definition run_try (input_files : list string)
    (string_values : gmap string string) (output_path : string) : M string :=
  extern FileHandler_call (new_FileHandler env) ;;;
  extern ExcelProcessor_call (new_ExcelProcessor env) ;;;
  let total_files := Z.of_nat (length input_files) in
  validate_loop total_files 0 input_files ;;;
  loaded_data <- load_loop total_files 0 input_files [] ;;
  emit (progress_updated 70) ;;;
  processed_data <- extern (process_files_call loaded_data string_values)
                      (excel_process_files env loaded_data string_values) ;;
  emit (progress_updated 85) ;;;
  extern (save_excel_file_call processed_data output_path)
    (save_excel_file env processed_data output_path) ;;;
  emit (progress_updated 100) ;;;
  ret (success_message total_files output_path).

(** [ProcessingThread.run]: the [try] block and its [except Exception]
    handler. Returns the trace of the run and the final state. The calls to
    the logger are taken to return normally; they emit no signal and are
    left out. *)
Definition run (input_files : list string)
    (string_values : gmap string string) (output_path : string)
    (w : World) : list (event Data) * World :=
  match run_try input_files string_values output_path w with
  | (Ok message, t, w') => (t ++ [Signal (processing_complete message)], w')
  | (Raise e, t, w') =>
      (t ++ [Signal (processing_error ("Error during processing: " +:+ e))], w')
  end.

End Run.
End ProcessingThread.

(** ** Projections of a trace *)

Section Traces.
Context {Data : Type}.

(** The signals, in the order they were emitted. *)
Definition signals (t : list (event Data)) : list signal :=
  omap (fun e => match e with Signal s => Some s | Call _ => None end) t.

(** The values carried by [progress_updated]. *)
Definition progress_values (t : list (event Data)) : list Z :=
  omap (fun e => match e with
                 | Signal (progress_updated p) => Some p
                 | _ => None
                 end) t.

Definition is_terminal (s : signal) : bool :=
  match s with progress_updated _ => false | _ => true end.

(** The terminal outcomes delivered. *)
Definition outcomes (t : list (event Data)) : list signal :=
  filter (fun s => is_terminal s = true) (signals t).

Definition calls (t : list (event Data)) : list (call Data) :=
  omap (fun e => match e with Call c => Some c | Signal _ => None end) t.

(** The file paths handed to [is_valid_excel_file]. *)
Definition validity_checks (t : list (event Data)) : list string :=
  omap (fun c => match c with
                 | is_valid_excel_file_call p _ => Some p
                 | _ => None
                 end) (calls t).

(** The file paths handed to [load_excel_file]. *)
Definition load_attempts (t : list (event Data)) : list string :=
  omap (fun c => match c with
                 | load_excel_file_call p _ => Some p
                 | _ => None
                 end) (calls t).

(** The tables [load_excel_file] returned. *)
Definition loaded_tables (t : list (event Data)) : list Data :=
  omap (fun c => match c with
                 | load_excel_file_call _ (Ok d) => Some d
                 | _ => None
                 end) (calls t).

(** The tables handed to [save_excel_file], whatever the call returned. *)
Definition save_attempts (t : list (event Data)) : list (Data * string) :=
  omap (fun c => match c with
                 | save_excel_file_call d p _ => Some (d, p)
                 | _ => None
                 end) (calls t).

(** The tables [save_excel_file] wrote. *)
Definition saved_tables (t : list (event Data)) : list (Data * string) :=
  omap (fun c => match c with
                 | save_excel_file_call d p (Ok _) => Some (d, p)
                 | _ => None
                 end) (calls t).

Definition succeeded (t : list (event Data)) : Prop :=
  exists message, last (signals t) = Some (processing_complete message).

End Traces.

(** ** The progress values of a run *)

(** [int(k / n * weight)] for [n <> 0]. *)
Definition scaled (k n weight : Z) : Z :=
  Float64.py_int
    (Float64.mul_int (Float64.rne (inject_Z k / inject_Z n)) weight).

(** Emissions of the Validating phase for files [i], ..., [i + len - 1] out
    of [n]. *)
Definition validating_values (n i len : Z) : list Z :=
  (fun j => scaled (j + 1) n 20) <$> seqZ i len.

(** Emissions of the Loading phase for files [i], ..., [i + len - 1]. *)
Definition loading_values (n i len : Z) : list Z :=
  (fun j => 20 + scaled (j + 1) n 40) <$> seqZ i len.

(** All the progress values of a successful run over [n] files. *)
Definition expected_progress (n : Z) : list Z :=
  validating_values n 0 n ++ loading_values n 0 n ++ [70; 85; 100].

(** The calls to [validate_file_accessibility] with their results. *)
Definition accessibility_results {Data : Type} (t : list (event Data))
    : list (string * result bool) :=
  omap (fun c => match c with
                 | validate_file_accessibility_call p r => Some (p, r)
                 | _ => None
                 end) (calls t).

Definition passing (files : list string) : list (string * result bool) :=
  (fun p => (p, Ok true)) <$> files.

(** [str(e)] of the exception a failed accessibility check ends in. *)
Definition access_failure (file_path : string) (r : result bool) : string :=
  match r with
  | Ok _ => "Cannot access file: " +:+ file_path
  | Raise e => e
  end.

(** Where a run ends. *)
Inductive ending : Type :=
| fails_starting (e : string)
| fails_validating (k : nat) (e : string)
| fails_loading (k : nat) (e : string)
| fails_merging (e : string)
| fails_saving (e : string)
| completes (message : string).

(** The progress values emitted before each ending, over [n] files. *)
Definition progress_before (n : Z) (x : ending) : list Z :=
  match x with
  | fails_starting _ => []
  | fails_validating k _ => validating_values n 0 (Z.of_nat k)
  | fails_loading k _ =>
      validating_values n 0 n ++ loading_values n 0 (Z.of_nat k)
  | fails_merging _ => validating_values n 0 n ++ loading_values n 0 n ++ [70]
  | fails_saving _ =>
      validating_values n 0 n ++ loading_values n 0 n ++ [70; 85]
  | completes _ => expected_progress n
  end.

(** The terminal signal of each ending. *)
Definition outcome_of (x : ending) : signal :=
  match x with
  | fails_starting e | fails_validating _ e | fails_loading _ e
  | fails_merging e
  | fails_saving e => processing_error ("Error during processing: " +:+ e)
  | completes message => processing_complete message
  end.

(** Events of the first and of the second loop of [run]. *)
Definition validating_event {Data : Type} (e : event Data) : Prop :=
  match e with
  | Signal (progress_updated _) => True
  | Call (validate_file_accessibility_call _ _) => True
  | _ => False
  end.

Definition loading_event {Data : Type} (e : event Data) : Prop :=
  match e with
  | Signal (progress_updated _) => True
  | Call (load_excel_file_call _ _) => True
  | _ => False
  end.

(** The events of a successful run from the Merging phase on: 70, the merge,
    85, the save, 100, the success message. *)
Definition merging_and_saving {Data : Type} (loaded_data : list Data)
    (string_values : gmap string string) (processed_data : Data)
    (out : string) (u : unit) (message : string) : list (event Data) :=
  [Signal (progress_updated 70);
   Call (process_files_call loaded_data string_values (Ok processed_data));
   Signal (progress_updated 85);
   Call (save_excel_file_call processed_data out (Ok u));
   Signal (progress_updated 100);
   Signal (processing_complete message)].

(** What the calls of a run with trace [t] look like for each ending. *)
Definition calls_before {World Data : Type} (env : Env World Data)
    (files : list string) (string_values : gmap string string)
    (out : string) (t : list (event Data)) (x : ending) : Prop :=
  match x with
  | fails_starting e =>
      accessibility_results t = [] /\ load_attempts t = []
      /\ save_attempts t = []
  | fails_validating k e =>
      exists p res,
        files !! k = Some p /\ res ≠ Ok true /\ e = access_failure p res
        /\ accessibility_results t = passing (take k files) ++ [(p, res)]
        /\ load_attempts t = [] /\ save_attempts t = []
  | fails_loading k e =>
      (k < length files)%nat
      /\ accessibility_results t = passing files
      /\ load_attempts t = take (S k) files /\ save_attempts t = []
  | fails_merging e =>
      accessibility_results t = passing files
      /\ load_attempts t = files /\ save_attempts t = []
  | fails_saving e =>
      accessibility_results t = passing files
      /\ load_attempts t = files /\ saved_tables t = []
  | completes message =>
      accessibility_results t = passing files
      /\ load_attempts t = files
      /\ length (loaded_tables t) = length files
      /\ message = ProcessingThread.success_message env
                     (Z.of_nat (length files)) out
      /\ exists d w1 w2,
           excel_process_files env (loaded_tables t) string_values w1
             = (Ok d, w2)
           /\ save_attempts t = [(d, out)] /\ saved_tables t = [(d, out)]
           /\ exists t0 u,
                t = t0 ++ merging_and_saving (loaded_tables t) string_values
                             d out u message
  end.

(** ** [class FileDropArea] *)

Module FileDropArea.
Section DropEvent.
Context {World Data : Type} (env : Env World Data).

(** The loop of [dropEvent] and [browse_files]: every path goes through
    [FileValidator.is_valid_excel_file]. *)
Fixpoint classify (paths files invalid_files : list string)
    : M (World:=World) (Data:=Data) (list string * list string) :=
  match paths with
  | [] => ret (files, invalid_files)
  | file_path :: rest =>
      ok <- extern (is_valid_excel_file_call file_path)
              (is_valid_excel_file env file_path) ;;
      if (ok : bool) then classify rest (files ++ [file_path]) invalid_files
      else classify rest files (invalid_files ++ [basename env file_path])
  end.

(** [dropEvent]: the list emitted with [files_dropped], if any. *)
Definition dropEvent (urls : list string) : M (option (list string)) :=
  r <- classify urls [] [] ;;
  ret (match fst r with [] => None | files => Some files end).

End DropEvent.
End FileDropArea.

(** ** [class MainWindow] *)

Module MainWindow.

(** The attributes the slots read: [self.input_files], [self.output_path],
    and the items of [self.string_fields] with the text of each line edit. *)
Record state : Type := {
  input_files : list string;
  output_path : string;
  string_fields : list (string * string)
}.

Definition field_labels : list string :=
  ["Project Name:"; "Department:"; "Analyst:"; "Report Date:"; "Version:"].

(** [label.replace(':', '').replace(' ', '_').lower()] *)
Definition field_key (label : string) : string :=
  Py.lower (Py.replace " " "_" (Py.replace ":" "" label)).

(** The items of [self.string_fields] after [setup_ui], for the default
    labels, when line edit [key] holds [texts key]. *)
Definition fields_of (texts : string -> string) : list (string * string) :=
  (fun label => (field_key label, texts (field_key label))) <$> field_labels.

Definition get_string_values (self : state) : gmap string string :=
  foldl (fun values item => <[fst item := Py.strip (snd item)]> values)
    ∅ (string_fields self).

(** What [process_files] ends with: a [QMessageBox.warning] and [return],
    or [self.processing_thread.start()]. *)
Inductive action : Type :=
| warning (title text : string)
| start (input_files : list string) (string_values : gmap string string)
    (output_path : string).

Section Slots.
Context {World Data : Type} (env : Env World Data).

Definition process_files (self : state) : action :=
  match input_files self with
  | [] => warning "No Files" "Please select input files first."
  | _ :: _ =>
      match output_path self with
      | EmptyString =>
          warning "No Output Location"
            "Please choose where to save the output file."
      | String _ _ =>
          let string_values := get_string_values self in
          match validate_string_inputs env string_values with
          | [] => start (input_files self) string_values (output_path self)
          | validation_errors =>
              warning "Invalid Configuration"
                ("Please check the following fields:" +:+ Py.newline
                   +:+ Py.join Py.newline validation_errors)
          end
      end
  end.

(** A click on the process button: the trace of the worker when one is
    started, no event otherwise. *)
Definition clicked (self : state) (w : World) : list (event Data) * World :=
  match process_files self with
  | warning _ _ => ([], w)
  | start files string_values out =>
      ProcessingThread.run env files string_values out w
  end.

End Slots.
End MainWindow.

(** ** The components the specification describes

    [FileValidator.validate_string_inputs], [ExcelProcessor.process_files]
    and [FileHandler.save_excel_file] are imported by the window but their
    modules are not in the sources. What follows models them from the
    specification. *)

Inductive error_kind : Type :=
| ValidationError
| ReadError
| SchemaConflictError
| WriteError
| UnknownError.

Definition kind_name (k : error_kind) : string :=
  match k with
  | ValidationError => "ValidationError"
  | ReadError => "ReadError"
  | SchemaConflictError => "SchemaConflictError"
  | WriteError => "WriteError"
  | UnknownError => "UnknownError"
  end.

(** The fixed keys of a MetadataRecord, in their fixed order. *)
Definition metadata_keys : list string :=
  ["project_name"; "department"; "analyst"; "report_date"; "version"].

Module InputValidator.

Inductive violation : Type := empty | too_long.

Definition violation_name (v : violation) : string :=
  match v with empty => "empty" | too_long => "too long" end.

(** A field-level error message as text. *)
Definition message (e : string * violation) : string :=
  fst e +:+ ": " +:+ violation_name (snd e).

Section Metadata.
(** The fixed maximum length. *)
Variable max_length : nat.

Definition check_field (value : string) : option violation :=
  if decide (Py.strip value = "") then Some empty
  else if decide (max_length < String.length value)%nat then Some too_long
  else None.

(** Modelled from the spec: [FileValidator.validate_string_inputs] is
    missing from the sources; this is [validateMetadata] of section 4.1:
    every required field is checked, in the fixed key order, and every
    violation is reported with the key of its field. *)
Definition validateMetadata (record : gmap string string)
    : list (string * violation) :=
  omap (fun key =>
          (fun v => (key, v)) <$> check_field (default "" (record !! key)))
    metadata_keys.

End Metadata.
End InputValidator.

Module MergeEngine.

Inductive Cell : Type :=
| text (s : string)
| number (x : Q)
| date (d : string)
| boolean (b : bool)
| empty.

Record Table : Type := {
  header : list string;
  rows : list (gmap string Cell);
  source : string
}.

Definition row_count (t : Table) : nat := length (rows t).

(** Case-insensitive comparison of column names. *)
Definition same_column (a b : string) : bool :=
  bool_decide (Py.lower a = Py.lower b).

Definition present (hdr : list string) (c : string) : bool :=
  existsb (same_column c) hdr.

(** Append the names of [cols] that are not already present. *)
Definition add_columns (hdr cols : list string) : list string :=
  foldl (fun acc c => if present acc c then acc else acc ++ [c]) hdr cols.

(** Step 1: the union header, tables taken in input order. *)
Definition union_header (tables : list Table) : list string :=
  foldl (fun acc t => add_columns acc (header t)) [] tables.

(** The names of [cols] that no earlier name of [cols] equals, case
    ignored, in the order of [cols]: every column once, in the casing and at
    the place it was first seen. *)
Definition first_seen (cols : list string) : list string :=
  omap (fun i => match cols !! i with
                 | Some c => if present (take i cols) c then None else Some c
                 | None => None
                 end)
    (seq 0 (length cols)).

(** The cell of row [r] of table [t] under union column [c]. *)
Definition cell_of (t : Table) (r : gmap string Cell) (c : string) : Cell :=
  match find (same_column c) (header t) with
  | Some c' => default empty (r !! c')
  | None => empty
  end.

(** Step 3: one merged row. *)
Definition merged_row (data_columns : list string)
    (metadata : gmap string string) (t : Table) (r : gmap string Cell)
    : gmap string Cell :=
  foldl (fun m k => <[k := text (default "" (metadata !! k))]> m)
    (foldl (fun m c => <[c := cell_of t r c]> m) ∅ data_columns)
    metadata_keys.

Section Merge.
(** Step 4: the policy deciding that the column types of the tables
    cannot be reconciled; the specification leaves it open. *)
Variable irreconcilable : list Table -> bool.

(** Modelled from the spec: [ExcelProcessor.process_files] is missing
    from the sources; this is [merge] of section 4.4. *)
Definition merge (tables : list Table) (metadata : gmap string string)
    : Table + error_kind :=
  if irreconcilable tables then inr SchemaConflictError
  else
    let data_columns := union_header tables in
    inl {| header := data_columns ++ metadata_keys;
           rows := t ← tables;
                   merged_row data_columns metadata t <$> rows t;
           source := "" |}.

End Merge.
End MergeEngine.

Module WorkbookWriter.

(** A path: its directory and its file name. *)
Definition path : Type := string * string.

Definition temp_path (p : path) : path := (fst p, snd p +:+ ".tmp").

Section Save.
Context {Table Content : Type} (serialize : Table -> Content).

(** What the disk does during one save: the temporary write completes,
    or fails leaving [partial] (if anything) at the temporary path; the
    rename happens, or fails leaving the disk as it was. *)
Inductive write_outcome : Type :=
| written
| write_failed (partial : option Content).

Record faults : Type := {
  temp_write : write_outcome;
  rename_succeeds : bool
}.

(** Modelled from the spec: [FileHandler.save_excel_file] is missing from
    the sources; this is [save] of section 4.3. It returns the error, if
    any, and the states the disk goes through, the initial one first. *)
Definition save (f : faults) (table : Table) (p : path)
    (disk : gmap path Content) : option error_kind * list (gmap path Content) :=
  let tmp := temp_path p in
  match temp_write f with
  | write_failed partial =>
      let disk1 := match partial with
                   | Some c => <[tmp := c]> disk
                   | None => disk
                   end in
      (Some WriteError, [disk; disk1])
  | written =>
      let disk1 := <[tmp := serialize table]> disk in
      if rename_succeeds f then
        (None, [disk; disk1; <[p := serialize table]> (delete tmp disk1)])
      else (Some WriteError, [disk; disk1])
  end.

End Save.
End WorkbookWriter.

(** The environment in which the validation and the merge are the components
    above, over arbitrary implementations of the others. *)
Section SpecEnv.
Context {World : Type} (max_length : nat)
  (irreconcilable : list MergeEngine.Table -> bool).

Definition with_spec_components (env : Env World MergeEngine.Table)
    : Env World MergeEngine.Table :=
  {| new_FileHandler := new_FileHandler env;
     new_ExcelProcessor := new_ExcelProcessor env;
     is_valid_excel_file := is_valid_excel_file env;
     validate_file_accessibility := validate_file_accessibility env;
     validate_string_inputs := fun record =>
       InputValidator.message
         <$> InputValidator.validateMetadata max_length record;
     load_excel_file := load_excel_file env;
     excel_process_files := fun tables metadata w =>
       (match MergeEngine.merge irreconcilable tables metadata with
        | inl t => Ok t
        | inr k => Raise (kind_name k)
        end, w);
     save_excel_file := save_excel_file env;
     basename := basename env |}.

End SpecEnv.

(** ** A sample environment

    Every file is a valid spreadsheet except [notes.txt], every file is
    accessible except [missing.xlsx]; loading yields a two-column table with
    three rows, merging is [MergeEngine.merge], saving succeeds. *)

Module Sample.
Import MergeEngine.

Definition row (name : string) (amount : Z) : gmap string Cell :=
  {[ "Name" := text name; "Amount" := number (inject_Z amount) ]}.

Definition table (file_path : string) : Table :=
  {| header := ["Name"; "Amount"];
     rows := [row "ann" 10; row "bob" 20; row "cy" 30];
     source := file_path |}.

(** A table whose first column differs from [Name] by case only. *)
Definition regions (file_path : string) : Table :=
  {| header := ["name"; "Region"];
     rows := [{[ "name" := text "dee"; "Region" := text "north" ]};
              {[ "name" := text "eve"; "Region" := text "south" ]}];
     source := file_path |}.

Definition base : Env unit Table :=
  {| new_FileHandler := fun w => (Ok tt, w);
     new_ExcelProcessor := fun w => (Ok tt, w);
     is_valid_excel_file := fun p w => (Ok (bool_decide (p ≠ "notes.txt")), w);
     validate_file_accessibility :=
       fun p w => (Ok (bool_decide (p ≠ "missing.xlsx")), w);
     validate_string_inputs := fun _ => [];
     load_excel_file := fun p w => (Ok (table p), w);
     excel_process_files := fun _ _ w => (Raise "not implemented", w);
     save_excel_file := fun _ _ w => (Ok tt, w);
     basename := fun p => p |}.

Definition env : Env unit Table :=
  with_spec_components 256 (fun _ => false) base.

Definition metadata : gmap string string :=
  {[ "project_name" := "P1"; "department" := "D1"; "analyst" := "A1";
     "report_date" := "2024-01-01"; "version" := "1" ]}.

Definition three_files : list string := ["a.xlsx"; "b.xlsx"; "c.xlsx"].

End Sample.

(** ** The course of a run

    What follows describes the whole trace of [ProcessingThread.run] by the
    point where the run ends and by what the calls returned up to there. *)

Section Courses.
Context {Data : Type}.

(** The calls to [load_excel_file] with their results. *)
Definition load_results (t : list (event Data)) : list (string * result Data) :=
  omap (fun c => match c with
                 | load_excel_file_call p r => Some (p, r)
                 | _ => None
                 end) (calls t).

(** The calls to [ExcelProcessor.process_files]: arguments and result. *)
Definition merge_calls (t : list (event Data))
    : list (list Data * gmap string string * result Data) :=
  omap (fun c => match c with
                 | process_files_call l v r => Some (l, v, r)
                 | _ => None
                 end) (calls t).

(** The calls to [save_excel_file]: arguments and result. *)
Definition save_calls (t : list (event Data))
    : list (Data * string * result unit) :=
  omap (fun c => match c with
                 | save_excel_file_call d p r => Some (d, p, r)
                 | _ => None
                 end) (calls t).

(** A call that returned, and returned [True] where the worker tests it. *)
Definition call_ok (c : call Data) : bool :=
  match c with
  | FileHandler_call (Ok _) | ExcelProcessor_call (Ok _) => true
  | is_valid_excel_file_call _ (Ok _) => true
  | validate_file_accessibility_call _ (Ok b) => b
  | load_excel_file_call _ (Ok _) => true
  | process_files_call _ _ (Ok _) => true
  | save_excel_file_call _ _ (Ok _) => true
  | _ => false
  end.

(** The events of the first loop over [files], from index [i], when every
    check returns [True]. *)
Fixpoint validating_trace (n i : Z) (files : list string) : list (event Data) :=
  match files with
  | [] => []
  | p :: rest =>
      Call (validate_file_accessibility_call p (Ok true))
        :: Signal (progress_updated (scaled (i + 1) n 20))
        :: validating_trace n (i + 1) rest
  end.

(** The events of the second loop over the files of [loads], from index
    [i], when every load returns the table paired with its file. *)
Fixpoint loading_trace (n i : Z) (loads : list (string * Data))
    : list (event Data) :=
  match loads with
  | [] => []
  | (p, d) :: rest =>
      Call (load_excel_file_call p (Ok d))
        :: Signal (progress_updated (20 + scaled (i + 1) n 40))
        :: loading_trace n (i + 1) rest
  end.

(** Where a run ends, with what the calls returned. *)
Inductive course : Type :=
| FileHandler_raises (e : string)
| ExcelProcessor_raises (e : string)
| check_fails (k : nat) (p : string) (res : result bool)
| load_raises (ds : list Data) (p : string) (e : string)
| merge_raises (ds : list Data) (e : string)
| save_raises (ds : list Data) (d : Data) (e : string)
| all_done (ds : list Data) (d : Data) (message : string).

Definition error_signal (e : string) : event Data :=
  Signal (processing_error ("Error during processing: " +:+ e)).

Definition constructed : list (event Data) :=
  [Call (FileHandler_call (Ok tt)); Call (ExcelProcessor_call (Ok tt))].

(** The trace of each course. *)
Definition trace_of (files : list string)
    (string_values : gmap string string) (out : string) (c : course)
    : list (event Data) :=
  let n := Z.of_nat (length files) in
  match c with
  | FileHandler_raises e => [Call (FileHandler_call (Raise e)); error_signal e]
  | ExcelProcessor_raises e =>
      [Call (FileHandler_call (Ok tt)); Call (ExcelProcessor_call (Raise e));
       error_signal e]
  | check_fails k p res =>
      constructed ++ validating_trace n 0 (take k files)
        ++ [Call (validate_file_accessibility_call p res);
            error_signal (access_failure p res)]
  | load_raises ds p e =>
      constructed ++ validating_trace n 0 files
        ++ loading_trace n 0 (zip files ds)
        ++ [Call (load_excel_file_call p (Raise e)); error_signal e]
  | merge_raises ds e =>
      constructed ++ validating_trace n 0 files
        ++ loading_trace n 0 (zip files ds)
        ++ [Signal (progress_updated 70);
            Call (process_files_call ds string_values (Raise e));
            error_signal e]
  | save_raises ds d e =>
      constructed ++ validating_trace n 0 files
        ++ loading_trace n 0 (zip files ds)
        ++ [Signal (progress_updated 70);
            Call (process_files_call ds string_values (Ok d));
            Signal (progress_updated 85);
            Call (save_excel_file_call d out (Raise e));
            error_signal e]
  | all_done ds d message =>
      constructed ++ validating_trace n 0 files
        ++ loading_trace n 0 (zip files ds)
        ++ [Signal (progress_updated 70);
            Call (process_files_call ds string_values (Ok d));
            Signal (progress_updated 85);
            Call (save_excel_file_call d out (Ok tt));
            Signal (progress_updated 100);
            Signal (processing_complete message)]
  end.

(** The courses a run over [files] can take. *)
Definition possible (files : list string) (c : course) : Prop :=
  match c with
  | FileHandler_raises _ | ExcelProcessor_raises _ => True
  | check_fails k p res => files !! k = Some p /\ res ≠ Ok true
  | load_raises ds p _ => files !! length ds = Some p
  | merge_raises ds _ | save_raises ds _ _ | all_done ds _ _ =>
      length ds = length files
  end.

(** The results of loads that all returned. *)
Definition loaded_ok (loads : list (string * Data))
    : list (string * result Data) :=
  (fun pd => (fst pd, Ok (snd pd))) <$> loads.

(** The phase a call belongs to: construction, Validating, Loading, Merging,
    Saving. *)
Definition phase_of (c : call Data) : nat :=
  match c with
  | FileHandler_call _ | ExcelProcessor_call _ => 0
  | is_valid_excel_file_call _ _ | validate_file_accessibility_call _ _ => 1
  | load_excel_file_call _ _ => 2
  | process_files_call _ _ _ => 3
  | save_excel_file_call _ _ _ => 4
  end%nat.

(** The calls of a course: calls that returned, then the failing call if
    there is one. *)
Definition failing_call (sv : gmap string string) (out : string)
    (c : course) : list (call Data) :=
  match c with
  | FileHandler_raises e => [FileHandler_call (Raise e)]
  | ExcelProcessor_raises e => [ExcelProcessor_call (Raise e)]
  | check_fails _ p res => [validate_file_accessibility_call p res]
  | load_raises _ p e => [load_excel_file_call p (Raise e)]
  | merge_raises ds e => [process_files_call ds sv (Raise e)]
  | save_raises _ d e => [save_excel_file_call d out (Raise e)]
  | all_done _ _ _ => []
  end.

End Courses.

(** ** Where the answers of a trace come from *)

Section Answers.
Context {World Data : Type} (env : Env World Data).

(** An accessibility check recorded in a trace carries the answer
    [validate_file_accessibility] of [env] gives in some state. *)
Definition answered (e : event Data) : Prop :=
  match e with
  | Call (validate_file_accessibility_call p r) =>
      exists w, fst (validate_file_accessibility env p w) = r
  | _ => True
  end.

(** A computation in all of whose traces the checks are answered by [env]. *)
Definition answering {A : Type} (m : M (World:=World) (Data:=Data) A) : Prop :=
  forall w, Forall answered (snd (fst (m w))).

End Answers.

(** An environment in which [corrupt.xlsx] cannot be loaded, tables with
    more than [limit] rows in all cannot be merged and nothing can be saved
    under [readonly.xlsx]. *)
Module Faulty.
Import MergeEngine.

Definition env (limit : nat) : Env unit Table :=
  {| new_FileHandler := fun w => (Ok tt, w);
     new_ExcelProcessor := fun w => (Ok tt, w);
     is_valid_excel_file := is_valid_excel_file Sample.env;
     validate_file_accessibility := validate_file_accessibility Sample.env;
     validate_string_inputs := validate_string_inputs Sample.env;
     load_excel_file := fun p w =>
       (if bool_decide (p = "corrupt.xlsx") then Raise "File is corrupt"
        else Ok (Sample.table p), w);
     excel_process_files := fun tables metadata w =>
       (if bool_decide (limit < sum_list (row_count <$> tables))%nat
        then Raise "Too many rows"
        else fst (excel_process_files Sample.env tables metadata w), w);
     save_excel_file := fun _ p w =>
       (if bool_decide (p = "readonly.xlsx") then Raise "Permission denied"
        else Ok tt, w);
     basename := fun p => p |}.

End Faulty.

(** ** The widgets of the window

    The slots of [FileDropArea] and [MainWindow] with what they show: the
    message boxes, the texts and the state of the widgets they set. The
    calls to the logger are taken to return and are left out, and so are
    the style sheets of the drop area and of the output path label, which
    no slot reads. *)

(** A [QMessageBox] shown to the user. *)
Inductive dialog : Type :=
| QMessageBox_warning (title text : string)
| QMessageBox_information (title text : string)
| QMessageBox_question (title text : string)
| QMessageBox_critical (title text : string).

(** The calls of the slots of [MainWindow] outside the window: to
    [FileValidator.validate_output_path] and to [os.startfile]. *)
Inductive desktop_call : Type :=
| validate_output_path_call (file_path : string) (r : result bool)
| startfile_call (file_path : string) (r : result unit).

(** What the slots of [MainWindow] use besides [Env]:
    [FileValidator.validate_output_path], [os.startfile] and
    [ResourceManager.get_stylesheet], whose result is [None] for [None]. *)
Record Desktop (World : Type) : Type := {
  validate_output_path : string -> World -> result bool * World;
  startfile : string -> World -> result unit * World;
  get_stylesheet : string -> option string
}.
Arguments validate_output_path {World}.
Arguments startfile {World}.
Arguments get_stylesheet {World}.

(** The answers of [is_valid_excel_file], each with the path asked about. *)
Definition validity_results {Data : Type} (t : list (event Data))
    : list (string * result bool) :=
  omap (fun c => match c with
                 | is_valid_excel_file_call p r => Some (p, r)
                 | _ => None
                 end) (calls t).

(** The paths of [rs] answered [True], and the paths answered [False]. *)
Definition accepted (rs : list (string * result bool)) : list string :=
  omap (fun pr => match snd pr with Ok true => Some (fst pr) | _ => None end) rs.

Definition refused (rs : list (string * result bool)) : list string :=
  omap (fun pr => match snd pr with Ok false => Some (fst pr) | _ => None end)
    rs.

Module DropArea.

(** What a drop or a selection shows: the list emitted with [files_dropped],
    the text set in [file_list], the message box; [None] where nothing is
    emitted, set or shown. *)
Record shown : Type := {
  files_dropped : option (list string);
  file_list : option string;
  box : option dialog
}.

Definition nothing : shown :=
  {| files_dropped := None; file_list := None; box := None |}.

Section Slots.
Context {World Data : Type} (env : Env World Data).

(** The text [update_file_list] sets. *)
Definition update_file_list (files : list string) : string :=
  Py.join Py.newline (basename env <$> files).

(** What follows the loop of [dropEvent] and of [browse_files], which
    differ in the texts of the message boxes. *)
Definition report (none_title none_text some_text : string)
    (files invalid_files : list string) : shown :=
  match files with
  | [] =>
      {| files_dropped := None; file_list := None;
         box := Some (QMessageBox_warning none_title none_text) |}
  | _ :: _ =>
      {| files_dropped := Some files;
         file_list := Some (update_file_list files);
         box := match invalid_files with
                | [] => None
                | _ :: _ =>
                    Some (QMessageBox_warning "Some Invalid Files"
                            (some_text +:+ Py.newline
                               +:+ Py.join Py.newline invalid_files))
                end |}
  end.

Definition dropEvent (urls : list string)
    : M (World:=World) (Data:=Data) shown :=
  r <- FileDropArea.classify env urls [] [] ;;
  ret (report "Invalid Files"
         "Please drop only valid Excel files (.xls, .xlsx)"
         "The following files were skipped (not valid Excel files):"
         (fst r) (snd r)).

(** [browse_files], for the list [files] the file dialog returns. *)
Definition browse_files (files : list string)
    : M (World:=World) (Data:=Data) shown :=
  match files with
  | [] => ret nothing
  | _ :: _ =>
      r <- FileDropArea.classify env files [] [] ;;
      ret (report "No Valid Files" "No valid Excel files were selected."
             "The following files were skipped:" (fst r) (snd r))
  end.

End Slots.
End DropArea.

Module Window.
Import MainWindow.

(** The window: the attributes of [MainWindow.state], and what the widgets
    show. [boxes] lists the message boxes shown so far, oldest first. *)
Record widgets : Type := {
  self : state;
  process_btn_enabled : bool;
  process_btn_style : string;
  progress_bar_visible : bool;
  progress_bar_value : Z;
  status_message : string;
  output_path_label : string;
  boxes : list dialog
}.

Definition set_self (s : state) (ui : widgets) : widgets :=
  {| self := s;
     process_btn_enabled := process_btn_enabled ui;
     process_btn_style := process_btn_style ui;
     progress_bar_visible := progress_bar_visible ui;
     progress_bar_value := progress_bar_value ui;
     status_message := status_message ui;
     output_path_label := output_path_label ui;
     boxes := boxes ui |}.

Definition setEnabled (b : bool) (style : string) (ui : widgets) : widgets :=
  {| self := self ui;
     process_btn_enabled := b;
     process_btn_style := style;
     progress_bar_visible := progress_bar_visible ui;
     progress_bar_value := progress_bar_value ui;
     status_message := status_message ui;
     output_path_label := output_path_label ui;
     boxes := boxes ui |}.

Definition setVisible (b : bool) (ui : widgets) : widgets :=
  {| self := self ui;
     process_btn_enabled := process_btn_enabled ui;
     process_btn_style := process_btn_style ui;
     progress_bar_visible := b;
     progress_bar_value := progress_bar_value ui;
     status_message := status_message ui;
     output_path_label := output_path_label ui;
     boxes := boxes ui |}.

Definition setValue (v : Z) (ui : widgets) : widgets :=
  {| self := self ui;
     process_btn_enabled := process_btn_enabled ui;
     process_btn_style := process_btn_style ui;
     progress_bar_visible := progress_bar_visible ui;
     progress_bar_value := v;
     status_message := status_message ui;
     output_path_label := output_path_label ui;
     boxes := boxes ui |}.

Definition showMessage (m : string) (ui : widgets) : widgets :=
  {| self := self ui;
     process_btn_enabled := process_btn_enabled ui;
     process_btn_style := process_btn_style ui;
     progress_bar_visible := progress_bar_visible ui;
     progress_bar_value := progress_bar_value ui;
     status_message := m;
     output_path_label := output_path_label ui;
     boxes := boxes ui |}.

Definition setText (label : string) (ui : widgets) : widgets :=
  {| self := self ui;
     process_btn_enabled := process_btn_enabled ui;
     process_btn_style := process_btn_style ui;
     progress_bar_visible := progress_bar_visible ui;
     progress_bar_value := progress_bar_value ui;
     status_message := status_message ui;
     output_path_label := label;
     boxes := boxes ui |}.

Definition show_box (d : dialog) (ui : widgets) : widgets :=
  {| self := self ui;
     process_btn_enabled := process_btn_enabled ui;
     process_btn_style := process_btn_style ui;
     progress_bar_visible := progress_bar_visible ui;
     progress_bar_value := progress_bar_value ui;
     status_message := status_message ui;
     output_path_label := output_path_label ui;
     boxes := boxes ui ++ [d] |}.

(** The inline style of the enabled button. *)
Definition fallback_style : string :=
  "
                    QPushButton {
                        background-color: #4CAF50;
                        color: white;
                        font-weight: bold;
                        border: none;
                        border-radius: 5px;
                    }
                    QPushButton:hover {
                        background-color: #45a049;
                    }
                ".

(** [bool(self.input_files and self.output_path)] *)
Definition can_process (s : state) : bool :=
  match input_files s with
  | [] => false
  | _ :: _ =>
      match output_path s with
      | EmptyString => false
      | String _ _ => true
      end
  end.

Section Slots.
Context {World Data : Type} (env : Env World Data) (desk : Desktop World).

(** The style sheet [name] when it is there and not empty, [default]
    otherwise. *)
Definition stylesheet_or (name default : string) : string :=
  match get_stylesheet desk name with
  | Some (String c s) => String c s
  | _ => default
  end.

Definition update_process_button_state (ui : widgets) : widgets :=
  if can_process (self ui)
  then setEnabled true (stylesheet_or "buttons_active.qss" fallback_style) ui
  else setEnabled false (stylesheet_or "buttons_disabled.qss" "") ui.

Definition on_files_selected (files : list string) (ui : widgets) : widgets :=
  let ui := set_self {| input_files := files;
                        output_path := output_path (self ui);
                        string_fields := string_fields (self ui) |} ui in
  let ui := update_process_button_state ui in
  showMessage ("Selected " +:+ pretty (length files) +:+ " file(s)") ui.

(** [choose_output_location], for the path [file_path] the file dialog
    returns. *)
Definition choose_output_location (file_path : string) (ui : widgets)
    (w : World) : result widgets * list desktop_call * World :=
  match file_path with
  | EmptyString => (Ok ui, [], w)
  | String _ _ =>
      let '(r, w') := validate_output_path desk file_path w in
      let made := [validate_output_path_call file_path r] in
      match r with
      | Raise e => (Raise e, made, w')
      | Ok false =>
          (Ok (show_box
                 (QMessageBox_warning "Invalid Output Path"
                    "The selected output location is not accessible or the filename is invalid.")
                 ui), made, w')
      | Ok true =>
          let ui := set_self {| input_files := input_files (self ui);
                                output_path := file_path;
                                string_fields := string_fields (self ui) |}
                      ui in
          let ui := setText (basename env file_path) ui in
          (Ok (update_process_button_state ui), made, w')
      end
  end.

(** [process_files] with what it shows; the arguments of the worker when
    one is started. *)
Definition process_files (ui : widgets)
    : widgets * option (list string * gmap string string * string) :=
  match MainWindow.process_files env (self ui) with
  | warning title text => (show_box (QMessageBox_warning title text) ui, None)
  | start files string_values out =>
      let ui := setEnabled false (process_btn_style ui) ui in
      let ui := setVisible true ui in
      let ui := setValue 0 ui in
      let ui := showMessage "Processing files..." ui in
      (ui, Some (files, string_values, out))
  end.

(** [on_processing_complete], for the answer [reply] to the question
    [Open File?] ([true] for [QMessageBox.Yes]). *)
Definition on_processing_complete (message : string) (reply : bool)
    (ui : widgets) (w : World) : widgets * list desktop_call * World :=
  let ui := setVisible false ui in
  let ui := setEnabled true (process_btn_style ui) ui in
  let ui := showMessage "Processing complete!" ui in
  let ui := show_box (QMessageBox_information "Success" message) ui in
  let ui := show_box (QMessageBox_question "Open File?"
                        "Would you like to open the generated file?") ui in
  if reply then
    let '(r, w') := startfile desk (output_path (self ui)) w in
    let made := [startfile_call (output_path (self ui)) r] in
    match r with
    | Ok _ => (ui, made, w')
    | Raise e =>
        (show_box (QMessageBox_warning "Cannot Open File"
                     ("Could not open the output file:" +:+ Py.newline +:+ e))
           ui, made, w')
    end
  else (ui, [], w).

Definition on_processing_error (error_message : string) (ui : widgets)
    : widgets :=
  let ui := setVisible false ui in
  let ui := setEnabled true (process_btn_style ui) ui in
  let ui := showMessage "Processing failed!" ui in
  show_box (QMessageBox_critical "Processing Error" error_message) ui.

(** The slot each signal of the worker is connected to. *)
Definition deliver (reply : bool) (s : signal) (ui : widgets) (w : World)
    : widgets * list desktop_call * World :=
  match s with
  | progress_updated v => (setValue v ui, [], w)
  | processing_complete message => on_processing_complete message reply ui w
  | processing_error error_message =>
      (on_processing_error error_message ui, [], w)
  end.

(** The signals of a run, delivered in the order of emission. *)
Fixpoint deliver_all (reply : bool) (ss : list signal) (ui : widgets)
    (w : World) : widgets * list desktop_call * World :=
  match ss with
  | [] => (ui, [], w)
  | s :: rest =>
      let '(ui1, made1, w1) := deliver reply s ui w in
      let '(ui2, made2, w2) := deliver_all reply rest ui1 w1 in
      (ui2, made1 ++ made2, w2)
  end.

(** A click on the process button, the run of the worker it starts, and the
    delivery of the signals of the run, with no other slot in between. *)
Definition clicked (reply : bool) (ui : widgets) (w : World)
    : widgets * list (event Data) * list desktop_call * World :=
  match process_files ui with
  | (ui1, None) => (ui1, [], [], w)
  | (ui1, Some (files, string_values, out)) =>
      let '(t, w1) := ProcessingThread.run env files string_values out w in
      let '(ui2, made, w2) := deliver_all reply (signals t) ui1 w1 in
      (ui2, t, made, w2)
  end.

End Slots.
End Window.

(** A desktop where [locked/out.xlsx] is no valid output path, nothing
    opens [noviewer.xlsx] and no style sheet is installed. *)
Module SampleDesktop.

Definition desk : Desktop unit :=
  {| validate_output_path :=
       fun p w => (Ok (bool_decide (p ≠ "locked/out.xlsx")), w);
     startfile :=
       fun p w => (if bool_decide (p = "noviewer.xlsx")
                   then Raise "No application is associated with the file"
                   else Ok tt, w);
     get_stylesheet := fun _ => None |}.

Definition fresh : Window.widgets :=
  {| Window.self :=
       {| MainWindow.input_files := [];
          MainWindow.output_path := "";
          MainWindow.string_fields := MainWindow.fields_of (fun _ => "") |};
     Window.process_btn_enabled := false;
     Window.process_btn_style := "";
     Window.progress_bar_visible := false;
     Window.progress_bar_value := 0;
     Window.status_message :=
       "Ready - Select input files and configure settings";
     Window.output_path_label := "No output location selected";
     Window.boxes := [] |}.

(** The window once three files, an output path and the five values are
    entered. *)
Definition ready : Window.widgets :=
  Window.set_self
    {| MainWindow.input_files := Sample.three_files;
       MainWindow.output_path := "out.xlsx";
       MainWindow.string_fields :=
         MainWindow.fields_of
           (fun key => default "" (Sample.metadata !! key)) |}
    fresh.

End SampleDesktop.

(** ** The arithmetic on examples *)

Example rne_third :
  Float64.rne (1 # 3) = (6004799503160661 # 18014398509481984)%Q.
Proof. vm_compute. reflexivity. Qed.

(** The classic [int(0.29 * 100) = 28]: rounding is visible. *)
Example int_29_100 : scaled 29 100 100 = 28.
Proof. vm_compute. reflexivity. Qed.

Example scaled_thirds :
  scaled 1 3 20 = 6 /\ scaled 2 3 20 = 13 /\ scaled 2 3 40 = 26.
Proof. vm_compute. repeat split; reflexivity. Qed.

(** [Float64] and the reference implementation agree on every quotient
    [k / n * w] with [1 <= k <= n <= 48], for both weights and for 100. *)
Example agrees_with_reference :
  Reference.agrees_up_to 48 20 = true /\ Reference.agrees_up_to 48 40 = true
  /\ Reference.agrees_up_to 48 100 = true.
Proof. vm_compute. repeat split; reflexivity. Qed.

(** Long lists: the same agreement on a few quotients of large integers. *)
Example agrees_on_large_lists :
  Reference.agrees 123456789 987654321 20 = true
  /\ Reference.agrees 4503599627370497 9007199254740991 40 = true
  /\ Reference.agrees 1 9007199254740991 20 = true
  /\ Reference.agrees 9007199254740990 9007199254740991 40 = true.
Proof. vm_compute. repeat split; reflexivity. Qed.

(** Ties go to the even significand, as in the reference implementation. *)
Example ties_to_even :
  (Float64.rne (inject_Z (2 ^ 53 + 1)) == inject_Z (2 ^ 53))%Q
  /\ (Float64.rne (inject_Z (2 ^ 53 + 3)) == inject_Z (2 ^ 53 + 4))%Q
  /\ (Reference.value (Reference.of_int (2 ^ 53 + 1)) == inject_Z (2 ^ 53))%Q
  /\ (Reference.value (Reference.of_int (2 ^ 53 + 3))
       == inject_Z (2 ^ 53 + 4))%Q.
Proof. vm_compute. repeat split; reflexivity. Qed.

(** ** Rounding to nearest is monotone *)

Section Float64Facts.
Import Float64.
Local Open Scope Q_scope.

Lemma pow2_pos (e : Z) : 0 < 2 ^ e.
Proof. apply Qpower_0_lt. reflexivity. Qed.

Lemma pow2_le (a b : Z) : (a <= b)%Z -> 2 ^ a <= 2 ^ b.
Proof. intros H. apply Qpower_le_compat_l; [exact H | discriminate]. Qed.

Lemma pow2_lt (a b : Z) : (a < b)%Z -> 2 ^ a < 2 ^ b.
Proof. intros H. apply Qpower_lt_compat_l; [exact H | reflexivity]. Qed.

Lemma pow2_lt_inv (a b : Z) : 2 ^ a < 2 ^ b -> (a < b)%Z.
Proof. intros H. apply (Qpower_lt_compat_l_inv 2); [exact H | reflexivity]. Qed.

Lemma pow2_minus (a b : Z) : 2 ^ (a - b) == 2 ^ a / 2 ^ b.
Proof. apply Qpower_minus. discriminate. Qed.

Lemma frac_lt (a b c d : Q) :
  0 < b -> 0 < d -> a * d < c * b -> a / b < c / d.
Proof.
  intros Hb Hd H.
  apply Qlt_shift_div_r; [exact Hb|].
  assert (E : c / d * b == c * b / d)
    by (field; intros E; rewrite E in Hd; discriminate).
  rewrite E.
  apply Qlt_shift_div_l; assumption.
Qed.

Lemma Zlog2_Qbounds (n : Z) :
  (0 < n)%Z -> 2 ^ Z.log2 n <= inject_Z n /\ inject_Z n < 2 ^ (Z.log2 n + 1).
Proof.
  intros Hn. destruct (Z.log2_spec n Hn) as [H1 H2].
  pose proof (Z.log2_nonneg n) as H0.
  split.
  - rewrite <- (Zpower_Qpower 2) by exact H0. rewrite <- Zle_Qle. exact H1.
  - rewrite <- (Zpower_Qpower 2) by lia. rewrite <- Zlt_Qlt. exact H2.
Qed.

Lemma ilog2_spec (x : Q) :
  0 < x -> 2 ^ ilog2 x <= x /\ x < 2 ^ (ilog2 x + 1).
Proof.
  intros Hx. destruct x as [a b].
  assert (Ha : (0 < a)%Z) by (unfold Qlt in Hx; simpl in Hx; lia).
  destruct (Zlog2_Qbounds a Ha) as [Ha1 Ha2].
  destruct (Zlog2_Qbounds (Zpos b) eq_refl) as [Hb1 Hb2].
  assert (Ha' : 0 < inject_Z a) by (rewrite <- (Zlt_Qlt 0); exact Ha).
  assert (Hb' : 0 < inject_Z (Zpos b)) by reflexivity.
  unfold ilog2. cbn [Qnum Qden].
  set (la := Z.log2 a) in *. set (lb := Z.log2 (Zpos b)) in *.
  assert (Hlo : 2 ^ (la - lb - 1) < a # b).
  { rewrite (Qmake_Qdiv a b).
    replace (la - lb - 1)%Z with (la - (lb + 1))%Z by lia.
    rewrite pow2_minus. apply frac_lt; [apply pow2_pos | exact Hb' |].
    apply Qmult_le_lt_compat_pos; split;
      try assumption; try apply pow2_pos. }
  assert (Hhi : a # b < 2 ^ (la - lb + 1)).
  { rewrite (Qmake_Qdiv a b).
    replace (la - lb + 1)%Z with (la + 1 - lb)%Z by lia.
    rewrite pow2_minus. apply frac_lt; [exact Hb' | apply pow2_pos |].
    rewrite (Qmult_comm (2 ^ (la + 1))).
    rewrite (Qmult_comm (inject_Z a)).
    apply Qmult_le_lt_compat_pos; split;
      try assumption; try apply pow2_pos. }
  destruct (Qle_bool (2 ^ (la - lb)) (a # b)) eqn:E.
  - apply Qle_bool_iff in E. split; assumption.
  - split; [apply Qlt_le_weak; exact Hlo|].
    replace (la - lb - 1 + 1)%Z with (la - lb)%Z by lia.
    apply Qnot_le_lt. intros H. apply Qle_bool_iff in H. congruence.
Qed.

Lemma ilog2_unique (x : Q) (l : Z) :
  0 < x -> 2 ^ l <= x -> x < 2 ^ (l + 1) -> ilog2 x = l.
Proof.
  intros Hx Hl Hu. destruct (ilog2_spec x Hx) as [Hl' Hu'].
  assert (ilog2 x < l + 1)%Z
    by (apply pow2_lt_inv; eapply Qle_lt_trans; eassumption).
  assert (l < ilog2 x + 1)%Z
    by (apply pow2_lt_inv; eapply Qle_lt_trans; eassumption).
  lia.
Qed.

Lemma ilog2_compat (x y : Q) : 0 < x -> x == y -> ilog2 x = ilog2 y.
Proof.
  intros Hx E. symmetry. destruct (ilog2_spec x Hx) as [Hl Hu].
  apply ilog2_unique; rewrite <- E; assumption.
Qed.

Lemma ilog2_mono (x y : Q) : 0 < x -> x <= y -> (ilog2 x <= ilog2 y)%Z.
Proof.
  intros Hx Hxy.
  assert (Hy : 0 < y) by (eapply Qlt_le_trans; eassumption).
  destruct (ilog2_spec x Hx) as [Hl _]. destruct (ilog2_spec y Hy) as [_ Hu].
  assert (ilog2 x < ilog2 y + 1)%Z; [|lia].
  apply pow2_lt_inv. eapply Qle_lt_trans; [|exact Hu].
  eapply Qle_trans; eassumption.
Qed.

Lemma round_half_even_floor (x : Q) :
  (Qfloor x <= round_half_even x <= Qfloor x + 1)%Z.
Proof.
  unfold round_half_even.
  destruct (x - inject_Z (Qfloor x) ?= 1 # 2); [destruct (Z.even _)| |]; lia.
Qed.

Lemma round_half_even_compat (x y : Q) :
  x == y -> round_half_even x = round_half_even y.
Proof.
  intros E. unfold round_half_even.
  rewrite (Qfloor_comp _ _ E).
  assert (E' : x - inject_Z (Qfloor y) == y - inject_Z (Qfloor y))
    by (rewrite E; reflexivity).
  rewrite (Qcompare_comp _ _ E' _ _ (Qeq_refl (1 # 2))). reflexivity.
Qed.

Lemma round_half_even_Z (z : Z) : round_half_even (inject_Z z) = z.
Proof.
  unfold round_half_even. rewrite Qfloor_Z.
  assert (E : inject_Z z - inject_Z z == 0) by ring.
  rewrite (Qcompare_comp _ _ E _ _ (Qeq_refl (1 # 2))). reflexivity.
Qed.

Lemma round_half_even_mono (x y : Q) :
  x <= y -> (round_half_even x <= round_half_even y)%Z.
Proof.
  intros Hxy. pose proof (Qfloor_resp_le _ _ Hxy) as Hf.
  pose proof (round_half_even_floor x). pose proof (round_half_even_floor y).
  destruct (Z.eq_dec (Qfloor x) (Qfloor y)) as [E|NE]; [|lia].
  clear H H0 Hf. unfold round_half_even. rewrite <- E.
  assert (Hd : x - inject_Z (Qfloor x) <= y - inject_Z (Qfloor x))
    by (apply Qplus_le_l; exact Hxy).
  destruct (Qcompare_spec (x - inject_Z (Qfloor x)) (1 # 2)) as [Ex|Lx|Gx];
    destruct (Qcompare_spec (y - inject_Z (Qfloor x)) (1 # 2)) as [Ey|Ly|Gy];
    try destruct (Z.even (Qfloor x)); try lia; exfalso; lra.
Qed.

Lemma ulp_exp_mono (x y : Q) : 0 < x -> x <= y -> (ulp_exp x <= ulp_exp y)%Z.
Proof. intros Hx Hxy. pose proof (ilog2_mono x y Hx Hxy). unfold ulp_exp. lia. Qed.

Lemma scaled_ge (x : Q) (e : Z) : 0 <= x -> 0 <= x / 2 ^ e.
Proof.
  intros Hx. apply Qle_shift_div_l; [apply pow2_pos|].
  rewrite Qmult_0_l. exact Hx.
Qed.

Lemma rne_pos_nonneg (x : Q) : 0 <= x -> 0 <= rne_pos x.
Proof.
  intros Hx. unfold rne_pos. apply Qmult_le_0_compat.
  - rewrite <- (Zle_Qle 0). rewrite <- (round_half_even_Z 0).
    apply round_half_even_mono, scaled_ge, Hx.
  - apply Qlt_le_weak, pow2_pos.
Qed.

(** The significand of a positive number has at most [prec] bits. *)
Lemma significand_upper (x : Q) :
  0 < x -> (round_half_even (x / 2 ^ ulp_exp x) <= 2 ^ prec)%Z.
Proof.
  intros Hx. destruct (ilog2_spec x Hx) as [_ Hu].
  rewrite <- (round_half_even_Z (2 ^ prec)).
  apply round_half_even_mono.
  apply Qle_shift_div_r; [apply pow2_pos|].
  rewrite (Zpower_Qpower 2) by (unfold prec; lia).
  rewrite <- Qpower_plus by discriminate.
  apply Qlt_le_weak. eapply Qlt_le_trans; [exact Hu|].
  apply pow2_le. unfold ulp_exp, prec. lia.
Qed.

(** Above the subnormal range it has exactly [prec] bits. *)
Lemma significand_lower (x : Q) :
  0 < x -> (emin < ulp_exp x)%Z ->
  (2 ^ (prec - 1) <= round_half_even (x / 2 ^ ulp_exp x))%Z.
Proof.
  intros Hx He. destruct (ilog2_spec x Hx) as [Hl _].
  rewrite <- (round_half_even_Z (2 ^ (prec - 1))) at 1.
  apply round_half_even_mono.
  apply Qle_shift_div_l; [apply pow2_pos|].
  rewrite (Zpower_Qpower 2) by (unfold prec; lia).
  rewrite <- Qpower_plus by discriminate.
  eapply Qle_trans; [|exact Hl].
  apply pow2_le. unfold ulp_exp, prec in *. lia.
Qed.

Lemma rne_pos_mono (x y : Q) : 0 < x -> x <= y -> rne_pos x <= rne_pos y.
Proof.
  intros Hx Hxy.
  assert (Hy : 0 < y) by (eapply Qlt_le_trans; eassumption).
  pose proof (ulp_exp_mono x y Hx Hxy) as He.
  unfold rne_pos.
  destruct (Z.eq_dec (ulp_exp x) (ulp_exp y)) as [E|NE].
  - rewrite E. apply Qmult_le_compat_r; [|apply Qlt_le_weak, pow2_pos].
    rewrite <- Zle_Qle. apply round_half_even_mono.
    apply Qmult_le_compat_r; [exact Hxy|].
    apply Qlt_le_weak, Qinv_lt_0_compat, pow2_pos.
  - assert (Hlt : (ulp_exp x + 1 <= ulp_exp y)%Z) by lia.
    assert (Hmin : (emin < ulp_exp y)%Z) by (unfold ulp_exp in *; lia).
    pose proof (significand_upper x Hx) as Hux.
    pose proof (significand_lower y Hy Hmin) as Hly.
    apply (Qle_trans _ (inject_Z (2 ^ prec) * 2 ^ ulp_exp x)).
    { apply Qmult_le_compat_r; [|apply Qlt_le_weak, pow2_pos].
      rewrite <- Zle_Qle. exact Hux. }
    apply (Qle_trans _ (inject_Z (2 ^ (prec - 1)) * 2 ^ ulp_exp y)).
    2:{ apply Qmult_le_compat_r; [|apply Qlt_le_weak, pow2_pos].
        rewrite <- Zle_Qle. exact Hly. }
    rewrite !(Zpower_Qpower 2) by (unfold prec; lia).
    rewrite <- !Qpower_plus by discriminate.
    apply pow2_le. lia.
Qed.

Lemma rne_pos_compat (x y : Q) : 0 < x -> x == y -> rne_pos x == rne_pos y.
Proof.
  intros Hx E. unfold rne_pos, ulp_exp.
  rewrite <- (ilog2_compat x y Hx E).
  set (e := Z.max (ilog2 x - (prec - 1)) emin).
  assert (E' : x / 2 ^ e == y / 2 ^ e) by (apply Qdiv_comp; [exact E | reflexivity]).
  rewrite (round_half_even_compat _ _ E'). reflexivity.
Qed.

Lemma rne_compat (x y : Q) : x == y -> rne x == rne y.
Proof.
  intros E. unfold rne.
  rewrite <- (Qcompare_comp _ _ E _ _ (Qeq_refl 0)).
  destruct (Qcompare_spec x 0) as [E0|L|G].
  - reflexivity.
  - apply Qopp_comp, rne_pos_compat; [lra | rewrite E; reflexivity].
  - apply rne_pos_compat; assumption.
Qed.

Lemma rne_nonneg (x : Q) : 0 <= x -> 0 <= rne x.
Proof.
  intros Hx. unfold rne. destruct (Qcompare_spec x 0) as [E0|L|G].
  - apply Qle_refl.
  - lra.
  - apply rne_pos_nonneg, Hx.
Qed.

(** Rounding is monotone. *)
Lemma rne_mono (x y : Q) : 0 <= x -> x <= y -> rne x <= rne y.
Proof.
  intros Hx Hxy. unfold rne at 1.
  destruct (Qcompare_spec x 0) as [E0|L|G].
  - apply rne_nonneg. lra.
  - lra.
  - unfold rne. destruct (Qcompare_spec y 0) as [E0|L|G']; try lra.
    apply rne_pos_mono; assumption.
Qed.

Lemma py_int_floor (x : Q) : 0 <= x -> py_int x = Qfloor x.
Proof.
  intros Hx. destruct x as [a b]. unfold py_int, Qfloor. cbn [Qnum Qden].
  apply Z.quot_div_nonneg; [|lia].
  unfold Qle in Hx. simpl in Hx. lia.
Qed.

End Float64Facts.

(** ** Progress arithmetic *)

Section ScaledFacts.
Import Float64.
Local Open Scope Q_scope.

Lemma ratio_nonneg (k n : Z) : (0 <= k)%Z -> (0 < n)%Z -> 0 <= inject_Z k / inject_Z n.
Proof.
  intros Hk Hn. apply Qle_shift_div_l.
  - rewrite <- (Zlt_Qlt 0). exact Hn.
  - rewrite Qmult_0_l, <- (Zle_Qle 0). exact Hk.
Qed.

Lemma ratio_mono (k k' n : Z) :
  (k <= k')%Z -> (0 < n)%Z -> inject_Z k / inject_Z n <= inject_Z k' / inject_Z n.
Proof.
  intros Hk Hn. apply Qmult_le_compat_r.
  - rewrite <- Zle_Qle. exact Hk.
  - apply Qlt_le_weak, Qinv_lt_0_compat. rewrite <- (Zlt_Qlt 0). exact Hn.
Qed.

Lemma ratio_one (n : Z) : (0 < n)%Z -> inject_Z n / inject_Z n == 1.
Proof.
  intros Hn. apply Qmult_inv_r. intros E.
  apply (inject_Z_injective n 0) in E. lia.
Qed.

Lemma weighted_nonneg (k n w : Z) :
  (0 <= k)%Z -> (0 < n)%Z -> (0 <= w)%Z ->
  0 <= rne (inject_Z k / inject_Z n) * inject_Z w.
Proof.
  intros Hk Hn Hw. apply Qmult_le_0_compat.
  - apply rne_nonneg, ratio_nonneg; assumption.
  - rewrite <- (Zle_Qle 0). exact Hw.
Qed.

(** On the values the worker computes, [int] is the floor. *)
Lemma scaled_floor (k n w : Z) :
  (0 <= k)%Z -> (0 < n)%Z -> (0 <= w)%Z ->
  scaled k n w = Qfloor (rne (rne (inject_Z k / inject_Z n) * inject_Z w)).
Proof.
  intros Hk Hn Hw. unfold scaled, mul_int.
  apply py_int_floor, rne_nonneg, weighted_nonneg; assumption.
Qed.

Lemma scaled_nonneg (k n w : Z) :
  (0 <= k)%Z -> (0 < n)%Z -> (0 <= w)%Z -> (0 <= scaled k n w)%Z.
Proof.
  intros Hk Hn Hw. rewrite scaled_floor by assumption.
  rewrite <- (Qfloor_Z 0). apply Qfloor_resp_le, rne_nonneg, weighted_nonneg;
    assumption.
Qed.

Lemma scaled_mono (k k' n w : Z) :
  (0 <= k)%Z -> (k <= k')%Z -> (0 < n)%Z -> (0 <= w)%Z ->
  (scaled k n w <= scaled k' n w)%Z.
Proof.
  intros Hk Hkk Hn Hw. rewrite !scaled_floor by (assumption || lia).
  apply Qfloor_resp_le, rne_mono; [apply weighted_nonneg; assumption|].
  apply Qmult_le_compat_r; [|rewrite <- (Zle_Qle 0); exact Hw].
  apply rne_mono; [apply ratio_nonneg; assumption|].
  apply ratio_mono; assumption.
Qed.

(** The last file of a phase brings the phase to its full weight, whenever
    the weight is a binary64 number. *)
Lemma scaled_full (n w : Z) :
  (0 < n)%Z -> (0 <= w)%Z -> rne (inject_Z w) == inject_Z w -> scaled n n w = w.
Proof.
  intros Hn Hw Hrep. rewrite scaled_floor by (assumption || lia).
  rewrite <- (Qfloor_Z w) at 2. apply Qfloor_comp.
  apply (Qeq_trans _ (rne (inject_Z w))); [|exact Hrep]. apply rne_compat.
  assert (E : rne (inject_Z n / inject_Z n) == 1).
  { rewrite (rne_compat _ _ (ratio_one n Hn)). vm_compute. reflexivity. }
  rewrite E. apply Qmult_1_l.
Qed.

Lemma scaled_full_20 (n : Z) : (0 < n)%Z -> scaled n n 20 = 20%Z.
Proof. intros Hn. apply scaled_full; [exact Hn | lia | vm_compute; reflexivity]. Qed.

Lemma scaled_full_40 (n : Z) : (0 < n)%Z -> scaled n n 40 = 40%Z.
Proof. intros Hn. apply scaled_full; [exact Hn | lia | vm_compute; reflexivity]. Qed.

End ScaledFacts.

(** ** Python strings *)

Section PyFacts.
Import Py.

Lemma lstrip_head (s : string) :
  match lstrip s with
  | EmptyString => True
  | String c _ => isspace c = false
  end.
Proof.
  induction s as [|c s IH]; cbn; [exact I|].
  destruct (isspace c) eqn:E; [exact IH | exact E].
Qed.

Lemma lstrip_fixed (c : ascii) (s : string) :
  isspace c = false -> lstrip (String c s) = String c s.
Proof. intros E. cbn. rewrite E. reflexivity. Qed.

Lemma rstrip_unfold (c : ascii) (s : string) :
  rstrip (String c s)
  = match rstrip s with
    | EmptyString => if isspace c then EmptyString else String c EmptyString
    | r => String c r
    end.
Proof. reflexivity. Qed.

Lemma rstrip_cons (c : ascii) (s : string) :
  isspace c = false -> exists r, rstrip (String c s) = String c r.
Proof.
  intros E. rewrite rstrip_unfold. destruct (rstrip s); [rewrite E|]; eauto.
Qed.

Lemma rstrip_idemp (s : string) : rstrip (rstrip s) = rstrip s.
Proof.
  induction s as [|c s IH]; [reflexivity|]. rewrite rstrip_unfold.
  destruct (rstrip s) as [|c' r] eqn:E.
  - destruct (isspace c) eqn:Ec; [reflexivity|]. cbn. rewrite Ec. reflexivity.
  - rewrite rstrip_unfold, IH. reflexivity.
Qed.

(** [strip] is idempotent: a trimmed value stays as it is. *)
Lemma strip_idemp (s : string) : strip (strip s) = strip s.
Proof.
  unfold strip. pose proof (lstrip_head s) as Hh.
  destruct (lstrip s) as [|c u]; [reflexivity|].
  destruct (rstrip_cons c u Hh) as [r Hr].
  rewrite Hr, (lstrip_fixed c r Hh), <- Hr. apply rstrip_idemp.
Qed.

End PyFacts.

(** ** The loops of the worker *)

Section WorkerFacts.
Context {World Data : Type} (env : Env World Data).
Import ProcessingThread.

Lemma phase_progress_ok (i n weight : Z) (w : World) :
  n ≠ 0 ->
  phase_progress (Data:=Data) i n weight w = (Ok (scaled (i + 1) n weight), [], w).
Proof.
  intros Hn. unfold phase_progress, Float64.true_div.
  destruct (Z.eqb_spec n 0) as [E|_]; [contradiction|]. reflexivity.
Qed.

(** One iteration of the first loop. *)
Lemma validate_loop_cons (n i : Z) (f : string) (rest : list string) (w : World) :
  n ≠ 0 ->
  validate_loop env n i (f :: rest) w =
  match validate_file_accessibility env f w with
  | (Ok true, w1) =>
      let '(r, t, w2) := validate_loop env n (i + 1) rest w1 in
      (r, Call (validate_file_accessibility_call f (Ok true))
            :: Signal (progress_updated (scaled (i + 1) n 20)) :: t, w2)
  | (res, w1) =>
      (Raise (access_failure f res),
       [Call (validate_file_accessibility_call f res)], w1)
  end.
Proof.
  intros Hn. cbn [validate_loop]. unfold bind at 1. unfold extern.
  destruct (validate_file_accessibility env f w) as [[[|]|e] w1]; cbn.
  - unfold bind at 1. rewrite phase_progress_ok by exact Hn.
    unfold bind at 1. cbn.
    destruct (validate_loop env n (i + 1) rest w1) as [[r t] w2]. reflexivity.
  - reflexivity.
  - reflexivity.
Qed.

(** One iteration of the second loop. *)
Lemma load_loop_cons (n i : Z) (f : string) (rest : list string)
    (loaded : list Data) (w : World) :
  n ≠ 0 ->
  load_loop env n i (f :: rest) loaded w =
  match load_excel_file env f w with
  | (Ok d, w1) =>
      let '(r, t, w2) := load_loop env n (i + 1) rest (loaded ++ [d]) w1 in
      (r, Call (load_excel_file_call f (Ok d))
            :: Signal (progress_updated (20 + scaled (i + 1) n 40)) :: t, w2)
  | (Raise e, w1) => (Raise e, [Call (load_excel_file_call f (Raise e))], w1)
  end.
Proof.
  intros Hn. cbn [load_loop]. unfold bind at 1. unfold extern.
  destruct (load_excel_file env f w) as [[d|e] w1]; cbn.
  - unfold bind at 1. rewrite phase_progress_ok by exact Hn.
    unfold bind at 1. cbn.
    destruct (load_loop env n (i + 1) rest (loaded ++ [d]) w1) as [[r t] w2].
    reflexivity.
  - reflexivity.
Qed.

End WorkerFacts.

Section LoopFacts.
Context {World Data : Type} (env : Env World Data).
Import ProcessingThread.

Lemma validating_values_nil (n i : Z) : validating_values n i 0 = [].
Proof. reflexivity. Qed.

Lemma validating_values_cons (n i : Z) (len : nat) :
  validating_values n i (Z.of_nat (S len))
  = scaled (i + 1) n 20 :: validating_values n (i + 1) (Z.of_nat len).
Proof.
  unfold validating_values. rewrite seqZ_cons by lia. cbn [fmap list_fmap].
  do 3 f_equal; lia.
Qed.

Lemma loading_values_cons (n i : Z) (len : nat) :
  loading_values n i (Z.of_nat (S len))
  = 20 + scaled (i + 1) n 40 :: loading_values n (i + 1) (Z.of_nat len).
Proof.
  unfold loading_values. rewrite seqZ_cons by lia. cbn [fmap list_fmap].
  do 3 f_equal; lia.
Qed.

Lemma validate_loop_spec (files : list string) (n i : Z) (w : World) :
  n = i + Z.of_nat (length files) -> 0 <= i ->
  let '(r, t, _) := validate_loop env n i files w in
  Forall validating_event t
  /\ match r with
     | Ok _ =>
         progress_values t = validating_values n i (Z.of_nat (length files))
         /\ accessibility_results t = passing files
     | Raise e =>
         exists (k : nat) p res,
           files !! k = Some p /\ res ≠ Ok true /\ e = access_failure p res
           /\ progress_values t = validating_values n i (Z.of_nat k)
           /\ accessibility_results t = passing (take k files) ++ [(p, res)]
     end.
Proof.
  revert n i w. induction files as [|f rest IH]; intros n i w Hn Hi.
  - cbn. split; [constructor | split; reflexivity].
  - assert (Hn0 : n ≠ 0) by (cbn [length] in Hn; lia).
    rewrite validate_loop_cons by exact Hn0.
    destruct (validate_file_accessibility env f w) as [[[|]|e] w1].
    + specialize (IH n (i + 1) w1).
      destruct (validate_loop env n (i + 1) rest w1) as [[r t] w2].
      destruct IH as [Hall Hr]; [cbn [length] in Hn; lia | lia |].
      split; [repeat constructor; exact Hall|].
      destruct r as [u|e].
      * destruct Hr as [Hp Ha]. split.
        -- cbn [length]. rewrite validating_values_cons. cbn. f_equal. exact Hp.
        -- cbn. f_equal. exact Ha.
      * destruct Hr as (k & p & res & Hk & Hres & He & Hp & Ha).
        exists (S k), p, res. repeat split; try assumption.
        -- rewrite validating_values_cons. cbn. f_equal. exact Hp.
        -- cbn. f_equal. exact Ha.
    + split; [repeat constructor|].
      exists 0%nat, f, (Ok false). repeat split; congruence.
    + split; [repeat constructor|].
      exists 0%nat, f, (Raise e). repeat split; congruence.
Qed.

Lemma load_loop_spec (files : list string) (n i : Z) (loaded : list Data)
    (w : World) :
  n = i + Z.of_nat (length files) -> 0 <= i ->
  let '(r, t, _) := load_loop env n i files loaded w in
  Forall loading_event t
  /\ match r with
     | Ok loaded' =>
         progress_values t = loading_values n i (Z.of_nat (length files))
         /\ loaded' = loaded ++ loaded_tables t
         /\ load_attempts t = files
         /\ length (loaded_tables t) = length files
     | Raise e =>
         exists k : nat,
           (k < length files)%nat
           /\ progress_values t = loading_values n i (Z.of_nat k)
           /\ load_attempts t = take (S k) files
     end.
Proof.
  revert n i loaded w. induction files as [|f rest IH]; intros n i loaded w Hn Hi.
  - cbn. split; [constructor|]. rewrite app_nil_r. repeat split; reflexivity.
  - assert (Hn0 : n ≠ 0) by (cbn [length] in Hn; lia).
    rewrite load_loop_cons by exact Hn0.
    destruct (load_excel_file env f w) as [[d|e] w1].
    + specialize (IH n (i + 1) (loaded ++ [d]) w1).
      destruct (load_loop env n (i + 1) rest (loaded ++ [d]) w1) as [[r t] w2].
      destruct IH as [Hall Hr]; [cbn [length] in Hn; lia | lia |].
      split; [repeat constructor; exact Hall|].
      destruct r as [loaded'|e].
      * destruct Hr as (Hp & Hl & Ha & Hlen). repeat split.
        -- cbn [length]. rewrite loading_values_cons. cbn. f_equal. exact Hp.
        -- rewrite Hl, <- app_assoc. reflexivity.
        -- cbn. f_equal. exact Ha.
        -- cbn. f_equal. exact Hlen.
      * destruct Hr as (k & Hk & Hp & Ha).
        exists (S k). repeat split.
        -- cbn [length]. lia.
        -- rewrite loading_values_cons. cbn. f_equal. exact Hp.
        -- cbn. f_equal. exact Ha.
    + split; [repeat constructor|].
      exists 0%nat. repeat split. cbn [length]. lia.
Qed.

End LoopFacts.

(** ** Projections of traces *)

Section ProjectionFacts.
Context {Data : Type}.
Implicit Types t : list (event Data).

Lemma calls_app t1 t2 : calls (t1 ++ t2) = calls t1 ++ calls t2.
Proof. apply omap_app. Qed.

Lemma signals_app t1 t2 : signals (t1 ++ t2) = signals t1 ++ signals t2.
Proof. apply omap_app. Qed.

Lemma progress_values_app t1 t2 :
  progress_values (t1 ++ t2) = progress_values t1 ++ progress_values t2.
Proof. apply omap_app. Qed.

Lemma validity_checks_app t1 t2 :
  validity_checks (t1 ++ t2) = validity_checks t1 ++ validity_checks t2.
Proof. unfold validity_checks. rewrite calls_app. apply omap_app. Qed.

Lemma accessibility_results_app t1 t2 :
  accessibility_results (t1 ++ t2)
  = accessibility_results t1 ++ accessibility_results t2.
Proof. unfold accessibility_results. rewrite calls_app. apply omap_app. Qed.

Lemma load_attempts_app t1 t2 :
  load_attempts (t1 ++ t2) = load_attempts t1 ++ load_attempts t2.
Proof. unfold load_attempts. rewrite calls_app. apply omap_app. Qed.

Lemma loaded_tables_app t1 t2 :
  loaded_tables (t1 ++ t2) = loaded_tables t1 ++ loaded_tables t2.
Proof. unfold loaded_tables. rewrite calls_app. apply omap_app. Qed.

Lemma save_attempts_app t1 t2 :
  save_attempts (t1 ++ t2) = save_attempts t1 ++ save_attempts t2.
Proof. unfold save_attempts. rewrite calls_app. apply omap_app. Qed.

Lemma saved_tables_app t1 t2 :
  saved_tables (t1 ++ t2) = saved_tables t1 ++ saved_tables t2.
Proof. unfold saved_tables. rewrite calls_app. apply omap_app. Qed.

(** The first loop emits progress and checks accessibility, nothing else. *)
Lemma validating_event_projections t :
  Forall validating_event t ->
  signals t = progress_updated <$> progress_values t
  /\ validity_checks t = [] /\ load_attempts t = [] /\ loaded_tables t = []
  /\ save_attempts t = [] /\ saved_tables t = [].
Proof.
  induction 1 as [|e t He _ IH]; [repeat split; reflexivity|].
  destruct IH as (H1 & H2 & H3 & H4 & H5 & H6).
  unfold signals, progress_values, validity_checks, load_attempts,
    loaded_tables, save_attempts, saved_tables, calls in *.
  destruct e as [[p| |]|[]]; try contradiction; cbn;
    repeat split; congruence.
Qed.

(** The second loop emits progress and loads, nothing else. *)
Lemma loading_event_projections t :
  Forall loading_event t ->
  signals t = progress_updated <$> progress_values t
  /\ validity_checks t = [] /\ accessibility_results t = []
  /\ save_attempts t = [] /\ saved_tables t = [].
Proof.
  induction 1 as [|e t He _ IH]; [repeat split; reflexivity|].
  destruct IH as (H1 & H2 & H3 & H4 & H5).
  unfold signals, progress_values, validity_checks, accessibility_results,
    save_attempts, saved_tables, calls in *.
  destruct e as [[p| |]|[]]; try contradiction; cbn;
    repeat split; congruence.
Qed.

End ProjectionFacts.

Create Rewrite HintDb trace.
#[local] Hint Rewrite @calls_app @signals_app @progress_values_app
  @validity_checks_app @accessibility_results_app @load_attempts_app
  @loaded_tables_app @save_attempts_app @saved_tables_app : trace.

(** ** The shape of a run *)

Section RunFacts.
Context {World Data : Type} (env : Env World Data).
Import ProcessingThread.

Lemma run_shape (files : list string) (string_values : gmap string string)
    (out : string) (w : World) :
  let n := Z.of_nat (length files) in
  let t := fst (run env files string_values out w) in
  exists x : ending,
    signals t = (progress_updated <$> progress_before n x) ++ [outcome_of x]
    /\ progress_values t = progress_before n x
    /\ validity_checks t = []
    /\ calls_before env files string_values out t x.
Proof.
  intros n t.
  generalize (eq_refl : t = fst (run env files string_values out w)).
  clearbody t. unfold run, run_try. fold n.
  unfold bind at 1. unfold extern at 1.
  destruct (new_FileHandler env w) as [[u0|e] w0] eqn:Hfh.
  2:{ intros Ht; cbn [fst] in Ht; subst t. exists (fails_starting e).
      cbn. repeat split. }
  unfold bind at 1. unfold extern at 1.
  destruct (new_ExcelProcessor env w0) as [[u0'|e] w0'] eqn:Hep.
  2:{ intros Ht; cbn [fst] in Ht; subst t. exists (fails_starting e).
      cbn. repeat split. }
  unfold bind at 1.
  pose proof (validate_loop_spec env files n 0 w0') as Hv.
  destruct (validate_loop env n 0 files w0') as [[rv tv] w1].
  destruct Hv as [Hv Hrv]; [lia | lia |].
  apply validating_event_projections in Hv.
  destruct Hv as (Hv1 & Hv2 & Hv3 & Hv4 & Hv5 & Hv6).
  destruct rv as [u|e].
  2:{ destruct Hrv as (k & p & res & Hk & Hres & He & Hp & Ha).
      intros Ht; cbn [fst] in Ht; subst t.
      exists (fails_validating k e). cbn [progress_before outcome_of calls_before].
      autorewrite with trace. rewrite Hv1, Hv2, Hp. cbn.
      rewrite ?app_nil_r. repeat split.
      exists p, res. rewrite Ha, Hv3, Hv5. cbn. rewrite ?app_nil_r.
      repeat split; assumption. }
  destruct Hrv as [Hpv Hav].
  unfold bind at 1.
  pose proof (load_loop_spec env files n 0 [] w1) as Hl.
  destruct (load_loop env n 0 files [] w1) as [[rl tl] w2].
  destruct Hl as [Hl Hrl]; [lia | lia |].
  apply loading_event_projections in Hl.
  destruct Hl as (Hl1 & Hl2 & Hl3 & Hl4 & Hl5).
  destruct rl as [loaded|e].
  2:{ destruct Hrl as (k & Hk & Hp & Ha).
      intros Ht; cbn [fst] in Ht; subst t.
      exists (fails_loading k e). cbn [progress_before outcome_of calls_before].
      autorewrite with trace. rewrite Hv1, Hv2, Hl1, Hl2, Hpv, Hp. cbn.
      rewrite ?app_nil_r, ?fmap_app, <- ?app_assoc. repeat split; try assumption.
      - rewrite Hav, Hl3, app_nil_r. reflexivity.
      - rewrite Hv3, Ha. reflexivity.
      - rewrite Hv5, Hl4. reflexivity. }
  destruct Hrl as (Hpl & Hloaded & Hal & Hlen). cbn in Hloaded. subst loaded.
  unfold bind, emit, extern, ret.
  destruct (excel_process_files env (loaded_tables tl) string_values w2)
    as [[d|e] w3] eqn:Hmerge.
  2:{ intros Ht; cbn [fst] in Ht; subst t.
      exists (fails_merging e). cbn [progress_before outcome_of calls_before].
      autorewrite with trace. rewrite Hv1, Hv2, Hl1, Hl2, Hpv, Hpl. cbn.
      rewrite ?app_nil_r, ?fmap_app, <- ?app_assoc. repeat split.
      - rewrite Hav, Hl3, app_nil_r. reflexivity.
      - rewrite Hv3, Hal. reflexivity.
      - rewrite Hv5, Hl4. reflexivity. }
  destruct (save_excel_file env d out w3) as [[u'|e] w4].
  2:{ intros Ht; cbn [fst] in Ht; subst t.
      exists (fails_saving e). cbn [progress_before outcome_of calls_before].
      autorewrite with trace. rewrite Hv1, Hv2, Hl1, Hl2, Hpv, Hpl. cbn.
      rewrite ?app_nil_r, ?fmap_app, <- ?app_assoc. repeat split.
      - rewrite Hav, Hl3, app_nil_r. reflexivity.
      - rewrite Hv3, Hal. reflexivity.
      - rewrite Hv6, Hl5. reflexivity. }
  intros Ht; cbn [fst] in Ht; subst t.
  exists (completes (success_message env n out)).
  cbn [progress_before outcome_of calls_before]. unfold expected_progress.
  autorewrite with trace. rewrite Hv1, Hv2, Hl1, Hl2, Hpv, Hpl. cbn.
  rewrite ?app_nil_r, ?fmap_app, <- ?app_assoc. repeat split.
  - rewrite Hav, Hl3, app_nil_r. reflexivity.
  - rewrite Hv3, Hal. reflexivity.
  - rewrite Hv4. cbn. exact Hlen.
  - exists d, w2, w3. rewrite Hv4, Hv5, Hv6, Hl4, Hl5. cbn. repeat split.
    + exact Hmerge.
    + eexists (_ :: _ :: tv ++ tl), u'. unfold merging_and_saving.
      cbn. rewrite <- ?app_assoc. reflexivity.
Qed.

End RunFacts.

(** ** The expected progress values are ordered and bounded *)

Section ProgressFacts.

Lemma fmap_seqZ_sorted (f : Z -> Z) (len : nat) (i : Z) :
  (forall a b, i <= a -> a <= b -> b < i + Z.of_nat len -> f a <= f b) ->
  StronglySorted Z.le (f <$> seqZ i (Z.of_nat len)).
Proof.
  revert i. induction len as [|len IH]; intros i Hf.
  - constructor.
  - rewrite seqZ_cons by lia. cbn [fmap list_fmap].
    replace (Z.pred (Z.of_nat (S len))) with (Z.of_nat len) by lia.
    apply StronglySorted_cons. split.
    + apply Forall_fmap, Forall_seqZ. intros a Ha. cbn. apply Hf; lia.
    + apply IH. intros a b Ha Hab Hb. apply Hf; lia.
Qed.

Lemma fmap_seqZ_bounded (f : Z -> Z) (lo hi i len : Z) :
  (forall a, i <= a < i + len -> lo <= f a <= hi) ->
  Forall (fun p => lo <= p <= hi) (f <$> seqZ i len).
Proof. intros Hf. apply Forall_fmap, Forall_seqZ. intros a Ha. cbn. auto. Qed.

Lemma validating_values_bounded (n : Z) (k : nat) :
  Z.of_nat k <= n ->
  Forall (fun p => 0 <= p <= 20) (validating_values n 0 (Z.of_nat k)).
Proof.
  intros Hk. apply fmap_seqZ_bounded. intros a Ha. split.
  - apply scaled_nonneg; lia.
  - pose proof (scaled_mono (a + 1) n n 20).
    pose proof (scaled_full_20 n). lia.
Qed.

Lemma loading_values_bounded (n : Z) (k : nat) :
  Z.of_nat k <= n ->
  Forall (fun p => 20 <= p <= 60) (loading_values n 0 (Z.of_nat k)).
Proof.
  intros Hk. apply fmap_seqZ_bounded. intros a Ha.
  assert (0 <= scaled (a + 1) n 40 <= 40); [|lia]. split.
  - apply scaled_nonneg; lia.
  - pose proof (scaled_mono (a + 1) n n 40).
    pose proof (scaled_full_40 n). lia.
Qed.

Lemma validating_values_sorted (n : Z) (k : nat) :
  Z.of_nat k <= n -> StronglySorted Z.le (validating_values n 0 (Z.of_nat k)).
Proof.
  intros Hk. apply fmap_seqZ_sorted. intros a b Ha Hab Hb.
  apply scaled_mono; lia.
Qed.

Lemma loading_values_sorted (n : Z) (k : nat) :
  Z.of_nat k <= n -> StronglySorted Z.le (loading_values n 0 (Z.of_nat k)).
Proof.
  intros Hk. apply fmap_seqZ_sorted. intros a b Ha Hab Hb.
  apply Z.add_le_mono_l, scaled_mono; lia.
Qed.

Lemma expected_progress_sorted (n : nat) :
  StronglySorted Z.le (expected_progress (Z.of_nat n)).
Proof.
  unfold expected_progress.
  pose proof (validating_values_bounded (Z.of_nat n) n (Z.le_refl _)) as Hv.
  pose proof (loading_values_bounded (Z.of_nat n) n (Z.le_refl _)) as Hl.
  rewrite Forall_forall in Hv, Hl.
  apply StronglySorted_app. split; [|split].
  - intros x1 x2 H1 H2. apply Hv in H1. apply elem_of_app in H2 as [H2|H2].
    + apply Hl in H2. lia.
    + set_unfold in H2. lia.
  - apply validating_values_sorted. lia.
  - apply StronglySorted_app. split; [|split].
    + intros x1 x2 H1 H2. apply Hl in H1. set_unfold in H2. lia.
    + apply loading_values_sorted. lia.
    + repeat constructor; lia.
Qed.

Lemma expected_progress_bounded (n : nat) :
  Forall (fun p => 0 <= p <= 100) (expected_progress (Z.of_nat n)).
Proof.
  unfold expected_progress.
  pose proof (validating_values_bounded (Z.of_nat n) n (Z.le_refl _)) as Hv.
  pose proof (loading_values_bounded (Z.of_nat n) n (Z.le_refl _)) as Hl.
  rewrite !Forall_app. repeat split.
  - eapply Forall_impl; [exact Hv|]. cbn. intros; lia.
  - eapply Forall_impl; [exact Hl|]. cbn. intros; lia.
  - repeat constructor; lia.
Qed.

Lemma validating_values_prefix (n : Z) (k : nat) :
  Z.of_nat k <= n ->
  validating_values n 0 (Z.of_nat k) `prefix_of` validating_values n 0 n.
Proof.
  intros Hk. unfold validating_values.
  assert (E : seqZ 0 n = seqZ 0 (Z.of_nat k)
                         ++ seqZ (0 + Z.of_nat k) (n - Z.of_nat k)).
  { rewrite <- seqZ_app by lia. f_equal. lia. }
  rewrite E, fmap_app. apply prefix_app_r. reflexivity.
Qed.

Lemma loading_values_prefix (n : Z) (k : nat) :
  Z.of_nat k <= n ->
  loading_values n 0 (Z.of_nat k) `prefix_of` loading_values n 0 n.
Proof.
  intros Hk. unfold loading_values.
  assert (E : seqZ 0 n = seqZ 0 (Z.of_nat k)
                         ++ seqZ (0 + Z.of_nat k) (n - Z.of_nat k)).
  { rewrite <- seqZ_app by lia. f_equal. lia. }
  rewrite E, fmap_app. apply prefix_app_r. reflexivity.
Qed.

Lemma length_validating_values (n : Z) (k : nat) :
  length (validating_values n 0 (Z.of_nat k)) = k.
Proof. unfold validating_values. rewrite length_fmap, length_seqZ. lia. Qed.

Lemma length_loading_values (n : Z) (k : nat) :
  length (loading_values n 0 (Z.of_nat k)) = k.
Proof. unfold loading_values. rewrite length_fmap, length_seqZ. lia. Qed.

End ProgressFacts.

(** ** What every run emits *)

Section RunProgress.
Context {World Data : Type} (env : Env World Data).
Import ProcessingThread.

Lemma outcome_of_terminal (x : ending) : is_terminal (outcome_of x) = true.
Proof. destruct x; reflexivity. Qed.

Lemma outcome_of_complete (x : ending) (message : string) :
  outcome_of x = processing_complete message -> x = completes message.
Proof. destruct x; cbn; congruence. Qed.

Lemma filter_terminal_progress (ps : list Z) :
  filter (fun s => is_terminal s = true) (progress_updated <$> ps) = [].
Proof.
  induction ps as [|p ps IH]; [reflexivity|].
  cbn [fmap list_fmap]. rewrite filter_cons_False; [exact IH | cbn; congruence].
Qed.

Lemma progress_before_prefix (files : list string)
    (string_values : gmap string string) (out : string)
    (t : list (event Data)) (x : ending) :
  calls_before env files string_values out t x ->
  progress_before (Z.of_nat (length files)) x
    `prefix_of` expected_progress (Z.of_nat (length files)).
Proof.
  intros Hc. unfold expected_progress.
  destruct x as [e|k e|k e|e|e|m]; cbn in *.
  - apply prefix_nil.
  - destruct Hc as (p & res & Hk & _). apply lookup_lt_Some in Hk.
    apply prefix_app_r, validating_values_prefix. lia.
  - destruct Hc as (Hk & _). apply prefix_app, prefix_app_r.
    apply loading_values_prefix. lia.
  - do 2 apply prefix_app. exists [85; 100]. reflexivity.
  - do 2 apply prefix_app. exists [100]. reflexivity.
  - reflexivity.
Qed.

(** The signals of a run: progress values, a prefix of the expected ones,
    then one terminal signal. *)
Lemma run_signals (files : list string) (string_values : gmap string string)
    (out : string) (w : World) :
  let n := Z.of_nat (length files) in
  let t := fst (run env files string_values out w) in
  progress_values t `prefix_of` expected_progress n
  /\ (succeeded t -> progress_values t = expected_progress n)
  /\ exists o, signals t = (progress_updated <$> progress_values t) ++ [o]
               /\ is_terminal o = true.
Proof.
  intros n t.
  destruct (run_shape env files string_values out w)
    as (x & Hs & Hp & _ & Hc). fold t n in Hs, Hp, Hc.
  split; [|split].
  - rewrite Hp. eapply progress_before_prefix, Hc.
  - intros [message Hm]. rewrite Hs, last_snoc in Hm.
    injection Hm as Hm. apply outcome_of_complete in Hm. subst x.
    rewrite Hp. reflexivity.
  - exists (outcome_of x). rewrite Hp. split; [exact Hs|].
    apply outcome_of_terminal.
Qed.

(** A run that succeeds ends with the Merging and Saving phases. *)
Lemma run_success_tail (files : list string)
    (string_values : gmap string string) (out : string) (w : World) :
  let t := fst (run env files string_values out w) in
  succeeded t ->
  exists t0 d u message,
    t = t0 ++ merging_and_saving (loaded_tables t) string_values d out u message.
Proof.
  intros t [message Hm].
  destruct (run_shape env files string_values out w)
    as (x & Hs & _ & _ & Hc). fold t in Hs, Hc.
  rewrite Hs, last_snoc in Hm. injection Hm as Hm.
  apply outcome_of_complete in Hm. subst x. cbn [calls_before] in Hc.
  destruct Hc as (_ & _ & _ & _ & d & _ & _ & _ & _ & _ & t0 & u & Ht).
  exists t0, d, u, message. exact Ht.
Qed.

Lemma last_expected_progress (n : Z) : last (expected_progress n) = Some 100.
Proof. unfold expected_progress. rewrite !last_app. reflexivity. Qed.

Lemma lookup_validating_values (n : Z) (k : nat) :
  Z.of_nat k < n ->
  validating_values n 0 n !! k = Some (scaled (Z.of_nat k + 1) n 20).
Proof.
  intros Hk. unfold validating_values.
  rewrite list_lookup_fmap, lookup_seqZ_lt by lia. reflexivity.
Qed.

Lemma lookup_loading_values (n : Z) (k : nat) :
  Z.of_nat k < n ->
  loading_values n 0 n !! k = Some (20 + scaled (Z.of_nat k + 1) n 40).
Proof.
  intros Hk. unfold loading_values.
  rewrite list_lookup_fmap, lookup_seqZ_lt by lia. reflexivity.
Qed.

End RunProgress.

(** ** The course of every run *)

Section CourseFacts.
Context {World Data : Type} (env : Env World Data).
Import ProcessingThread.

Lemma validate_loop_trace (files : list string) (n i : Z) (w : World) :
  n = i + Z.of_nat (length files) -> 0 <= i ->
  let '(r, t, _) := validate_loop env n i files w in
  match r with
  | Ok _ => t = validating_trace n i files
  | Raise e =>
      exists (k : nat) p res,
        files !! k = Some p /\ res ≠ Ok true /\ e = access_failure p res
        /\ t = validating_trace n i (take k files)
                 ++ [Call (validate_file_accessibility_call p res)]
  end.
Proof.
  revert n i w. induction files as [|f rest IH]; intros n i w Hn Hi.
  - reflexivity.
  - assert (Hn0 : n ≠ 0) by (cbn [length] in Hn; lia).
    rewrite validate_loop_cons by exact Hn0.
    destruct (validate_file_accessibility env f w) as [[[|]|e] w1].
    + specialize (IH n (i + 1) w1).
      destruct (validate_loop env n (i + 1) rest w1) as [[r t] w2].
      destruct r as [u|e].
      * cbn. rewrite IH by (cbn [length] in Hn; lia). reflexivity.
      * destruct IH as (k & p & res & Hk & Hres & He & Ht);
          [cbn [length] in Hn; lia | lia |].
        exists (S k), p, res. repeat split; try assumption.
        rewrite Ht. reflexivity.
    + exists 0%nat, f, (Ok false). repeat split; congruence.
    + exists 0%nat, f, (Raise e). repeat split; congruence.
Qed.

Lemma load_loop_trace (files : list string) (n i : Z) (loaded : list Data)
    (w : World) :
  n = i + Z.of_nat (length files) -> 0 <= i ->
  let '(r, t, _) := load_loop env n i files loaded w in
  match r with
  | Ok loaded' =>
      exists ds, length ds = length files /\ loaded' = loaded ++ ds
                 /\ t = loading_trace n i (zip files ds)
  | Raise e =>
      exists ds p,
        files !! length ds = Some p
        /\ t = loading_trace n i (zip files ds)
                 ++ [Call (load_excel_file_call p (Raise e))]
  end.
Proof.
  revert n i loaded w. induction files as [|f rest IH]; intros n i loaded w Hn Hi.
  - exists []. rewrite app_nil_r. repeat split.
  - assert (Hn0 : n ≠ 0) by (cbn [length] in Hn; lia).
    rewrite load_loop_cons by exact Hn0.
    destruct (load_excel_file env f w) as [[d|e] w1].
    + specialize (IH n (i + 1) (loaded ++ [d]) w1).
      destruct (load_loop env n (i + 1) rest (loaded ++ [d]) w1) as [[r t] w2].
      destruct r as [loaded'|e].
      * destruct IH as (ds & Hlen & Hl & Ht); [cbn [length] in Hn; lia | lia |].
        exists (d :: ds). cbn. rewrite Hlen, Hl, Ht, <- app_assoc.
        repeat split.
      * destruct IH as (ds & p & Hp & Ht); [cbn [length] in Hn; lia | lia |].
        exists (d :: ds), p. cbn. rewrite Ht. split; [exact Hp | reflexivity].
    + exists [], f. split; reflexivity.
Qed.

(** Every run takes one of the possible courses, and its trace is the trace
    of that course. *)
Lemma run_course (files : list string) (string_values : gmap string string)
    (out : string) (w : World) :
  exists c : course,
    possible files c
    /\ fst (run env files string_values out w)
       = trace_of files string_values out c
    /\ match c with
       | all_done _ _ message =>
           message = success_message env (Z.of_nat (length files)) out
       | _ => True
       end.
Proof.
  unfold run, run_try. set (n := Z.of_nat (length files)).
  unfold bind at 1. unfold extern at 1.
  destruct (new_FileHandler env w) as [[[]|e] w0].
  2:{ exists (FileHandler_raises e). repeat split. }
  unfold bind at 1. unfold extern at 1.
  destruct (new_ExcelProcessor env w0) as [[[]|e] w0'].
  2:{ exists (ExcelProcessor_raises e). repeat split. }
  unfold bind at 1.
  pose proof (validate_loop_trace files n 0 w0') as Hv.
  destruct (validate_loop env n 0 files w0') as [[rv tv] w1].
  specialize (Hv ltac:(lia) ltac:(lia)).
  destruct rv as [u|e].
  2:{ destruct Hv as (k & p & res & Hk & Hres & He & Ht).
      exists (check_fails k p res). subst tv e. cbn [fst].
      split; [split; assumption|]. split; [|exact I].
      unfold trace_of, constructed. fold n. cbn. rewrite <- ?app_assoc.
      reflexivity. }
  subst tv. unfold bind at 1.
  pose proof (load_loop_trace files n 0 [] w1) as Hl.
  destruct (load_loop env n 0 files [] w1) as [[rl tl] w2].
  specialize (Hl ltac:(lia) ltac:(lia)).
  destruct rl as [loaded|e].
  2:{ destruct Hl as (ds & p & Hp & Ht).
      exists (load_raises ds p e). subst tl. cbn [fst].
      split; [exact Hp|]. split; [|exact I].
      unfold trace_of, constructed. fold n. cbn. rewrite <- ?app_assoc.
      reflexivity. }
  destruct Hl as (ds & Hlen & Hloaded & Ht). cbn in Hloaded. subst loaded tl.
  unfold bind, emit, extern, ret.
  destruct (excel_process_files env ds string_values w2) as [[d|e] w3].
  2:{ exists (merge_raises ds e). cbn [fst].
      split; [exact Hlen|]. split; [|exact I].
      unfold trace_of, constructed. fold n. cbn. rewrite <- ?app_assoc.
      reflexivity. }
  destruct (save_excel_file env d out w3) as [[[]|e] w4].
  2:{ exists (save_raises ds d e). cbn [fst].
      split; [exact Hlen|]. split; [|exact I].
      unfold trace_of, constructed. fold n. cbn. rewrite <- ?app_assoc.
      reflexivity. }
  exists (all_done ds d (success_message env n out)). cbn [fst].
  split; [exact Hlen|]. split; [|reflexivity].
  unfold trace_of, constructed. fold n. cbn. rewrite <- ?app_assoc.
  reflexivity.
Qed.

End CourseFacts.

(** ** Projections of the trace of a course *)

Section CourseProjections.
Context {Data : Type}.
Implicit Types t : list (event Data).

Lemma load_results_app t1 t2 :
  load_results (t1 ++ t2) = load_results t1 ++ load_results t2.
Proof. unfold load_results. rewrite calls_app. apply omap_app. Qed.

Lemma merge_calls_app t1 t2 :
  merge_calls (t1 ++ t2) = merge_calls t1 ++ merge_calls t2.
Proof. unfold merge_calls. rewrite calls_app. apply omap_app. Qed.

Lemma save_calls_app t1 t2 :
  save_calls (t1 ++ t2) = save_calls t1 ++ save_calls t2.
Proof. unfold save_calls. rewrite calls_app. apply omap_app. Qed.

Lemma outcomes_app t1 t2 : outcomes (t1 ++ t2) = outcomes t1 ++ outcomes t2.
Proof. unfold outcomes. rewrite signals_app. apply filter_app. Qed.

Lemma validating_trace_events (n i : Z) (files : list string) :
  Forall validating_event (validating_trace (Data:=Data) n i files).
Proof.
  revert i. induction files as [|f rest IH]; intros i; cbn;
    repeat constructor. apply IH.
Qed.

Lemma loading_trace_events (n i : Z) (loads : list (string * Data)) :
  Forall loading_event (loading_trace n i loads).
Proof.
  revert i. induction loads as [|[p d] rest IH]; intros i; cbn;
    repeat constructor. apply IH.
Qed.

Lemma progress_validating_trace (n i : Z) (files : list string) :
  progress_values (validating_trace (Data:=Data) n i files)
  = validating_values n i (Z.of_nat (length files)).
Proof.
  revert i. induction files as [|f rest IH]; intros i; [reflexivity|].
  cbn [length]. rewrite validating_values_cons, <- IH. reflexivity.
Qed.

Lemma progress_loading_trace (n i : Z) (loads : list (string * Data)) :
  progress_values (loading_trace n i loads)
  = loading_values n i (Z.of_nat (length loads)).
Proof.
  revert i. induction loads as [|[p d] rest IH]; intros i; [reflexivity|].
  cbn [length]. rewrite loading_values_cons, <- IH. reflexivity.
Qed.

(** What the first loop contributes to each projection. *)
Lemma validating_trace_calls (n i : Z) (files : list string) :
  let t := validating_trace (Data:=Data) n i files in
  accessibility_results t = passing files
  /\ load_results t = [] /\ merge_calls t = [] /\ save_calls t = []
  /\ outcomes t = []
  /\ forallb call_ok (calls t) = true
  /\ phase_of <$> calls t = replicate (length files) 1%nat.
Proof.
  intros t.
  assert (Ho : outcomes t = []).
  { unfold outcomes.
    destruct (validating_event_projections t (validating_trace_events n i files))
      as (Hs & _). rewrite Hs. apply filter_terminal_progress. }
  subst t. revert i Ho. induction files as [|f rest IH]; intros i Ho;
    [repeat split|].
  destruct (IH (i + 1)) as (H1 & H2 & H3 & H4 & _ & H6 & H7).
  { unfold outcomes.
    destruct (validating_event_projections _
                (validating_trace_events n (i + 1) rest))
      as (Hs & _). rewrite Hs. apply filter_terminal_progress. }
  cbn. unfold accessibility_results, load_results, merge_calls, save_calls,
    calls in *. cbn.
  rewrite H1, H2, H3, H4, H6, H7. repeat split. exact Ho.
Qed.

(** What the second loop contributes to each projection. *)
Lemma loading_trace_calls (n i : Z) (loads : list (string * Data)) :
  let t := loading_trace n i loads in
  accessibility_results t = []
  /\ load_results t = loaded_ok loads
  /\ load_attempts t = fst <$> loads
  /\ loaded_tables t = snd <$> loads
  /\ merge_calls t = [] /\ save_calls t = []
  /\ outcomes t = []
  /\ forallb call_ok (calls t) = true
  /\ phase_of <$> calls t = replicate (length loads) 2%nat.
Proof.
  intros t.
  assert (Ho : outcomes t = []).
  { unfold outcomes.
    destruct (loading_event_projections t (loading_trace_events n i loads))
      as (Hs & _). rewrite Hs. apply filter_terminal_progress. }
  subst t. revert i Ho. induction loads as [|[p d] rest IH]; intros i Ho;
    [repeat split|].
  destruct (IH (i + 1)) as (H1 & H2 & H3 & H4 & H5 & H6 & _ & H8 & H9).
  { unfold outcomes.
    destruct (loading_event_projections _ (loading_trace_events n (i + 1) rest))
      as (Hs & _). rewrite Hs. apply filter_terminal_progress. }
  cbn. unfold accessibility_results, load_results, load_attempts,
    loaded_tables, merge_calls, save_calls, calls in *. cbn.
  rewrite H1, H2, H3, H4, H5, H6, H8, H9. repeat split. exact Ho.
Qed.

Lemma zip_take_length {A B : Type} (l : list A) (k : list B) :
  zip l k = zip (take (length k) l) k.
Proof.
  revert k. induction l as [|a l IH]; intros [|b k]; cbn; try reflexivity.
  f_equal. apply IH.
Qed.

Lemma fst_zip_take {A B : Type} (l : list A) (k : list B) :
  (length k <= length l)%nat -> fst <$> zip l k = take (length k) l.
Proof.
  intros H. rewrite zip_take_length. apply fst_zip.
  rewrite length_take. lia.
Qed.

Lemma snd_zip_le {A B : Type} (l : list A) (k : list B) :
  (length k <= length l)%nat -> snd <$> zip l k = k.
Proof. intros H. apply snd_zip. exact H. Qed.

Lemma length_zip_le {A B : Type} (l : list A) (k : list B) :
  (length k <= length l)%nat -> length (zip l k) = length k.
Proof. intros H. rewrite length_zip_with. lia. Qed.

End CourseProjections.

#[local] Hint Rewrite @load_results_app @merge_calls_app @save_calls_app
  @outcomes_app : trace.

Section CourseTraces.
Context {Data : Type}.

Ltac course_projection :=
  unfold trace_of, constructed, error_signal; autorewrite with trace;
  repeat match goal with
  | |- context [validating_trace ?n ?i ?fs] =>
      let H := fresh in let G := fresh in
      pose proof (validating_trace_calls (Data:=Data) n i fs) as H;
      cbv zeta in H;
      pose proof (validating_event_projections _
                    (validating_trace_events (Data:=Data) n i fs)) as G;
      let H1 := fresh in let H2 := fresh in let H3 := fresh in
      let H4 := fresh in let H5 := fresh in let H6 := fresh in
      let H7 := fresh in
      let G1 := fresh in let G2 := fresh in let G3 := fresh in
      let G4 := fresh in let G5 := fresh in let G6 := fresh in
      destruct H as (H1 & H2 & H3 & H4 & H5 & H6 & H7);
      destruct G as (G1 & G2 & G3 & G4 & G5 & G6);
      progress (rewrite ?H1, ?H2, ?H3, ?H4, ?H5, ?H6, ?H7, ?G2, ?G3, ?G4,
                  ?G5, ?G6, ?(progress_validating_trace (Data:=Data) n i fs));
      clear H1 H2 H3 H4 H5 H6 H7 G1 G2 G3 G4 G5 G6
  | |- context [loading_trace ?n ?i ?ls] =>
      let H := fresh in let G := fresh in
      pose proof (loading_trace_calls n i ls) as H; cbv zeta in H;
      pose proof (loading_event_projections _
                    (loading_trace_events n i ls)) as G;
      let H1 := fresh in let H2 := fresh in let H3 := fresh in
      let H4 := fresh in let H5 := fresh in let H6 := fresh in
      let H7 := fresh in let H8 := fresh in let H9 := fresh in
      let G1 := fresh in let G2 := fresh in let G3 := fresh in
      let G4 := fresh in let G5 := fresh in
      destruct H as (H1 & H2 & H3 & H4 & H5 & H6 & H7 & H8 & H9);
      destruct G as (G1 & G2 & G3 & G4 & G5);
      progress (rewrite ?H1, ?H2, ?H3, ?H4, ?H5, ?H6, ?H7, ?H8, ?H9, ?G2,
                  ?G4, ?G5, ?(progress_loading_trace n i ls));
      clear H1 H2 H3 H4 H5 H6 H7 H8 H9 G1 G2 G3 G4 G5
  end.

Lemma accessibility_results_trace_of (files : list string)
    (sv : gmap string string) (out : string) (c : course (Data:=Data)) :
  accessibility_results (trace_of files sv out c)
  = match c with
    | FileHandler_raises _ | ExcelProcessor_raises _ => []
    | check_fails k p res => passing (take k files) ++ [(p, res)]
    | _ => passing files
    end.
Proof.
  destruct c; course_projection; cbn; rewrite ?app_nil_r; reflexivity.
Qed.


Lemma merge_calls_trace_of (files : list string)
    (sv : gmap string string) (out : string) (c : course (Data:=Data)) :
  merge_calls (trace_of files sv out c)
  = match c with
    | merge_raises ds e => [(ds, sv, Raise e)]
    | save_raises ds d _ | all_done ds d _ => [(ds, sv, Ok d)]
    | _ => []
    end.
Proof.
  destruct c; course_projection; cbn; rewrite ?app_nil_r; reflexivity.
Qed.

Lemma save_calls_trace_of (files : list string)
    (sv : gmap string string) (out : string) (c : course (Data:=Data)) :
  save_calls (trace_of files sv out c)
  = match c with
    | save_raises _ d e => [(d, out, Raise e)]
    | all_done _ d _ => [(d, out, Ok tt)]
    | _ => []
    end.
Proof.
  destruct c; course_projection; cbn; rewrite ?app_nil_r; reflexivity.
Qed.

Lemma outcomes_trace_of (files : list string)
    (sv : gmap string string) (out : string) (c : course (Data:=Data)) :
  outcomes (trace_of files sv out c)
  = match c with
    | FileHandler_raises e | ExcelProcessor_raises e | load_raises _ _ e
    | merge_raises _ e | save_raises _ _ e =>
        [processing_error ("Error during processing: " +:+ e)]
    | check_fails _ p res =>
        [processing_error
           ("Error during processing: " +:+ access_failure p res)]
    | all_done _ _ message => [processing_complete message]
    end.
Proof.
  destruct c; course_projection; cbn; rewrite ?app_nil_r; reflexivity.
Qed.

Lemma progress_values_trace_of (files : list string)
    (sv : gmap string string) (out : string) (c : course (Data:=Data)) :
  let n := Z.of_nat (length files) in
  progress_values (trace_of files sv out c)
  = match c with
    | FileHandler_raises _ | ExcelProcessor_raises _ => []
    | check_fails k _ _ =>
        validating_values n 0 (Z.of_nat (length (take k files)))
    | load_raises ds _ _ =>
        validating_values n 0 n
          ++ loading_values n 0 (Z.of_nat (length (zip files ds)))
    | merge_raises ds _ =>
        validating_values n 0 n
          ++ loading_values n 0 (Z.of_nat (length (zip files ds))) ++ [70]
    | save_raises ds _ _ =>
        validating_values n 0 n
          ++ loading_values n 0 (Z.of_nat (length (zip files ds))) ++ [70; 85]
    | all_done ds _ _ =>
        validating_values n 0 n
          ++ loading_values n 0 (Z.of_nat (length (zip files ds)))
          ++ [70; 85; 100]
    end.
Proof.
  intros n. subst n.
  destruct c; course_projection; cbn; rewrite ?app_nil_r; reflexivity.
Qed.

Lemma load_attempts_trace_of (files : list string)
    (sv : gmap string string) (out : string) (c : course (Data:=Data)) :
  load_attempts (trace_of files sv out c)
  = match c with
    | FileHandler_raises _ | ExcelProcessor_raises _ | check_fails _ _ _ => []
    | load_raises ds p e => (fst <$> zip files ds) ++ [p]
    | merge_raises ds _ | save_raises ds _ _ | all_done ds _ _ =>
        fst <$> zip files ds
    end.
Proof.
  destruct c; course_projection; cbn; rewrite ?app_nil_r; reflexivity.
Qed.

Lemma loaded_tables_trace_of (files : list string)
    (sv : gmap string string) (out : string) (c : course (Data:=Data)) :
  loaded_tables (trace_of files sv out c)
  = match c with
    | FileHandler_raises _ | ExcelProcessor_raises _ | check_fails _ _ _ => []
    | load_raises ds _ _ | merge_raises ds _ | save_raises ds _ _
    | all_done ds _ _ => snd <$> zip files ds
    end.
Proof.
  destruct c; course_projection; cbn; rewrite ?app_nil_r; reflexivity.
Qed.

Lemma all_calls_ok_trace_of (files : list string)
    (sv : gmap string string) (out : string) (c : course (Data:=Data)) :
  possible files c ->
  forallb call_ok (calls (trace_of files sv out c))
  = match c with all_done _ _ _ => true | _ => false end.
Proof.
  intros Hc. destruct c; unfold trace_of, constructed, error_signal;
    rewrite ?calls_app, ?forallb_app;
    repeat match goal with
    | |- context [validating_trace ?n ?i ?fs] =>
        let H := fresh in
        pose proof (validating_trace_calls (Data:=Data) n i fs) as H;
        cbv zeta in H; destruct H as (_ & _ & _ & _ & _ & H & _);
        rewrite H; clear H
    | |- context [loading_trace ?n ?i ?ls] =>
        let H := fresh in
        pose proof (loading_trace_calls n i ls) as H;
        cbv zeta in H; destruct H as (_ & _ & _ & _ & _ & _ & _ & H & _);
        rewrite H; clear H
    end; cbn; try reflexivity.
  destruct Hc as [_ Hres]. destruct res as [[|]|e]; [contradiction| |];
    reflexivity.
Qed.

Lemma phases_trace_of (files : list string)
    (sv : gmap string string) (out : string) (c : course (Data:=Data)) :
  exists a b l,
    phase_of <$> calls (trace_of files sv out c)
    = replicate a 0%nat ++ replicate b 1%nat ++ replicate l 2%nat
        ++ match c with
           | merge_raises _ _ => [3%nat]
           | save_raises _ _ _ | all_done _ _ _ => [3%nat; 4%nat]
           | _ => []
           end.
Proof.
  destruct c; unfold trace_of, constructed, error_signal;
    rewrite ?calls_app, ?fmap_app;
    repeat match goal with
    | |- context [validating_trace ?n ?i ?fs] =>
        let H := fresh in
        pose proof (validating_trace_calls (Data:=Data) n i fs) as H;
        cbv zeta in H; destruct H as (_ & _ & _ & _ & _ & _ & H);
        rewrite H; clear H
    | |- context [loading_trace ?n ?i ?ls] =>
        let H := fresh in
        pose proof (loading_trace_calls n i ls) as H;
        cbv zeta in H; destruct H as (_ & _ & _ & _ & _ & _ & _ & _ & H);
        rewrite H; clear H
    end; cbn.
  - exists 1%nat, 0%nat, 0%nat. reflexivity.
  - exists 2%nat, 0%nat, 0%nat. reflexivity.
  - exists 2%nat, (S (length (take k files))), 0%nat. cbn.
    rewrite app_nil_r. do 2 f_equal.
    change [1%nat] with (replicate 1 1%nat). rewrite <- replicate_add.
    rewrite Nat.add_1_r. reflexivity.
  - exists 2%nat, (length files), (S (length (zip files ds))). cbn.
    rewrite app_nil_r. do 3 f_equal.
    change [2%nat] with (replicate 1 2%nat). rewrite <- replicate_add.
    rewrite Nat.add_1_r. reflexivity.
  - exists 2%nat, (length files), (length (zip files ds)). reflexivity.
  - exists 2%nat, (length files), (length (zip files ds)). reflexivity.
  - exists 2%nat, (length files), (length (zip files ds)). reflexivity.
Qed.

Lemma calls_trace_of (files : list string)
    (sv : gmap string string) (out : string) (c : course (Data:=Data)) :
  exists good,
    Forall (fun x => call_ok x = true) good
    /\ calls (trace_of files sv out c) = good ++ failing_call sv out c.
Proof.
  assert (Hall : forall l : list (call Data),
            forallb call_ok l = true -> Forall (fun x => call_ok x = true) l).
  { intros l H. apply Forall_forall. intros x Hx.
    rewrite forallb_forall in H. apply H, list_elem_of_In, Hx. }
  pose proof (fun n i fs =>
    Hall _ (proj1 (proj2 (proj2 (proj2 (proj2 (proj2
      (validating_trace_calls (Data:=Data) n i fs)))))))) as Hv.
  pose proof (fun n i ls =>
    Hall _ (proj1 (proj2 (proj2 (proj2 (proj2 (proj2 (proj2 (proj2
      (loading_trace_calls (Data:=Data) n i ls)))))))))) as Hl.
  cbv zeta in Hv, Hl.
  set (n := Z.of_nat (length files)).
  assert (Hk : Forall (fun x : call Data => call_ok x = true)
                 (calls (constructed (Data:=Data))))
    by (repeat constructor).
  destruct c; unfold trace_of, failing_call; fold n; rewrite ?calls_app.
  - exists []. split; [constructor | reflexivity].
  - exists [FileHandler_call (Ok tt)]. split; [|reflexivity].
    repeat constructor.
  - exists (calls (constructed (Data:=Data))
              ++ calls (validating_trace (Data:=Data) n 0 (take k files))).
    split; [|rewrite <- app_assoc; reflexivity].
    apply Forall_app; split; [exact Hk | apply Hv].
  - exists (calls (constructed (Data:=Data))
              ++ calls (validating_trace (Data:=Data) n 0 files)
              ++ calls (loading_trace n 0 (zip files ds))).
    split; [|rewrite <- !app_assoc; reflexivity].
    rewrite !Forall_app. repeat split; [exact Hk | apply Hv | apply Hl].
  - exists (calls (constructed (Data:=Data))
              ++ calls (validating_trace (Data:=Data) n 0 files)
              ++ calls (loading_trace n 0 (zip files ds))).
    split; [|rewrite <- !app_assoc; reflexivity].
    rewrite !Forall_app. repeat split; [exact Hk | apply Hv | apply Hl].
  - exists (calls (constructed (Data:=Data))
              ++ calls (validating_trace (Data:=Data) n 0 files)
              ++ calls (loading_trace n 0 (zip files ds))
              ++ [process_files_call ds sv (Ok d)]).
    split; [|rewrite <- !app_assoc; reflexivity].
    rewrite !Forall_app. repeat split;
      [exact Hk | apply Hv | apply Hl | repeat constructor].
  - exists (calls (constructed (Data:=Data))
              ++ calls (validating_trace (Data:=Data) n 0 files)
              ++ calls (loading_trace n 0 (zip files ds))
              ++ [process_files_call ds sv (Ok d);
                  save_excel_file_call d out (Ok tt)]).
    split; [|rewrite app_nil_r; reflexivity].
    rewrite !Forall_app. repeat split;
      [exact Hk | apply Hv | apply Hl | repeat constructor].
Qed.

End CourseTraces.

(** ** The answers of the accessibility checks *)

Section AnswerFacts.
Context {World Data : Type} (env : Env World Data).
Import ProcessingThread.

Lemma answering_ret {A : Type} (a : A) : answering env (ret a).
Proof. intros w. constructor. Qed.

Lemma answering_raise {A : Type} (msg : string) :
  answering env (raise (A:=A) msg).
Proof. intros w. constructor. Qed.

Lemma answering_emit (s : signal) : answering env (emit s).
Proof. intros w. repeat constructor. Qed.

Lemma answering_extern {A : Type} (mk : result A -> call Data)
    (f : World -> result A * World) :
  (forall w, answered env (Call (mk (fst (f w))))) ->
  answering env (extern mk f).
Proof.
  intros H w. unfold extern. specialize (H w).
  destruct (f w) as [r w']. cbn in *. constructor; [exact H | constructor].
Qed.

Lemma answering_bind {A B : Type} (m : M A) (k : A -> M B) :
  answering env m -> (forall a, answering env (k a)) ->
  answering env (bind m k).
Proof.
  intros Hm Hk w. unfold bind. specialize (Hm w).
  destruct (m w) as [[[a|e] t] w']; cbn in *; [|exact Hm].
  specialize (Hk a w'). destruct (k a w') as [[r t'] w'']. cbn in *.
  apply Forall_app. split; assumption.
Qed.

Lemma answering_phase_progress (i n weight : Z) :
  answering env (phase_progress i n weight).
Proof.
  unfold phase_progress. destruct (Float64.true_div (i + 1) n);
    [apply answering_ret | apply answering_raise].
Qed.

Lemma answering_validate_loop (n i : Z) (files : list string) :
  answering env (validate_loop env n i files).
Proof.
  revert i. induction files as [|f rest IH]; intros i; cbn [validate_loop].
  - apply answering_ret.
  - apply answering_bind.
    + apply answering_extern. intros w. cbn. exists w. reflexivity.
    + intros ok. destruct (negb ok); [apply answering_raise|].
      apply answering_bind; [apply answering_phase_progress|]. intros q.
      apply answering_bind; [apply answering_emit|]. intros _. apply IH.
Qed.

Lemma answering_load_loop (n i : Z) (files : list string)
    (loaded : list Data) :
  answering env (load_loop env n i files loaded).
Proof.
  revert i loaded.
  induction files as [|f rest IH]; intros i loaded; cbn [load_loop].
  - apply answering_ret.
  - apply answering_bind; [apply answering_extern; intros w; exact I|].
    intros d. apply answering_bind; [apply answering_phase_progress|].
    intros q. apply answering_bind; [apply answering_emit|]. intros _.
    apply IH.
Qed.

Lemma answering_run_try (files : list string)
    (string_values : gmap string string) (out : string) :
  answering env (run_try env files string_values out).
Proof.
  unfold run_try.
  repeat first
    [ apply answering_ret
    | apply answering_emit
    | apply answering_validate_loop
    | apply answering_load_loop
    | apply answering_extern; intros w; exact I
    | apply answering_bind; [|intros ?] ].
Qed.

(** Every accessibility check of a run is an answer of
    [validate_file_accessibility]. *)
Lemma run_checks_answered (files : list string)
    (string_values : gmap string string) (out : string) (w : World)
    (p : string) (res : result bool) :
  (p, res) ∈ accessibility_results (fst (run env files string_values out w)) ->
  exists w0, fst (validate_file_accessibility env p w0) = res.
Proof.
  assert (Ht : Forall (answered env) (fst (run env files string_values out w))).
  { unfold run. pose proof (answering_run_try files string_values out w) as H.
    destruct (run_try env files string_values out w) as [[[m|e] t] w'];
      cbn in *; apply Forall_app; split; try exact H; repeat constructor. }
  unfold accessibility_results, calls. intros Hin.
  apply list_elem_of_omap in Hin as (c & Hc & E).
  apply list_elem_of_omap in Hc as (e & He & Ec).
  rewrite Forall_forall in Ht. specialize (Ht e He).
  destruct e as [s|c']; [discriminate Ec|]. injection Ec as ->.
  destruct c; try discriminate E. injection E as -> ->. exact Ht.
Qed.

(** Once both constructors have returned, the run checks every input file,
    or every file up to the first one whose check does not return [True]. *)
Lemma run_checks_every_file (files : list string)
    (string_values : gmap string string) (out : string) (w : World) :
  let t := fst (run env files string_values out w) in
  FileHandler_call (Ok tt) ∈ calls t -> ExcelProcessor_call (Ok tt) ∈ calls t ->
  accessibility_results t = passing files
  \/ exists k p res,
       files !! k = Some p /\ res ≠ Ok true
       /\ accessibility_results t = passing (take k files) ++ [(p, res)].
Proof.
  intros t. destruct (run_course env files string_values out w)
    as (c & Hc & Ht & _). fold t in Ht. rewrite Ht.
  rewrite accessibility_results_trace_of.
  destruct c as [e|e|k p res|ds p e|ds e|ds d e|ds d m]; cbn [possible] in Hc.
  - intros H _. cbn in H. apply list_elem_of_singleton in H. discriminate H.
  - intros _ H. cbn in H. apply elem_of_cons in H as [H|H]; [discriminate H|].
    apply list_elem_of_singleton in H. discriminate H.
  - intros _ _. right. exists k, p, res. destruct Hc. auto.
  - auto.
  - auto.
  - auto.
  - auto.
Qed.

End AnswerFacts.

(** ** Progress and outcome of [ProcessingThread.run] *)

Section RunClaims.
Context {World Data : Type} (env : Env World Data).
Import ProcessingThread.

(** C1, as amended. The progress values of a run over [n] files are, in this
    order: after file [i] of the Validating phase, the integer
    [int((i + 1) / n * 20)], the binary64 quotient and product truncated;
    after file [i] of the Loading phase, [20 + int((i + 1) / n * 40)]; then
    70 before the merge, 85 after it and 100 after saving. A run that fails
    emits a prefix of this list; a run that succeeds emits all of it and
    ends with 70, the merge of the loaded tables, 85, the save of the merged
    table, 100 and the success message. *)
Theorem run_progress_bands (files : list string)
    (string_values : gmap string string) (out : string) (w : World) :
  let n := Z.of_nat (length files) in
  let t := fst (run env files string_values out w) in
  let int_of (k weight : Z) :=
    Float64.py_int
      (Float64.mul_int (Float64.rne (inject_Z k / inject_Z n)) weight) in
  let bands :=
    ((fun i => int_of (i + 1) 20) <$> seqZ 0 n)
    ++ ((fun i => 20 + int_of (i + 1) 40) <$> seqZ 0 n) ++ [70; 85; 100] in
  progress_values t `prefix_of` bands
  /\ (succeeded t ->
      progress_values t = bands
      /\ exists t0 processed_data u message,
           t = t0 ++ [Signal (progress_updated 70);
                      Call (process_files_call (loaded_tables t) string_values
                              (Ok processed_data));
                      Signal (progress_updated 85);
                      Call (save_excel_file_call processed_data out (Ok u));
                      Signal (progress_updated 100);
                      Signal (processing_complete message)]).
Proof.
  intros n t int_of bands.
  destruct (run_signals env files string_values out w) as (Hpre & Hall & _).
  split; [exact Hpre|]. intros Hok. split; [exact (Hall Hok)|].
  exact (run_success_tail env files string_values out w Hok).
Qed.

(** C2. The progress values of every run are non-decreasing, and the last
    progress value of a run that ends in [processing_complete] is 100. *)
Theorem progress_non_decreasing (files : list string)
    (string_values : gmap string string) (out : string) (w : World) :
  let t := fst (run env files string_values out w) in
  StronglySorted Z.le (progress_values t)
  /\ (succeeded t -> last (progress_values t) = Some 100).
Proof.
  intros t.
  destruct (run_signals env files string_values out w) as (Hpre & Hall & _).
  fold t in Hpre, Hall. split.
  - destruct Hpre as [rest Hrest].
    pose proof (expected_progress_sorted (length files)) as Hs.
    rewrite Hrest in Hs. eapply StronglySorted_app_1_l, Hs.
  - intros Hok. rewrite (Hall Hok). apply last_expected_progress.
Qed.

(** C3. The signals of every run are progress notifications followed by
    exactly one terminal signal ([processing_complete] or
    [processing_error]), which is the last signal of the run. *)
Theorem one_terminal_outcome (files : list string)
    (string_values : gmap string string) (out : string) (w : World) :
  let t := fst (run env files string_values out w) in
  exists (ps : list Z) (o : signal),
    signals t = (progress_updated <$> ps) ++ [o]
    /\ is_terminal o = true
    /\ outcomes t = [o]
    /\ last (signals t) = Some o.
Proof.
  intros t.
  destruct (run_signals env files string_values out w)
    as (_ & _ & o & Hs & Ho). fold t in Hs.
  exists (progress_values t), o. repeat split; try assumption.
  - unfold outcomes. rewrite Hs, filter_app, filter_terminal_progress.
    rewrite filter_cons_True by exact Ho. reflexivity.
  - rewrite Hs. apply last_snoc.
Qed.

(** C10. Every progress value is an integer between 0 and 100; over
    [n >= 1] files, [int(n / n * 20)] is 20 and [20 + int(n / n * 40)] is 60,
    so a run that emits the [n] values of the Validating phase emits 20 last
    among them, and a run that emits the [n] values of the Loading phase
    emits 60 last among them. *)
Theorem progress_band_endpoints (files : list string)
    (string_values : gmap string string) (out : string) (w : World) :
  let n := length files in
  let ps := progress_values (fst (run env files string_values out w)) in
  Forall (fun p => 0 <= p <= 100) ps
  /\ ((1 <= n)%nat ->
      scaled (Z.of_nat n) (Z.of_nat n) 20 = 20
      /\ 20 + scaled (Z.of_nat n) (Z.of_nat n) 40 = 60
      /\ ((n <= length ps)%nat -> ps !! (n - 1)%nat = Some 20)
      /\ ((2 * n <= length ps)%nat -> ps !! (2 * n - 1)%nat = Some 60)).
Proof.
  intros n ps.
  destruct (run_signals env files string_values out w) as (Hpre & _ & _).
  fold n ps in Hpre. split.
  - destruct Hpre as [rest Hrest].
    pose proof (expected_progress_bounded n) as Hb.
    rewrite Hrest, Forall_app in Hb. apply Hb.
  - intros Hn.
    assert (H20 : scaled (Z.of_nat n) (Z.of_nat n) 20 = 20)
      by (apply scaled_full_20; lia).
    assert (H40 : scaled (Z.of_nat n) (Z.of_nat n) 40 = 40)
      by (apply scaled_full_40; lia).
    split; [exact H20|]. split; [lia|]. split; intros Hlen.
    + rewrite (prefix_lookup_lt ps _ (n - 1)%nat ltac:(lia) Hpre).
      unfold expected_progress.
      rewrite lookup_app_l
        by (rewrite <- (Nat2Z.id n) at 2; rewrite length_validating_values; lia).
      rewrite lookup_validating_values by lia.
      replace (Z.of_nat (n - 1) + 1) with (Z.of_nat n) by lia.
      rewrite H20. reflexivity.
    + rewrite (prefix_lookup_lt ps _ (2 * n - 1)%nat ltac:(lia) Hpre).
      unfold expected_progress.
      assert (Hlv : length (validating_values (Z.of_nat n) 0 (Z.of_nat n)) = n)
        by apply length_validating_values.
      rewrite lookup_app_r by lia. rewrite Hlv.
      rewrite lookup_app_l by (rewrite length_loading_values; lia).
      replace (2 * n - 1 - n)%nat with (n - 1)%nat by lia.
      rewrite lookup_loading_values by lia.
      replace (Z.of_nat (n - 1) + 1) with (Z.of_nat n) by lia.
      rewrite H40. reflexivity.
Qed.

End RunClaims.

(** ** The Validating phase and the empty input list *)

Section ValidationFacts.
Context {World Data : Type} (env : Env World Data).
Import ProcessingThread.

Lemma outcomes_of_signals (t : list (event Data)) (ps : list Z) (o : signal) :
  signals t = (progress_updated <$> ps) ++ [o] -> is_terminal o = true ->
  outcomes t = [o].
Proof.
  intros Hs Ho. unfold outcomes.
  rewrite Hs, filter_app, filter_terminal_progress.
  rewrite filter_cons_True by exact Ho. reflexivity.
Qed.

Lemma passing_results (files : list string) :
  Forall (fun pr => snd pr = Ok true) (passing files).
Proof. apply Forall_fmap, Forall_forall. intros p _. reflexivity. Qed.

Lemma fst_passing (files : list string) : fst <$> passing files = files.
Proof.
  unfold passing. rewrite <- list_fmap_compose. apply list_fmap_id.
Qed.

(** In a list whose elements all pass but the last, a failing element is the
    last one. *)
Lemma failing_is_last {A : Type} (P : A -> Prop) (l pre post : list A) (a b : A) :
  Forall P l -> ~ P b -> l ++ [a] = pre ++ b :: post ->
  pre = l /\ b = a /\ post = [].
Proof.
  intros Hl Hb. revert pre. induction Hl as [|x l Hx _ IH]; intros pre E.
  - destruct pre as [|y pre]; cbn in E.
    + injection E as -> <-. auto.
    + injection E as _ E. destruct pre; discriminate.
  - destruct pre as [|y pre]; cbn in E.
    + injection E as -> _. contradiction.
    + injection E as -> E. destruct (IH pre E) as (-> & -> & ->). auto.
Qed.

(** [dropEvent] hands every dropped path to [is_valid_excel_file], in
    order, unless the check itself raises. *)
Lemma classify_checks (paths files invalid : list string) (w : World) :
  let '(r, t, _) := FileDropArea.classify env paths files invalid w in
  match r with
  | Ok _ => validity_checks t = paths
  | Raise _ => validity_checks t `prefix_of` paths
  end.
Proof.
  revert files invalid w. induction paths as [|p rest IH]; intros files invalid w.
  - reflexivity.
  - cbn [FileDropArea.classify]. unfold bind at 1. unfold extern.
    destruct (is_valid_excel_file env p w) as [[ok|e] w1].
    + pose proof (IH (files ++ [p]) invalid w1) as IH1.
      pose proof (IH files (invalid ++ [basename env p]) w1) as IH2.
      destruct ok.
      * destruct (FileDropArea.classify env rest (files ++ [p]) invalid w1)
          as [[r t] w2].
        destruct r; cbn; [f_equal; exact IH1 | apply prefix_cons; exact IH1].
      * destruct (FileDropArea.classify env rest files
                    (invalid ++ [basename env p]) w1) as [[r t] w2].
        destruct r; cbn; [f_equal; exact IH2 | apply prefix_cons; exact IH2].
    + cbn. apply prefix_cons, prefix_nil.
Qed.

Lemma dropEvent_checks (urls : list string) (w : World) :
  let '(r, t, _) := FileDropArea.dropEvent env urls w in
  match r with
  | Ok _ => validity_checks t = urls
  | Raise _ => validity_checks t `prefix_of` urls
  end.
Proof.
  unfold FileDropArea.dropEvent, bind, ret.
  pose proof (classify_checks urls [] [] w) as H.
  destruct (FileDropArea.classify env urls [] [] w) as [[[r|e] t] w1].
  - rewrite app_nil_r. exact H.
  - exact H.
Qed.

(** A check that does not return [True] is the last check of the run: the
    files before it passed, nothing is loaded or saved and the run ends
    with the error of that file. *)
Lemma checks_fail_fast (files : list string)
    (string_values : gmap string string) (out : string) (w : World) :
  let t := fst (run env files string_values out w) in
  validity_checks t = []
  /\ (fst <$> accessibility_results t) `prefix_of` files
  /\ forall pre p res post,
       accessibility_results t = pre ++ (p, res) :: post -> res ≠ Ok true ->
       post = []
       /\ pre = passing (take (length pre) files)
       /\ files !! length pre = Some p
       /\ load_attempts t = [] /\ save_attempts t = []
       /\ outcomes t = [processing_error
                          ("Error during processing: " +:+ access_failure p res)].
Proof.
  intros t.
  destruct (run_shape env files string_values out w)
    as (x & Hs & _ & Hv & Hc). fold t in Hs, Hv, Hc.
  split; [exact Hv|].
  assert (Hpass : accessibility_results t = passing files ->
    (fst <$> accessibility_results t) `prefix_of` files
    /\ forall pre p res post,
         accessibility_results t = pre ++ (p, res) :: post -> res ≠ Ok true ->
         False).
  { intros Ha. rewrite Ha, fst_passing. split; [reflexivity|].
    intros pre p res post E Hres.
    pose proof (passing_results files) as Hall.
    rewrite E, Forall_app, Forall_cons in Hall.
    destruct Hall as (_ & Hp & _). contradiction. }
  destruct x as [e|k e|k e|e|e|m]; cbn [calls_before] in Hc.
  - destruct Hc as (Ha & _). rewrite Ha. split; [apply prefix_nil|].
    intros pre p res post E. destruct pre; discriminate.
  - destruct Hc as (p0 & res0 & Hk & Hres0 & He & Ha & Hl & Hsv).
    pose proof (lookup_lt_Some _ _ _ Hk) as Hlt.
    split.
    + rewrite Ha, fmap_app, fst_passing. cbn.
      rewrite <- (take_S_r _ _ _ Hk). apply prefix_take.
    + intros pre p res post E Hres. rewrite Ha in E.
      destruct (failing_is_last (fun pr => snd pr = Ok true)
                  (passing (take k files)) pre post (p0, res0) (p, res)
                  (passing_results (take k files)) Hres E) as (-> & Epr & ->).
      injection Epr as -> ->.
      assert (Hlen : length (passing (take k files)) = k)
        by (unfold passing; rewrite length_fmap, length_take; lia).
      rewrite Hlen. repeat split; try assumption.
      eapply outcomes_of_signals; [rewrite Hs, He; reflexivity | reflexivity].
  - destruct Hc as (_ & Ha & _). destruct (Hpass Ha) as [H1 H2].
    split; [exact H1|]. intros pre p res post E Hres. destruct (H2 _ _ _ _ E Hres).
  - destruct Hc as (Ha & _). destruct (Hpass Ha) as [H1 H2].
    split; [exact H1|]. intros pre p res post E Hres. destruct (H2 _ _ _ _ E Hres).
  - destruct Hc as (Ha & _). destruct (Hpass Ha) as [H1 H2].
    split; [exact H1|]. intros pre p res post E Hres. destruct (H2 _ _ _ _ E Hres).
  - destruct Hc as (Ha & _). destruct (Hpass Ha) as [H1 H2].
    split; [exact H1|]. intros pre p res post E Hres. destruct (H2 _ _ _ _ E Hres).
Qed.

(** [browse_files] hands every selected path to [is_valid_excel_file], in
    order, unless the check itself raises. *)
Lemma browse_files_checks (selected : list string) (w : World) :
  let '(r, t, _) := DropArea.browse_files env selected w in
  match r with
  | Ok _ => validity_checks t = selected
  | Raise _ => validity_checks t `prefix_of` selected
  end.
Proof.
  destruct selected as [|f rest]; [reflexivity|].
  unfold DropArea.browse_files, bind, ret.
  pose proof (classify_checks (f :: rest) [] [] w) as H.
  destruct (FileDropArea.classify env (f :: rest) [] [] w) as [[[r|e] t] w1].
  - rewrite app_nil_r. exact H.
  - exact H.
Qed.

(** A run that loads a file, or succeeds, has checked every input file. *)
Lemma checks_before_loading (files : list string)
    (string_values : gmap string string) (out : string) (w : World) :
  let t := fst (run env files string_values out w) in
  load_attempts t <> [] \/ succeeded t ->
  accessibility_results t = passing files.
Proof.
  intros t.
  destruct (run_shape env files string_values out w)
    as (x & Hs & _ & _ & Hc). fold t in Hs, Hc.
  assert (Hfail : forall e, outcome_of x = processing_error e -> ~ succeeded t).
  { intros e Hx [m Hm]. rewrite Hs, last_snoc, Hx in Hm. discriminate Hm. }
  destruct x as [e|k e|k e|e|e|m]; cbn [calls_before] in Hc.
  - destruct Hc as (_ & Hl & _). intros [H|H]; [congruence|].
    destruct (Hfail _ eq_refl H).
  - destruct Hc as (p0 & res0 & _ & _ & _ & _ & Hl & _).
    intros [H|H]; [congruence|]. destruct (Hfail _ eq_refl H).
  - intros _. apply Hc.
  - intros _. apply Hc.
  - intros _. apply Hc.
  - intros _. apply Hc.
Qed.

(** C4, as amended. Once [FileHandler] and [ExcelProcessor] are
    constructed, the run hands each input file, in order, to
    [validate_file_accessibility] and to no other check: every file is
    checked, or every file up to the first one whose check does not return
    [True], and each recorded answer is an answer of
    [validate_file_accessibility] for that file. [is_valid_excel_file] is
    never called by the run: it is called on every path, in order, when
    files are dropped or browsed. A check that does not return [True] is
    the last one: the files before it passed, no later file is checked,
    nothing is loaded or saved, and the run ends with [processing_error]
    carrying the message
    [Error during processing: Cannot access file: <path>] (or the text of
    the exception the check raised); the error has no kind. A run that
    loads a file or succeeds has checked every file, with answer [True]. *)
Theorem accessibility_fail_fast (files : list string)
    (string_values : gmap string string) (out : string) (w : World) :
  let t := fst (run env files string_values out w) in
  validity_checks t = []
  /\ (fst <$> accessibility_results t) `prefix_of` files
  /\ (forall pre p res post,
       accessibility_results t = pre ++ (p, res) :: post -> res ≠ Ok true ->
       post = []
       /\ pre = passing (take (length pre) files)
       /\ files !! length pre = Some p
       /\ load_attempts t = [] /\ save_attempts t = []
       /\ outcomes t = [processing_error
                          ("Error during processing: " +:+ access_failure p res)])
  /\ (forall p res,
       (p, res) ∈ accessibility_results t ->
       exists w0, fst (validate_file_accessibility env p w0) = res)
  /\ (FileHandler_call (Ok tt) ∈ calls t ->
      ExcelProcessor_call (Ok tt) ∈ calls t ->
      accessibility_results t = passing files
      \/ exists k p res,
           files !! k = Some p /\ res ≠ Ok true
           /\ accessibility_results t = passing (take k files) ++ [(p, res)])
  /\ (load_attempts t <> [] \/ succeeded t ->
      accessibility_results t = passing files)
  /\ (forall urls w',
       let '(r, t', _) := FileDropArea.dropEvent env urls w' in
       match r with
       | Ok _ => validity_checks t' = urls
       | Raise _ => validity_checks t' `prefix_of` urls
       end)
  /\ (forall selected w',
       let '(r, t', _) := DropArea.browse_files env selected w' in
       match r with
       | Ok _ => validity_checks t' = selected
       | Raise _ => validity_checks t' `prefix_of` selected
       end).
Proof.
  intros t.
  destruct (checks_fail_fast files string_values out w) as (Hv & Hp & Hlast).
  split; [exact Hv|]. split; [exact Hp|]. split; [exact Hlast|].
  split; [intros p res; apply run_checks_answered|].
  split; [apply run_checks_every_file|].
  split; [apply checks_before_loading|].
  split; [intros urls w'; apply dropEvent_checks|].
  intros selected w'. apply browse_files_checks.
Qed.

(** C5, as amended. With an empty list of input files
    [MainWindow.process_files] shows the warning [No Files] and returns: the
    worker is not started, so no phase runs, no signal is emitted, no call
    reaches the file system and the output file is left alone. *)
Theorem empty_input_rejected (out : string) (fields : list (string * string))
    (w : World) :
  let self := {| MainWindow.input_files := [];
                 MainWindow.output_path := out;
                 MainWindow.string_fields := fields |} in
  MainWindow.process_files env self
    = MainWindow.warning "No Files" "Please select input files first."
  /\ MainWindow.clicked env self w = ([], w).
Proof. split; reflexivity. Qed.

End ValidationFacts.

Lemma accessibility_fail_fast_witness :
  let t := fst (ProcessingThread.run Sample.env
                  ["a.xlsx"; "b.xlsx"; "missing.xlsx"; "d.xlsx"]
                  Sample.metadata "out.xlsx" tt) in
  accessibility_results t
  = [("a.xlsx", Ok true); ("b.xlsx", Ok true); ("missing.xlsx", Ok false)]
  /\ load_attempts t = []
  /\ outcomes t = [processing_error
                     "Error during processing: Cannot access file: missing.xlsx"]
  /\ exists k, ["a.xlsx"; "b.xlsx"; "missing.xlsx"; "d.xlsx"] !! k
                = Some "missing.xlsx"
               /\ length (accessibility_results t) = S k.
Proof.
  intros t.
  assert (E : accessibility_results t
              = [("a.xlsx", Ok true); ("b.xlsx", Ok true)]
                  ++ ("missing.xlsx", Ok false) :: [])
    by (vm_compute; reflexivity).
  assert (Hf : FileHandler_call (Ok tt) ∈ calls t)
    by (apply list_elem_of_In; vm_compute; auto).
  assert (He : ExcelProcessor_call (Ok tt) ∈ calls t)
    by (apply list_elem_of_In; vm_compute; auto).
  destruct (accessibility_fail_fast Sample.env
              ["a.xlsx"; "b.xlsx"; "missing.xlsx"; "d.xlsx"] Sample.metadata
              "out.xlsx" tt) as (_ & _ & H & _ & Hall & _).
  destruct (H _ _ _ _ E) as (_ & _ & Hk & Hl & _ & Ho); [discriminate|].
  split; [exact E|]. split; [exact Hl|]. split; [exact Ho|].
  destruct (Hall Hf He) as [Ha|(k & p & res & Hkp & Hres & Ha)].
  - fold t in Ha. rewrite E in Ha. discriminate Ha.
  - exists 2%nat. split; [reflexivity|]. rewrite E. reflexivity.
Defined.

(** C4 as stated fails: [notes.txt] is not a valid spreadsheet, yet the run
    never checks it for validity, validates it, loads it and completes. *)
Lemma validity_not_checked_by_run :
  is_valid_excel_file Sample.env "notes.txt" tt = (Ok false, tt)
  /\ let t := fst (ProcessingThread.run Sample.env ["notes.txt"]
                     Sample.metadata "out.xlsx" tt) in
     validity_checks t = []
     /\ accessibility_results t = [("notes.txt", Ok true)]
     /\ load_attempts t = ["notes.txt"]
     /\ outcomes t = [processing_complete
                        "Successfully processed 1 files and saved to out.xlsx!"].
Proof. vm_compute. repeat split; reflexivity. Qed.

(** C5 as stated fails: handed an empty list, [ProcessingThread.run] rejects
    nothing, it merges, saves and reports success; and when
    [MainWindow.process_files] turns the empty list down, no error outcome
    is delivered at all. *)
Lemma run_accepts_empty_list :
  let t := fst (ProcessingThread.run Sample.env [] Sample.metadata
                  "out.xlsx" tt) in
  let self := {| MainWindow.input_files := [];
                 MainWindow.output_path := "out.xlsx";
                 MainWindow.string_fields := [] |} in
  signals t = [progress_updated 70; progress_updated 85; progress_updated 100;
               processing_complete
                 "Successfully processed 0 files and saved to out.xlsx!"]
  /\ snd <$> saved_tables t = ["out.xlsx"]
  /\ outcomes (fst (MainWindow.clicked Sample.env self tt)) = [].
Proof. vm_compute. repeat split; reflexivity. Qed.

(** ** Metadata validation *)

Section MetadataFacts.
Import InputValidator.
Variable max_length : nat.

Lemma check_field_empty (text : string) :
  check_field max_length (Py.strip text) = Some empty <-> Py.strip text = "".
Proof.
  unfold check_field. rewrite strip_idemp.
  destruct (decide (Py.strip text = "")) as [E|NE]; [tauto|].
  destruct (decide (max_length < String.length (Py.strip text))%nat);
    split; congruence.
Qed.

Lemma check_field_too_long (text : string) :
  check_field max_length (Py.strip text) = Some too_long
  <-> (max_length < String.length (Py.strip text))%nat.
Proof.
  unfold check_field. rewrite strip_idemp.
  destruct (decide (Py.strip text = "")) as [E|NE].
  - rewrite E. cbn. split; [discriminate | lia].
  - destruct (decide (max_length < String.length (Py.strip text))%nat);
      split; (congruence || lia || tauto).
Qed.

Lemma check_field_passes (text : string) :
  check_field max_length (Py.strip text) = None
  <-> Py.strip text ≠ ""
      /\ (String.length (Py.strip text) <= max_length)%nat.
Proof.
  unfold check_field. rewrite strip_idemp.
  destruct (decide (Py.strip text = "")) as [E|NE].
  - split; [discriminate | tauto].
  - destruct (decide (max_length < String.length (Py.strip text))%nat).
    + split; [discriminate | intros [_ H]; lia].
    + split; [intros _; split; [exact NE | lia] | reflexivity].
Qed.

Lemma elem_of_validateMetadata (record : gmap string string) (key : string)
    (v : violation) :
  (key, v) ∈ validateMetadata max_length record
  <-> key ∈ metadata_keys
      /\ check_field max_length (default "" (record !! key)) = Some v.
Proof.
  unfold validateMetadata. rewrite list_elem_of_omap. split.
  - intros (k & Hk & E).
    destruct (check_field max_length (default "" (record !! k))) eqn:Ec;
      [|discriminate].
    cbn in E. injection E as -> ->. auto.
  - intros [Hk Ec]. exists key. rewrite Ec. auto.
Qed.

Lemma validateMetadata_nil (record : gmap string string) :
  validateMetadata max_length record = []
  <-> forall key, key ∈ metadata_keys ->
        check_field max_length (default "" (record !! key)) = None.
Proof.
  unfold validateMetadata. generalize metadata_keys as keys.
  induction keys as [|k keys IH]; cbn [omap list_omap].
  - split; [intros _ key Hk; inversion Hk | reflexivity].
  - destruct (check_field max_length (default "" (record !! k))) eqn:Ec; cbn.
    + split; [discriminate|]. intros H.
      rewrite (H k) in Ec by (apply list_elem_of_here). discriminate.
    + rewrite IH. split.
      * intros H key Hk. apply elem_of_cons in Hk as [->|Hk]; auto.
      * intros H key Hk. apply H. apply list_elem_of_further, Hk.
Qed.

End MetadataFacts.

Section MetadataClaim.
Context {World Data : Type} (env : Env World Data).
Import InputValidator MainWindow.

(** The keys of the line edits built from the default labels are the five
    metadata keys, in order. *)
Lemma field_keys : field_key <$> field_labels = metadata_keys.
Proof. reflexivity. Qed.

(** [get_string_values] maps every key to the trimmed text of its field. *)
Lemma get_string_values_lookup (files : list string) (out : string)
    (texts : string -> string) (key : string) :
  key ∈ metadata_keys ->
  get_string_values {| input_files := files; output_path := out;
                       string_fields := fields_of texts |} !! key
  = Some (Py.strip (texts key)).
Proof.
  intros Hk. unfold get_string_values. cbn [string_fields].
  change (fields_of texts)
    with ((fun k => (k, texts k)) <$> metadata_keys).
  unfold metadata_keys in *. cbn [fmap list_fmap foldl fst snd].
  set_unfold in Hk.
  destruct Hk as [->|[->|[->|[->|[->|[]]]]]];
    repeat (rewrite lookup_insert_ne by discriminate);
    apply lookup_insert_eq.
Qed.

(** C6. The record handed to the validation holds the trimmed text of each
    of the five fields; the validation reports [empty] for exactly the
    fields that are blank once trimmed and [too long] for exactly those
    longer than the maximum, for all five fields; it returns no violation
    exactly when every field passes; and when it returns violations
    [process_files] warns and returns without starting the worker. *)
Theorem metadata_validation_exhaustive (max_length : nat)
    (files : list string) (out : string) (texts : string -> string)
    (w : World) :
  let self := {| input_files := files; output_path := out;
                 string_fields := fields_of texts |} in
  let record := get_string_values self in
  let errors := validateMetadata max_length record in
  (forall key, key ∈ metadata_keys ->
     record !! key = Some (Py.strip (texts key))
     /\ ((key, empty) ∈ errors <-> Py.strip (texts key) = "")
     /\ ((key, too_long) ∈ errors
         <-> (max_length < String.length (Py.strip (texts key)))%nat))
  /\ (forall key v, (key, v) ∈ errors -> key ∈ metadata_keys)
  /\ (errors = []
      <-> forall key, key ∈ metadata_keys ->
            Py.strip (texts key) ≠ ""
            /\ (String.length (Py.strip (texts key)) <= max_length)%nat)
  /\ (validate_string_inputs env record = message <$> errors ->
      errors ≠ [] ->
      (exists title text, process_files env self = warning title text)
      /\ clicked env self w = ([], w)).
Proof.
  intros self record errors.
  assert (Hrec : forall key, key ∈ metadata_keys ->
            default "" (record !! key) = Py.strip (texts key)).
  { intros key Hk. unfold record, self.
    rewrite get_string_values_lookup by exact Hk. reflexivity. }
  split; [|split; [|split]].
  - intros key Hk. split; [apply get_string_values_lookup, Hk|].
    unfold errors. rewrite !elem_of_validateMetadata, (Hrec key Hk).
    rewrite check_field_empty, check_field_too_long. tauto.
  - intros key v H. apply elem_of_validateMetadata in H. tauto.
  - unfold errors. rewrite validateMetadata_nil. split.
    + intros H key Hk. apply check_field_passes.
      rewrite <- (Hrec key Hk). apply H, Hk.
    + intros H key Hk. rewrite (Hrec key Hk). apply check_field_passes, H, Hk.
  - intros Henv Hne.
    assert (Hw : exists title text, process_files env self = warning title text).
    { unfold process_files. destruct (input_files self); [eauto|].
      destruct (output_path self); [eauto|].
      fold record. rewrite Henv. fold errors.
      destruct errors; [contradiction|]. cbn. eauto. }
    split; [exact Hw|]. destruct Hw as (title & text & Hw).
    unfold clicked. rewrite Hw. reflexivity.
Qed.

End MetadataClaim.

Lemma metadata_validation_exhaustive_witness :
  let texts := fun key => if decide (key = "analyst") then "   " else " x " in
  let self := {| MainWindow.input_files := ["a.xlsx"];
                 MainWindow.output_path := "out.xlsx";
                 MainWindow.string_fields := MainWindow.fields_of texts |} in
  InputValidator.validateMetadata 256 (MainWindow.get_string_values self)
    = [("analyst", InputValidator.empty)]
  /\ MainWindow.clicked Sample.env self tt = ([], tt).
Proof.
  intros texts self.
  assert (E : InputValidator.validateMetadata 256
                (MainWindow.get_string_values self)
              = [("analyst", InputValidator.empty)])
    by (vm_compute; reflexivity).
  split; [exact E|].
  apply (metadata_validation_exhaustive Sample.env 256 ["a.xlsx"] "out.xlsx"
           texts tt).
  - reflexivity.
  - fold self. rewrite E. discriminate.
Defined.

(** ** The merge *)

Section MergeFacts.
Import MergeEngine.

Lemma same_column_refl (a : string) : same_column a a = true.
Proof. unfold same_column. apply bool_decide_eq_true. reflexivity. Qed.

Lemma same_column_trans (a b c : string) :
  same_column a b = true -> same_column b c = true -> same_column a c = true.
Proof.
  unfold same_column. rewrite !bool_decide_eq_true. congruence.
Qed.

Lemma same_column_sym (a b : string) : same_column a b = same_column b a.
Proof.
  unfold same_column. apply bool_decide_ext. split; congruence.
Qed.

Lemma present_app (l1 l2 : list string) (c : string) :
  present (l1 ++ l2) c = present l1 c || present l2 c.
Proof. apply existsb_app. Qed.

Lemma present_true (l : list string) (c : string) :
  present l c = true <-> exists y, y ∈ l /\ same_column c y = true.
Proof.
  unfold present. rewrite existsb_exists. setoid_rewrite list_elem_of_In.
  reflexivity.
Qed.

Lemma present_elem (l : list string) (c : string) : c ∈ l -> present l c = true.
Proof. intros H. apply present_true. exists c. auto using same_column_refl. Qed.

(** Two names equal up to case are present in the same headers. *)
Lemma present_same (l : list string) (a b : string) :
  same_column a b = true -> present l a = present l b.
Proof.
  intros Hab. apply eq_true_iff_eq. rewrite !present_true.
  split; intros (y & Hy & H); exists y; split; try assumption.
  - eapply same_column_trans; [|exact H]. rewrite same_column_sym. exact Hab.
  - eapply same_column_trans; [exact Hab | exact H].
Qed.

Lemma add_columns_app (acc l1 l2 : list string) :
  add_columns acc (l1 ++ l2) = add_columns (add_columns acc l1) l2.
Proof. apply foldl_app. Qed.

(** Iterating over the tables is iterating over all their columns. *)
Lemma union_header_concat (tables : list Table) :
  union_header tables = add_columns [] (concat (header <$> tables)).
Proof.
  unfold union_header. generalize (@nil string) as acc.
  induction tables as [|t tables IH]; intros acc; [reflexivity|].
  cbn [foldl fmap list_fmap concat]. rewrite add_columns_app. apply IH.
Qed.

Lemma first_seen_snoc (pre : list string) (c : string) :
  first_seen (pre ++ [c])
  = first_seen pre ++ (if present pre c then [] else [c]).
Proof.
  unfold first_seen. rewrite length_app, seq_app, omap_app. cbn [length seq].
  f_equal.
  - apply list_omap_ext, Forall2_same_length_lookup. split; [reflexivity|].
    intros i x y Hx Hy. rewrite Hx in Hy. injection Hy as <-.
    apply lookup_seq in Hx as [-> Hi]. cbn.
    rewrite lookup_app_l by lia. rewrite take_app_le by lia. reflexivity.
  - cbn. rewrite lookup_app_r, Nat.sub_diag by lia. cbn.
    rewrite take_app_length. unfold present.
    destruct (existsb (same_column c) pre); reflexivity.
Qed.

Lemma present_first_seen (pre : list string) (c : string) :
  present (first_seen pre) c = present pre c.
Proof.
  induction pre as [|x pre IH] using rev_ind; [reflexivity|].
  rewrite first_seen_snoc, !present_app, IH.
  destruct (present pre x) eqn:Hx; [|reflexivity].
  cbn. rewrite orb_false_r. destruct (same_column c x) eqn:Hcx.
  - rewrite (present_same pre c x Hcx), Hx. reflexivity.
  - rewrite orb_false_r. reflexivity.
Qed.

(** Appending the columns not yet present keeps exactly the first
    occurrences. *)
Lemma add_columns_first_seen (pre cols : list string) :
  add_columns (first_seen pre) cols = first_seen (pre ++ cols).
Proof.
  revert pre. induction cols as [|c cols IH]; intros pre.
  - rewrite app_nil_r. reflexivity.
  - cbn [add_columns foldl]. fold (add_columns).
    replace (pre ++ c :: cols) with ((pre ++ [c]) ++ cols)
      by (rewrite <- app_assoc; reflexivity).
    rewrite <- IH, first_seen_snoc, present_first_seen.
    destruct (present pre c); [rewrite app_nil_r|]; reflexivity.
Qed.

Lemma union_header_first_seen (tables : list Table) :
  union_header tables = first_seen (concat (header <$> tables)).
Proof. rewrite union_header_concat. apply (add_columns_first_seen []). Qed.

Lemma first_seen_subset (cols : list string) (c : string) :
  c ∈ first_seen cols -> c ∈ cols.
Proof.
  unfold first_seen. rewrite list_elem_of_omap. intros (i & _ & Hi).
  destruct (cols !! i) as [c'|] eqn:E; [|discriminate].
  destruct (present (take i cols) c'); [discriminate|].
  injection Hi as ->. eapply list_elem_of_lookup_2, E.
Qed.

Lemma first_seen_NoDup (cols : list string) :
  NoDup (Py.lower <$> first_seen cols).
Proof.
  induction cols as [|c cols IH] using rev_ind; [constructor|].
  rewrite first_seen_snoc. destruct (present cols c) eqn:Hc.
  - rewrite app_nil_r. exact IH.
  - rewrite fmap_app. apply NoDup_app. split; [exact IH|]. split.
    + intros l Hl Hl'. cbn in Hl'. apply list_elem_of_singleton in Hl'. subst l.
      apply list_elem_of_fmap in Hl as (y & Hy & Hin).
      assert (present (first_seen cols) c = true).
      { apply present_true. exists y. split; [exact Hin|].
        unfold same_column. apply bool_decide_eq_true. exact Hy. }
      rewrite present_first_seen in H. congruence.
    + cbn. apply NoDup_singleton.
Qed.

(** The merge keeps every row of every table. *)
Lemma merge_row_count (irreconcilable : list Table -> bool)
    (tables : list Table) (metadata : gmap string string) (t : Table) :
  merge irreconcilable tables metadata = inl t ->
  row_count t = sum_list (row_count <$> tables).
Proof.
  unfold merge. destruct (irreconcilable tables); [discriminate|].
  intros E. injection E as <-. unfold row_count at 1. cbn [rows].
  generalize (union_header tables) as cols. intros cols.
  induction tables as [|t tables IH]; [reflexivity|].
  cbn. rewrite length_app, length_fmap. f_equal. exact IH.
Qed.

(** C8. The header of the merged table is, first, the columns of the source
    tables taken in input order, each kept where and as it was first seen
    and dropped where an earlier column equals it up to case; then the five
    metadata keys in their fixed order. It is what the iteration over the
    tables computes, it covers every source column, it holds no column
    twice up to case, and it depends on the headers of the tables in input
    order only. *)
Theorem merged_header (irreconcilable : list Table -> bool)
    (tables : list Table) (metadata : gmap string string) (t : Table) :
  merge irreconcilable tables metadata = inl t ->
  let cols := concat (header <$> tables) in
  header t = first_seen cols
               ++ ["project_name"; "department"; "analyst"; "report_date";
                   "version"]
  /\ union_header tables = first_seen cols
  /\ (forall c, c ∈ cols -> present (first_seen cols) c = true)
  /\ (forall c, c ∈ first_seen cols -> c ∈ cols)
  /\ NoDup (Py.lower <$> first_seen cols)
  /\ (forall irreconcilable' tables' metadata' t',
        header <$> tables' = header <$> tables ->
        merge irreconcilable' tables' metadata' = inl t' ->
        header t' = header t).
Proof.
  intros Hm cols. unfold merge in Hm.
  destruct (irreconcilable tables); [discriminate|]. injection Hm as <-.
  cbn [header]. rewrite union_header_first_seen. fold cols.
  repeat split.
  - intros c Hc. rewrite present_first_seen. apply present_elem, Hc.
  - apply first_seen_subset.
  - apply first_seen_NoDup.
  - intros irr' tables' metadata' t' Hh Hm'. unfold merge in Hm'.
    destruct (irr' tables'); [discriminate|]. injection Hm' as <-.
    cbn [header]. rewrite union_header_first_seen, Hh. reflexivity.
Qed.

End MergeFacts.

(** ** Row count of the output of a run *)

Section RowCount.
Context {World : Type} (max_length : nat)
  (irreconcilable : list MergeEngine.Table -> bool)
  (env : Env World MergeEngine.Table).
Import MergeEngine ProcessingThread.

(** C7. When the merge is [MergeEngine.merge], every run that succeeds
    loaded one table per input file, merged them, and handed to
    [save_excel_file] a table with as many rows as the loaded tables have
    together. *)
Theorem merged_row_count (files : list string)
    (metadata : gmap string string) (out : string) (w : World) :
  let t := fst (run (with_spec_components max_length irreconcilable env)
                  files metadata out w) in
  succeeded t ->
  exists merged : Table,
    saved_tables t = [(merged, out)]
    /\ length (loaded_tables t) = length files
    /\ merge irreconcilable (loaded_tables t) metadata = inl merged
    /\ row_count merged = sum_list (row_count <$> loaded_tables t).
Proof.
  intros t [message Hm].
  destruct (run_shape (with_spec_components max_length irreconcilable env)
              files metadata out w) as (x & Hs & _ & _ & Hc).
  fold t in Hs, Hc. rewrite Hs, last_snoc in Hm. injection Hm as Hm.
  apply outcome_of_complete in Hm. subst x. cbn [calls_before] in Hc.
  destruct Hc as (_ & _ & Hlen & _ & d & w1 & w2 & Hmerge & _ & Hsaved & _).
  cbn in Hmerge.
  destruct (merge irreconcilable (loaded_tables t) metadata) as [m|k] eqn:E;
    [|discriminate].
  injection Hmerge as -> _. exists d. repeat split; try assumption.
  eapply merge_row_count, E.
Qed.

End RowCount.

(** ** Saving *)

Section SaveFacts.
Context {Table Content : Type} (serialize : Table -> Content).
Import WorkbookWriter.

Lemma append_empty (s : string) : s +:+ "" = s.
Proof.
  induction s as [|c s IH]; [reflexivity|].
  change (String c (s +:+ "") = String c s). f_equal. exact IH.
Qed.

Lemma temp_path_fresh (p : path) : temp_path p ≠ p.
Proof.
  destruct p as [d n]. unfold temp_path. cbn. intros E. injection E as E.
  rewrite <- (append_empty n) in E at 2.
  apply (inj (String.app n)) in E. discriminate.
Qed.

(** What the destination holds in the states of a save. *)
Lemma save_destination (f : faults) (table : Table) (p : path)
    (disk : gmap path Content) :
  let tmp := temp_path p in
  let err := fst (save serialize f table p disk) in
  let states := snd (save serialize f table p disk) in
  fst tmp = fst p /\ tmp ≠ p
  /\ (forall s, s ∈ states ->
        s !! p = disk !! p \/ s !! p = Some (serialize table))
  /\ (err = None <-> temp_write f = written /\ rename_succeeds f = true)
  /\ (err = None ->
      exists final, last states = Some final
                    /\ final !! p = Some (serialize table)
                    /\ final !! tmp = None)
  /\ (err ≠ None ->
      err = Some WriteError /\ forall s, s ∈ states -> s !! p = disk !! p).
Proof.
  intros tmp err states. pose proof (temp_path_fresh p) as Hfresh.
  fold tmp in Hfresh. subst err states. unfold save. fold tmp.
  split; [reflexivity|]. split; [exact Hfresh|].
  destruct (temp_write f) as [|partial]; [destruct (rename_succeeds f)|];
    cbn [fst snd].
  - split; [|split; [|split]].
    + intros s Hs. set_unfold in Hs.
      destruct Hs as [->|[->|[->|[]]]]; auto.
      * left. apply lookup_insert_ne, Hfresh.
      * right. apply lookup_insert_eq.
    + tauto.
    + intros _. eexists. split; [reflexivity|]. split.
      * apply lookup_insert_eq.
      * rewrite lookup_insert_ne by (intros E; apply Hfresh; congruence).
        apply lookup_delete_eq.
    + intros H. contradiction.
  - split; [|split; [|split]].
    + intros s Hs. set_unfold in Hs. destruct Hs as [->|[->|[]]]; auto.
      left. apply lookup_insert_ne, Hfresh.
    + split; [discriminate | intros [_ H]; discriminate].
    + discriminate.
    + intros _. split; [reflexivity|].
      intros s Hs. set_unfold in Hs. destruct Hs as [->|[->|[]]]; auto.
      apply lookup_insert_ne, Hfresh.
  - split; [|split; [|split]].
    + intros s Hs. set_unfold in Hs. destruct Hs as [->|[->|[]]]; auto.
      left. destruct partial; [apply lookup_insert_ne, Hfresh | reflexivity].
    + split; [discriminate | intros [H _]; discriminate].
    + discriminate.
    + intros _. split; [reflexivity|].
      intros s Hs. set_unfold in Hs. destruct Hs as [->|[->|[]]]; auto.
      destruct partial; [apply lookup_insert_ne, Hfresh | reflexivity].
Qed.

(** The steps of a save: the disk as it was, then the temporary file, then
    the rename; no other file is touched. *)
Lemma save_steps (f : faults) (table : Table) (p : path)
    (disk : gmap path Content) :
  let tmp := temp_path p in
  let err := fst (save serialize f table p disk) in
  let states := snd (save serialize f table p disk) in
  states !! 0%nat = Some disk
  /\ (temp_write f = written ->
      exists s1, states !! 1%nat = Some s1
                 /\ s1 !! tmp = Some (serialize table)
                 /\ forall q, q ≠ tmp -> s1 !! q = disk !! q)
  /\ (err = None ->
      exists s1 final,
        states = [disk; s1; final]
        /\ s1 !! tmp = Some (serialize table)
        /\ s1 !! p = disk !! p
        /\ final !! p = s1 !! tmp
        /\ final !! tmp = None
        /\ forall q, q ≠ p -> q ≠ tmp -> final !! q = disk !! q)
  /\ (forall s q, s ∈ states -> q ≠ p -> q ≠ tmp -> s !! q = disk !! q)
  /\ (err ≠ None ->
      length states = 2%nat
      /\ forall s q, s ∈ states -> q ≠ tmp -> s !! q = disk !! q).
Proof.
  intros tmp err states. pose proof (temp_path_fresh p) as Hfresh.
  fold tmp in Hfresh. subst err states. unfold save. fold tmp.
  destruct (temp_write f) as [|partial]; [destruct (rename_succeeds f)|];
    cbn [fst snd].
  - split; [reflexivity|]. split; [|split; [|split]].
    + intros _. eexists. split; [reflexivity|].
      split; [apply lookup_insert_eq|].
      intros q Hq. apply lookup_insert_ne. congruence.
    + intros _. eexists _, _. split; [reflexivity|].
      split; [apply lookup_insert_eq|].
      split; [apply lookup_insert_ne, Hfresh|].
      split; [rewrite !lookup_insert_eq; reflexivity|].
      split.
      * rewrite lookup_insert_ne by congruence. apply lookup_delete_eq.
      * intros q Hp Ht. rewrite lookup_insert_ne by congruence.
        rewrite lookup_delete_ne by congruence.
        apply lookup_insert_ne. congruence.
    + intros s q Hs Hp Ht. set_unfold in Hs.
      destruct Hs as [->|[->|[->|[]]]]; [reflexivity| |].
      * apply lookup_insert_ne. congruence.
      * rewrite lookup_insert_ne by congruence.
        rewrite lookup_delete_ne by congruence.
        apply lookup_insert_ne. congruence.
    + intros H. contradiction.
  - split; [reflexivity|]. split; [|split; [|split]].
    + intros _. eexists. split; [reflexivity|].
      split; [apply lookup_insert_eq|].
      intros q Hq. apply lookup_insert_ne. congruence.
    + discriminate.
    + intros s q Hs Hp Ht. set_unfold in Hs.
      destruct Hs as [->|[->|[]]]; [reflexivity|].
      apply lookup_insert_ne. congruence.
    + intros _. split; [reflexivity|]. intros s q Hs Ht. set_unfold in Hs.
      destruct Hs as [->|[->|[]]]; [reflexivity|].
      apply lookup_insert_ne. congruence.
  - split; [reflexivity|]. split; [|split; [|split]].
    + discriminate.
    + discriminate.
    + intros s q Hs Hp Ht. set_unfold in Hs.
      destruct Hs as [->|[->|[]]]; [reflexivity|].
      destruct partial; [apply lookup_insert_ne; congruence | reflexivity].
    + intros _. split; [reflexivity|]. intros s q Hs Ht. set_unfold in Hs.
      destruct Hs as [->|[->|[]]]; [reflexivity|].
      destruct partial; [apply lookup_insert_ne; congruence | reflexivity].
Qed.

(** C9. Saving first writes the serialized table at a temporary path of the
    destination's directory, different from the destination: when the write
    completes, the state after it holds the complete new content at the
    temporary path and everything else, the destination included, as it
    was. It then renames the temporary file over the destination: when the
    save succeeds, the disk went through exactly three states, the last of
    which holds at the destination what the temporary path held, has no
    temporary file and is otherwise as it was at the start. In every state
    the destination holds what it held before or the complete new content,
    and no other file is touched. The save fails exactly when the temporary
    write or the rename fails, the error is then a [WriteError], there is
    no third state, and the destination and every file but the temporary
    one are as they were in every state. *)
Theorem save_atomic (f : faults) (table : Table) (p : path)
    (disk : gmap path Content) :
  let tmp := temp_path p in
  let err := fst (save serialize f table p disk) in
  let states := snd (save serialize f table p disk) in
  fst tmp = fst p /\ tmp ≠ p
  /\ (forall s, s ∈ states ->
        s !! p = disk !! p \/ s !! p = Some (serialize table))
  /\ (err = None <-> temp_write f = written /\ rename_succeeds f = true)
  /\ (err = None ->
      exists final, last states = Some final
                    /\ final !! p = Some (serialize table)
                    /\ final !! tmp = None)
  /\ (err ≠ None ->
      err = Some WriteError /\ forall s, s ∈ states -> s !! p = disk !! p)
  /\ states !! 0%nat = Some disk
  /\ (temp_write f = written ->
      exists s1, states !! 1%nat = Some s1
                 /\ s1 !! tmp = Some (serialize table)
                 /\ forall q, q ≠ tmp -> s1 !! q = disk !! q)
  /\ (err = None ->
      exists s1 final,
        states = [disk; s1; final]
        /\ s1 !! tmp = Some (serialize table)
        /\ s1 !! p = disk !! p
        /\ final !! p = s1 !! tmp
        /\ final !! tmp = None
        /\ forall q, q ≠ p -> q ≠ tmp -> final !! q = disk !! q)
  /\ (forall s q, s ∈ states -> q ≠ p -> q ≠ tmp -> s !! q = disk !! q)
  /\ (err ≠ None ->
      length states = 2%nat
      /\ forall s q, s ∈ states -> q ≠ tmp -> s !! q = disk !! q).
Proof.
  intros tmp err states.
  destruct (save_destination f table p disk) as (H1 & H2 & H3 & H4 & H5 & H6).
  destruct (save_steps f table p disk) as (S1 & S2 & S3 & S4 & S5).
  repeat (split; [assumption|]). assumption.
Qed.

End SaveFacts.

(** ** The theorems on sample inputs *)

Lemma run_progress_bands_witness :
  progress_values
    (fst (ProcessingThread.run Sample.env Sample.three_files Sample.metadata
            "out.xlsx" tt))
  = [6; 13; 20; 33; 46; 60; 70; 85; 100].
Proof.
  etransitivity.
  - apply (proj2 (run_progress_bands Sample.env Sample.three_files
                    Sample.metadata "out.xlsx" tt)).
    eexists. vm_compute. reflexivity.
  - vm_compute. reflexivity.
Defined.

(** C1 as stated fails: over three files the first progress value is 6,
    which is not the fraction [(0 + 1) / 3 * 20]. *)
Lemma progress_is_truncated :
  progress_values
    (fst (ProcessingThread.run Sample.env Sample.three_files Sample.metadata
            "out.xlsx" tt)) !! 0%nat = Some 6
  /\ ~ (inject_Z 6 == inject_Z (0 + 1) / inject_Z 3 * inject_Z 20)%Q.
Proof.
  split; [vm_compute; reflexivity|]. intros E. vm_compute in E. discriminate.
Qed.

Lemma progress_non_decreasing_witness :
  last (progress_values
          (fst (ProcessingThread.run Sample.env Sample.three_files
                  Sample.metadata "out.xlsx" tt))) = Some 100.
Proof.
  apply (progress_non_decreasing Sample.env Sample.three_files Sample.metadata
           "out.xlsx" tt).
  eexists. vm_compute. reflexivity.
Defined.

Lemma progress_band_endpoints_witness :
  let ps := progress_values
              (fst (ProcessingThread.run Sample.env Sample.three_files
                      Sample.metadata "out.xlsx" tt)) in
  ps !! 2%nat = Some 20 /\ ps !! 5%nat = Some 60.
Proof.
  intros ps.
  destruct (progress_band_endpoints Sample.env Sample.three_files
              Sample.metadata "out.xlsx" tt) as [_ H].
  destruct H as (_ & _ & H20 & H60); [vm_compute; lia|].
  split; [apply H20 | apply H60]; vm_compute; lia.
Defined.

Lemma merged_row_count_witness :
  exists merged,
    saved_tables
      (fst (ProcessingThread.run Sample.env ["a.xlsx"; "b.xlsx"]
              Sample.metadata "out.xlsx" tt)) = [(merged, "out.xlsx")]
    /\ MergeEngine.row_count merged = 6%nat.
Proof.
  destruct (merged_row_count 256 (fun _ => false) Sample.base
              ["a.xlsx"; "b.xlsx"] Sample.metadata "out.xlsx" tt)
    as (merged & Hs & _ & _ & Hr).
  - eexists. vm_compute. reflexivity.
  - exists merged. split; [exact Hs|]. rewrite Hr. vm_compute. reflexivity.
Defined.

Lemma merged_header_witness :
  exists t,
    MergeEngine.merge (fun _ => false)
      [Sample.table "a.xlsx"; Sample.regions "b.xlsx"] Sample.metadata = inl t
    /\ MergeEngine.header t
       = ["Name"; "Amount"; "Region"; "project_name"; "department"; "analyst";
          "report_date"; "version"].
Proof.
  eexists. split; [reflexivity|].
  etransitivity.
  - apply (merged_header (fun _ => false)
             [Sample.table "a.xlsx"; Sample.regions "b.xlsx"] Sample.metadata).
    reflexivity.
  - vm_compute. reflexivity.
Defined.

Lemma save_atomic_witness :
  let p : WorkbookWriter.path := ("reports", "out.xlsx") in
  let other : WorkbookWriter.path := ("reports", "notes.xlsx") in
  let disk : gmap WorkbookWriter.path string :=
    {[ p := "old"; other := "keep" ]} in
  let r := WorkbookWriter.save (fun _ : unit => "new")
             {| WorkbookWriter.temp_write := WorkbookWriter.written;
                WorkbookWriter.rename_succeeds := false |} tt p disk in
  fst r = Some WriteError
  /\ (forall s, s ∈ snd r -> s !! p = Some "old")
  /\ exists s1, snd r !! 1%nat = Some s1
                /\ s1 !! WorkbookWriter.temp_path p = Some "new"
                /\ s1 !! other = Some "keep".
Proof.
  intros p other disk r.
  destruct (save_atomic (fun _ : unit => "new")
              {| WorkbookWriter.temp_write := WorkbookWriter.written;
                 WorkbookWriter.rename_succeeds := false |} tt p disk)
    as (_ & _ & _ & _ & _ & H & _ & Hw & _).
  destruct H as [H1 H2]; [discriminate|].
  destruct (Hw eq_refl) as (s1 & Hs1 & Ht & Hq).
  split; [exact H1|]. split.
  - intros s Hs. rewrite (H2 s Hs). vm_compute. reflexivity.
  - exists s1. split; [exact Hs1|]. split; [exact Ht|].
    rewrite Hq by discriminate. vm_compute. reflexivity.
Defined.

(** ** The worker after the Validating phase *)

Section WorkerCourse.
Context {World Data : Type} (env : Env World Data).
Import ProcessingThread.





(** The trace of a run with the course it took, in one record of facts. *)
Lemma run_projections (files : list string) (sv : gmap string string)
    (out : string) (w : World) :
  let n := Z.of_nat (length files) in
  let t := fst (run env files sv out w) in
  exists c : course,
    possible files c
    /\ t = trace_of files sv out c
    /\ match c with
       | all_done _ _ message => message = success_message env n out
       | _ => True
       end
    /\ last (signals t) = hd_error (outcomes t).
Proof.
  intros n t.
  destruct (run_course env files sv out w) as (c & Hc & Ht & Hm).
  exists c. repeat split; try assumption.
  destruct (run_signals env files sv out w) as (_ & _ & o & Hs & Ho).
  fold t in Hs. rewrite (outcomes_of_signals t _ o Hs Ho).
  rewrite Hs. apply last_snoc.
Qed.

End WorkerCourse.

Section WorkerExtras.
Context {World Data : Type} (env : Env World Data).
Import ProcessingThread.


(** X2. Merging happens at most once, and only over a complete load.
    [ExcelProcessor.process_files] is called at most once; when it is
    called, every input file has passed the accessibility check and has
    been loaded, in input order, the call receives exactly the tables the
    loads returned, one per file and in that order, together with the
    string values the worker was created with, and progress 70 has been
    emitted. If the call raises, nothing is saved, 70 is the last progress
    value and the run ends with [processing_error] carrying the text of the
    exception. *)
Theorem merge_once_over_all_files (files : list string)
    (string_values : gmap string string) (out : string) (w : World) :
  let t := fst (run env files string_values out w) in
  (length (merge_calls t) <= 1)%nat
  /\ forall tables values r,
       (tables, values, r) ∈ merge_calls t ->
       values = string_values
       /\ tables = loaded_tables t
       /\ length tables = length files
       /\ load_attempts t = files
       /\ accessibility_results t = passing files
       /\ 70 ∈ progress_values t
       /\ forall e, r = Raise e ->
            save_calls t = []
            /\ last (progress_values t) = Some 70
            /\ outcomes t
               = [processing_error ("Error during processing: " +:+ e)].
Proof.
  intros t.
  destruct (run_projections env files string_values out w)
    as (c & Hc & Ht & _). fold t in Ht. rewrite Ht.
  rewrite merge_calls_trace_of, accessibility_results_trace_of,
    save_calls_trace_of, outcomes_trace_of, loaded_tables_trace_of,
    load_attempts_trace_of, progress_values_trace_of.
  clear Ht t.
  destruct c as [e0|e0|k p0 res|ds p0 e0|ds e0|ds d e0|ds d m];
    cbn [possible] in Hc; (split; [cbn; lia|]); intros tables values r Hin.
  1-4: apply elem_of_nil in Hin; destruct Hin.
  all: apply list_elem_of_singleton in Hin; injection Hin as -> -> ->.
  all: rewrite snd_zip_le, fst_zip_take, take_ge by lia.
  all: do 6 (split; [reflexivity || assumption || set_solver|]).
  all: intros err E; try discriminate E.
  injection E as <-. repeat split.
  rewrite !app_assoc. apply last_snoc.
Qed.

(** X3. Saving happens at most once, and only with the merged table.
    [save_excel_file] is called at most once; when it is called, the merge
    has returned, and the call receives the table the merge returned and
    the output path the worker was created with. If the call returns, the
    run emits 100 and [processing_complete]; if it raises, 85 is the last
    progress value and the run ends with [processing_error] carrying the
    text of the exception. *)
Theorem save_once_with_merged_table (files : list string)
    (string_values : gmap string string) (out : string) (w : World) :
  let n := Z.of_nat (length files) in
  let t := fst (run env files string_values out w) in
  (length (save_calls t) <= 1)%nat
  /\ forall d p r,
       (d, p, r) ∈ save_calls t ->
       p = out
       /\ merge_calls t = [(loaded_tables t, string_values, Ok d)]
       /\ match r with
          | Ok _ =>
              progress_values t = expected_progress n
              /\ outcomes t = [processing_complete (success_message env n out)]
          | Raise e =>
              last (progress_values t) = Some 85
              /\ outcomes t
                 = [processing_error ("Error during processing: " +:+ e)]
          end.
Proof.
  intros n t.
  destruct (run_projections env files string_values out w)
    as (c & Hc & Ht & Hm & _). fold t in Ht. rewrite Ht.
  rewrite merge_calls_trace_of, save_calls_trace_of, outcomes_trace_of,
    loaded_tables_trace_of, progress_values_trace_of.
  fold n. clear Ht t.
  destruct c as [e0|e0|k p0 res|ds p0 e0|ds e0|ds d0 e0|ds d0 m];
    cbn [possible] in Hc; (split; [cbn; lia|]); intros d p r Hin.
  1-5: apply elem_of_nil in Hin; destruct Hin.
  all: apply list_elem_of_singleton in Hin; injection Hin as -> -> ->.
  all: rewrite snd_zip_le, length_zip_le by lia.
  all: repeat (split; [reflexivity|]).
  - split; [|reflexivity].
    change [70; 85] with ([70] ++ [85]). rewrite !app_assoc. apply last_snoc.
  - rewrite Hc, Hm. split; reflexivity.
Qed.

(** X4. A run succeeds exactly when no call failed. The last signal of a
    run is [processing_complete] if and only if every call the run made
    returned, and returned [True] where it is an accessibility check; if
    and only if the run emitted progress 100; and if and only if its one
    outcome is the message
    [Successfully processed <n> files and saved to <basename of output>!]. *)
Theorem success_iff_no_call_failed (files : list string)
    (string_values : gmap string string) (out : string) (w : World) :
  let n := Z.of_nat (length files) in
  let t := fst (run env files string_values out w) in
  (succeeded t <-> forallb call_ok (calls t) = true)
  /\ (succeeded t <-> 100 ∈ progress_values t)
  /\ (succeeded t <->
      outcomes t
      = [processing_complete
           ("Successfully processed " +:+ pretty n +:+ " files and saved to "
              +:+ basename env out +:+ "!")]).
Proof.
  intros n t.
  destruct (run_projections env files string_values out w)
    as (c & Hc & Ht & Hm & Hlast). fold t in Ht, Hlast.
  unfold succeeded. rewrite Hlast. rewrite Ht.
  rewrite (all_calls_ok_trace_of _ _ _ _ Hc), outcomes_trace_of,
    progress_values_trace_of.
  fold n. clear Ht Hlast t.
  assert (Hv : forall j : nat, (j <= length files)%nat ->
            ~ 100 ∈ validating_values n 0 (Z.of_nat j)).
  { intros j Hj Hin. pose proof (validating_values_bounded n j ltac:(lia)) as B.
    rewrite Forall_forall in B. specialize (B _ Hin). lia. }
  assert (Hl : forall j : nat, (j <= length files)%nat ->
            ~ 100 ∈ loading_values n 0 (Z.of_nat j)).
  { intros j Hj Hin. pose proof (loading_values_bounded n j ltac:(lia)) as B.
    rewrite Forall_forall in B. specialize (B _ Hin). lia. }
  assert (Hvn : ~ 100 ∈ validating_values n 0 n).
  { apply (Hv (length files)). lia. }
  assert (Hz : forall ds : list Data,
            ~ 100 ∈ loading_values n 0 (Z.of_nat (length (zip files ds)))).
  { intros ds. apply Hl. rewrite length_zip_with. lia. }
  destruct c as [e0|e0|k p0 res|ds p0 e0|ds e0|ds d0 e0|ds d0 m];
    cbn [possible hd_error] in *.
  7:{ subst m. unfold success_message.
      split; [|split]; split; intros _;
        first [reflexivity | eexists; reflexivity | idtac].
      rewrite !elem_of_app, !elem_of_cons. auto 10. }
  all: repeat split; try (intros [m E]; discriminate E);
    try (intros E; discriminate E).
  all: intros Hin; exfalso; rewrite ?elem_of_app in Hin.
  all: try (apply elem_of_nil in Hin; exact Hin).
  - apply (Hv (length (take k files))) in Hin; [exact Hin|].
    rewrite length_take. lia.
  - destruct Hin as [Hin|Hin]; [exact (Hvn Hin) | exact (Hz _ Hin)].
  - destruct Hin as [Hin|[Hin|Hin]];
      [exact (Hvn Hin) | exact (Hz _ Hin) |].
    apply list_elem_of_singleton in Hin. discriminate Hin.
  - destruct Hin as [Hin|[Hin|Hin]];
      [exact (Hvn Hin) | exact (Hz _ Hin) |].
    apply elem_of_cons in Hin as [Hin|Hin]; [discriminate Hin|].
    apply list_elem_of_singleton in Hin. discriminate Hin.
Qed.

(** X5. The calls of a run come in phase order: the two constructors, then
    accessibility checks, then loads, then the merge, then the save. No
    file is loaded before the last accessibility check, nothing is merged
    before the last load, and nothing is saved before the merge. *)
Theorem calls_in_phase_order (files : list string)
    (string_values : gmap string string) (out : string) (w : World) :
  let t := fst (run env files string_values out w) in
  StronglySorted le (phase_of <$> calls t).
Proof.
  intros t.
  destruct (run_projections env files string_values out w)
    as (c & _ & Ht & _). fold t in Ht. rewrite Ht.
  destruct (phases_trace_of files string_values out c) as (a & b & l & ->).
  assert (Hrep : forall k x, StronglySorted le (replicate k x)).
  { intros k x. induction k as [|k IH]; cbn; constructor; [exact IH|].
    apply Forall_replicate. lia. }
  assert (Htail : forall tail : list nat,
            StronglySorted le tail -> Forall (fun x => 3 <= x)%nat tail ->
            StronglySorted le
              (replicate a 0%nat ++ replicate b 1%nat ++ replicate l 2%nat
                 ++ tail)).
  { intros tail Hs Hge. rewrite Forall_forall in Hge.
    repeat (apply StronglySorted_app_2; [|apply Hrep|]); try exact Hs.
    all: intros x y Hx Hy; apply elem_of_replicate in Hx as [-> _];
      rewrite ?elem_of_app in Hy;
      repeat match goal with
      | H : _ \/ _ |- _ => destruct H as [H|H]
      | H : _ ∈ replicate _ _ |- _ => apply elem_of_replicate in H as [-> _]
      | H : ?z ∈ _ |- _ => pose proof (Hge z H); clear H
      end; lia. }
  destruct c; apply Htail; repeat constructor; lia.
Qed.

(** X6. The first failing call is the last call. Whatever call of a run
    raises, or is an accessibility check that does not return [True], every
    call before it returned, no call follows it, and the run does not
    succeed. *)
Theorem no_call_after_a_failure (files : list string)
    (string_values : gmap string string) (out : string) (w : World) :
  let t := fst (run env files string_values out w) in
  forall pre c post,
    calls t = pre ++ c :: post -> call_ok c = false ->
    post = [] /\ forallb call_ok pre = true /\ ~ succeeded t
    /\ exists message, outcomes t = [processing_error message].
Proof.
  intros t pre c post E Hbad.
  destruct (run_projections env files string_values out w)
    as (x & Hx & Ht & _ & Hlast). fold t in Ht, Hlast.
  unfold succeeded. rewrite Hlast. rewrite Ht in E |- *.
  rewrite outcomes_trace_of. clear Ht Hlast t.
  destruct (calls_trace_of files string_values out x) as (good & Hgood & Hc).
  rewrite Hc in E. clear Hc.
  assert (Hone : forall bad, failing_call string_values out x = [bad] ->
            post = [] /\ forallb call_ok pre = true).
  { intros bad Hb. rewrite Hb in E.
    destruct (failing_is_last (fun x => call_ok x = true) good pre post bad c
                Hgood) as (-> & _ & ->); [congruence | exact E |].
    split; [reflexivity|]. apply forallb_forall. intros y Hy.
    rewrite Forall_forall in Hgood. apply Hgood, list_elem_of_In, Hy. }
  destruct x as [e0|e0|k p0 res|ds p0 e0|ds e0|ds d0 e0|ds d0 m];
    cbn [failing_call hd_error] in *.
  7:{ rewrite app_nil_r in E. rewrite E, Forall_app, Forall_cons in Hgood.
      destruct Hgood as (_ & Hcok & _). congruence. }
  all: destruct (Hone _ eq_refl) as [-> Hpre].
  all: repeat split; try assumption; try (intros [m Em]; discriminate Em).
  all: eexists; reflexivity.
Qed.

End WorkerExtras.


Lemma merge_once_over_all_files_witness :
  let t := fst (ProcessingThread.run (Faulty.env 5) ["a.xlsx"; "b.xlsx"]
                  Sample.metadata "out.xlsx" tt) in
  load_attempts t = ["a.xlsx"; "b.xlsx"]
  /\ save_calls t = []
  /\ last (progress_values t) = Some 70
  /\ outcomes t = [processing_error "Error during processing: Too many rows"].
Proof.
  intros t.
  assert (E : (loaded_tables t, Sample.metadata,
               Raise "Too many rows" : result MergeEngine.Table)
              ∈ merge_calls t)
    by (vm_compute; apply list_elem_of_singleton; reflexivity).
  destruct (merge_once_over_all_files (Faulty.env 5) ["a.xlsx"; "b.xlsx"]
              Sample.metadata "out.xlsx" tt) as (_ & H).
  destruct (H _ _ _ E) as (_ & _ & _ & Hl & _ & _ & Hr).
  destruct (Hr _ eq_refl) as (Hs & Hp & Ho).
  split; [exact Hl|]. split; [exact Hs|]. split; [exact Hp | exact Ho].
Defined.

Lemma save_once_with_merged_table_witness :
  let t := fst (ProcessingThread.run (Faulty.env 100) ["a.xlsx"; "b.xlsx"]
                  Sample.metadata "readonly.xlsx" tt) in
  (exists d, merge_calls t = [(loaded_tables t, Sample.metadata, Ok d)])
  /\ last (progress_values t) = Some 85
  /\ outcomes t
     = [processing_error "Error during processing: Permission denied"].
Proof.
  intros t.
  destruct (save_calls t) as [|[[d p] r] rest] eqn:Es;
    [vm_compute in Es; discriminate Es|].
  assert (Er : r = Raise "Permission denied")
    by (vm_compute in Es; congruence).
  assert (E : (d, p, r) ∈ save_calls t) by (rewrite Es; left).
  destruct (save_once_with_merged_table (Faulty.env 100)
              ["a.xlsx"; "b.xlsx"] Sample.metadata "readonly.xlsx" tt)
    as (_ & H).
  destruct (H _ _ _ E) as (_ & Hm & Hr). subst r.
  split; [exists d; exact Hm | exact Hr].
Defined.

Lemma success_iff_no_call_failed_witness :
  let t := fst (ProcessingThread.run Sample.env Sample.three_files
                  Sample.metadata "out.xlsx" tt) in
  forallb call_ok (calls t) = true
  /\ outcomes t
     = [processing_complete
          "Successfully processed 3 files and saved to out.xlsx!"].
Proof.
  intros t.
  assert (E : 100 ∈ progress_values t)
    by (apply list_elem_of_In; vm_compute; auto 20).
  destruct (success_iff_no_call_failed Sample.env Sample.three_files
              Sample.metadata "out.xlsx" tt) as (Hc & Hp & Ho).
  fold t in Hc, Hp, Ho.
  split; [apply Hc, Hp, E|]. rewrite (proj1 Ho (proj2 Hp E)).
  vm_compute. reflexivity.
Defined.

Lemma no_call_after_a_failure_witness :
  let t := fst (ProcessingThread.run (Faulty.env 100)
                  ["a.xlsx"; "corrupt.xlsx"; "c.xlsx"] Sample.metadata
                  "out.xlsx" tt) in
  ~ succeeded t /\ exists message, outcomes t = [processing_error message].
Proof.
  intros t.
  assert (E : calls t
              = [FileHandler_call (Ok tt); ExcelProcessor_call (Ok tt);
                 validate_file_accessibility_call "a.xlsx" (Ok true);
                 validate_file_accessibility_call "corrupt.xlsx" (Ok true);
                 validate_file_accessibility_call "c.xlsx" (Ok true);
                 load_excel_file_call "a.xlsx" (Ok (Sample.table "a.xlsx"))]
                  ++ load_excel_file_call "corrupt.xlsx"
                       (Raise "File is corrupt") :: [])
    by (vm_compute; reflexivity).
  destruct (no_call_after_a_failure (Faulty.env 100)
              ["a.xlsx"; "corrupt.xlsx"; "c.xlsx"] Sample.metadata
              "out.xlsx" tt _ _ _ E eq_refl) as (_ & _ & Hn & Ho).
  split; [exact Hn | exact Ho].
Defined.

(** ** The drop area *)

Section DropFacts.
Context {World Data : Type} (env : Env World Data).

Lemma validity_results_cons_call (p : string) (r : result bool)
    (t : list (event Data)) :
  validity_results (Call (is_valid_excel_file_call p r) :: t)
  = (p, r) :: validity_results t.
Proof. reflexivity. Qed.

Lemma accepted_app (rs1 rs2 : list (string * result bool)) :
  accepted (rs1 ++ rs2) = accepted rs1 ++ accepted rs2.
Proof. apply omap_app. Qed.

Lemma accepted_answered_true (rs : list (string * result bool)) (p : string) :
  p ∈ accepted rs <-> (p, Ok true) ∈ rs.
Proof.
  unfold accepted. rewrite list_elem_of_omap. split.
  - intros ([q [[|]|e]] & Hin & E); cbn in E; try discriminate E.
    injection E as ->. exact Hin.
  - intros Hin. exists (p, Ok true). split; [exact Hin | reflexivity].
Qed.

(** When every check returned, the paths answered [True] and the paths
    answered [False] are the paths asked about. *)
Lemma accepted_refused_all (rs : list (string * result bool)) :
  Forall (fun pr => exists b, snd pr = Ok b) rs ->
  accepted rs ++ refused rs ≡ₚ fst <$> rs.
Proof.
  induction 1 as [|[p r] rs [b Hb] _ IH]; [reflexivity|].
  cbn in Hb. subst r. destruct b; cbn.
  - constructor. exact IH.
  - etransitivity; [symmetry; apply Permutation_middle|].
    constructor. exact IH.
Qed.

(** The loop of [dropEvent] and [browse_files]: only validity checks are
    made; when all of them return, the two lists grow by the paths answered
    [True] and by the base names of the paths answered [False]. *)
Lemma classify_results (paths files invalid : list string) (w : World) :
  let '(r, t, _) := FileDropArea.classify env paths files invalid w in
  let answers := validity_results t in
  signals t = [] /\ length (calls t) = length answers
  /\ match r with
     | Ok (fs, inv) =>
         fst <$> answers = paths
         /\ Forall (fun pr => exists b, snd pr = Ok b) answers
         /\ fs = files ++ accepted answers
         /\ inv = invalid ++ (basename env <$> refused answers)
     | Raise e =>
         (fst <$> answers) `prefix_of` paths
         /\ exists p, last answers = Some (p, Raise e)
     end.
Proof.
  revert files invalid w.
  induction paths as [|p rest IH]; intros files invalid w.
  - cbn. rewrite !app_nil_r. repeat split. constructor.
  - cbn [FileDropArea.classify]. unfold bind at 1. unfold extern.
    destruct (is_valid_excel_file env p w) as [[ok|e] w1].
    + set (fs' := if ok then files ++ [p] else files).
      set (inv' := if ok then invalid else invalid ++ [basename env p]).
      replace ((if ok
                then FileDropArea.classify env rest (files ++ [p]) invalid
                else FileDropArea.classify env rest files
                       (invalid ++ [basename env p])) w1)
        with (FileDropArea.classify env rest fs' inv' w1)
        by (subst fs' inv'; destruct ok; reflexivity).
      specialize (IH fs' inv' w1).
      destruct (FileDropArea.classify env rest fs' inv' w1) as [[r t] w2].
      cbn zeta in IH |- *. destruct IH as (Hs & Hlen & Hr).
      change ([Call (is_valid_excel_file_call p (Ok ok))] ++ t)
        with (Call (is_valid_excel_file_call p (Ok ok)) :: t).
      rewrite validity_results_cons_call.
      split; [exact Hs|]. split; [cbn; f_equal; exact Hlen|].
      destruct r as [[fs inv]|e].
      * destruct Hr as (Hp & Hall & Hfs & Hinv).
        split; [cbn; f_equal; exact Hp|].
        split; [constructor; [exists ok; reflexivity | exact Hall]|].
        subst fs inv fs' inv'. destruct ok; cbn;
          rewrite <- ?app_assoc; split; reflexivity.
      * destruct Hr as (Hp & q & Hq). split; [apply prefix_cons, Hp|].
        exists q. destruct (validity_results t); [discriminate Hq|].
        exact Hq.
    + cbn. repeat split; [apply prefix_cons, prefix_nil|].
      exists p. reflexivity.
Qed.

(** X7. What a drop emits. [dropEvent] asks [is_valid_excel_file] about
    the dropped paths in drop order and makes no other call. When every
    check returns, each dropped path is among the accepted or the skipped
    ones, [files_dropped] is emitted with exactly the paths answered [True],
    in drop order, and never with an empty list, [file_list] shows their
    base names, and the paths answered [False] are reported by base name;
    when no path is answered [True], nothing is emitted, [file_list] is
    left as it is and the warning [Invalid Files] is shown. A check that
    raises ends the drop with that exception. *)
Theorem dropEvent_emits_accepted_files (urls : list string) (w : World) :
  let '(r, t, _) := DropArea.dropEvent env urls w in
  let answers := validity_results t in
  signals t = [] /\ length (calls t) = length answers
  /\ (fst <$> answers) `prefix_of` urls
  /\ match r with
     | Raise e => exists p, last answers = Some (p, Raise e)
     | Ok s =>
         fst <$> answers = urls
         /\ accepted answers ++ refused answers ≡ₚ urls
         /\ DropArea.files_dropped s ≠ Some []
         /\ (forall files, DropArea.files_dropped s = Some files ->
               files = accepted answers
               /\ DropArea.file_list s
                  = Some (Py.join Py.newline (basename env <$> files)))
         /\ (DropArea.files_dropped s = None ->
               accepted answers = []
               /\ DropArea.file_list s = None
               /\ DropArea.box s
                  = Some (QMessageBox_warning "Invalid Files"
                            "Please drop only valid Excel files (.xls, .xlsx)"))
         /\ (DropArea.box s = None <->
               accepted answers ≠ [] /\ refused answers = [])
         /\ (accepted answers ≠ [] -> refused answers ≠ [] ->
               DropArea.box s
               = Some (QMessageBox_warning "Some Invalid Files"
                         ("The following files were skipped (not valid Excel files):"
                            +:+ Py.newline
                            +:+ Py.join Py.newline
                                  (basename env <$> refused answers))))
     end.
Proof.
  unfold DropArea.dropEvent, bind, ret.
  pose proof (classify_results urls [] [] w) as H.
  destruct (FileDropArea.classify env urls [] [] w) as [[[[fs inv]|e] t] w1];
    cbn zeta in H |- *; rewrite ?app_nil_r.
  - destruct H as (Hs & Hlen & Hp & Hall & -> & ->). cbn [fst snd app].
    split; [exact Hs|]. split; [exact Hlen|].
    split; [rewrite Hp; reflexivity|]. split; [exact Hp|].
    split; [rewrite <- Hp; apply accepted_refused_all, Hall|].
    unfold DropArea.report.
    destruct (accepted (validity_results t)) as [|a acc];
      [|destruct (refused (validity_results t)) as [|b ref]]; cbn.
    all: repeat match goal with
           | |- _ /\ _ => split
           | |- _ <-> _ => split
           | |- forall _, _ => intros ?
           | H : Some _ = Some _ |- _ => injection H as <-
           | H : _ /\ _ |- _ => destruct H
           end; try discriminate; try congruence; try reflexivity.
  - destruct H as (Hs & Hlen & Hp & Hlast). repeat split; assumption.
Qed.

(** X8. Browsing is dropping the selection. When the file dialog returns
    no file, [browse_files] checks nothing and shows nothing. Otherwise it
    makes the same checks as a drop of the selected files, emits
    [files_dropped] with the same list and sets the same text in
    [file_list]; a message box is shown in the same cases, with other
    texts. *)
Theorem browse_files_as_dropEvent (files : list string) (w : World) :
  DropArea.browse_files env [] w = (Ok DropArea.nothing, [], w)
  /\ (files ≠ [] ->
      let '(r1, t1, w1) := DropArea.dropEvent env files w in
      let '(r2, t2, w2) := DropArea.browse_files env files w in
      t2 = t1 /\ w2 = w1
      /\ match r1, r2 with
         | Ok s1, Ok s2 =>
             DropArea.files_dropped s2 = DropArea.files_dropped s1
             /\ DropArea.file_list s2 = DropArea.file_list s1
             /\ (DropArea.box s2 = None <-> DropArea.box s1 = None)
             /\ (DropArea.files_dropped s2 = None ->
                   DropArea.box s2
                   = Some (QMessageBox_warning "No Valid Files"
                             "No valid Excel files were selected."))
         | Raise e1, Raise e2 => e2 = e1
         | _, _ => False
         end).
Proof.
  split; [reflexivity|]. intros Hne.
  destruct files as [|f rest]; [congruence|].
  unfold DropArea.dropEvent, DropArea.browse_files, bind, ret.
  destruct (FileDropArea.classify env (f :: rest) [] [] w)
    as [[[[fs inv]|e] t] w1]; [|repeat split].
  cbn [fst snd]. unfold DropArea.report.
  destruct fs as [|a fs]; [|destruct inv as [|b inv]]; cbn;
    repeat split; congruence.
Qed.

End DropFacts.

Lemma dropEvent_emits_accepted_files_witness :
  let '(r, t, _) := DropArea.dropEvent Sample.env
                      ["a.xlsx"; "notes.txt"; "b.xlsx"] tt in
  accepted (validity_results t) = ["a.xlsx"; "b.xlsx"]
  /\ exists s, r = Ok s
     /\ DropArea.file_list s = Some ("a.xlsx" +:+ Py.newline +:+ "b.xlsx").
Proof.
  pose proof (dropEvent_emits_accepted_files Sample.env
                ["a.xlsx"; "notes.txt"; "b.xlsx"] tt) as H.
  destruct (DropArea.dropEvent Sample.env ["a.xlsx"; "notes.txt"; "b.xlsx"] tt)
    as [[r t] w] eqn:E.
  assert (Er : exists s, r = Ok s
                 /\ DropArea.files_dropped s = Some ["a.xlsx"; "b.xlsx"]).
  { vm_compute in E. injection E as <- _ _. eexists. split; reflexivity. }
  destruct Er as (s & -> & Hs). cbn zeta in H.
  destruct H as (_ & _ & _ & _ & _ & _ & Hf & _).
  destruct (Hf _ Hs) as [Ha Hl]. split; [symmetry; exact Ha|].
  exists s. split; [reflexivity|]. rewrite Hl. vm_compute. reflexivity.
Defined.

Lemma browse_files_as_dropEvent_witness :
  let '(_, t1, _) := DropArea.dropEvent Sample.env ["a.xlsx"; "notes.txt"] tt in
  let '(_, t2, _) := DropArea.browse_files Sample.env ["a.xlsx"; "notes.txt"] tt
  in t2 = t1.
Proof.
  pose proof (proj2 (browse_files_as_dropEvent Sample.env
                       ["a.xlsx"; "notes.txt"] tt)) as H.
  destruct (DropArea.dropEvent Sample.env ["a.xlsx"; "notes.txt"] tt)
    as [[r1 t1] w1].
  destruct (DropArea.browse_files Sample.env ["a.xlsx"; "notes.txt"] tt)
    as [[r2 t2] w2].
  apply H. discriminate.
Defined.

(** ** The string fields *)

Section FieldFacts.
Import MainWindow.

Lemma rstrip_last (s init : string) (c : ascii) :
  Py.rstrip s = init +:+ String c "" -> Py.isspace c = false.
Proof.
  revert init. induction s as [|a s IH]; intros init E.
  - destruct init; discriminate E.
  - rewrite rstrip_unfold in E. destruct (Py.rstrip s) as [|b r] eqn:Er.
    + destruct (Py.isspace a) eqn:Ea; [destruct init; discriminate E|].
      destruct init as [|i init]; cbn in E.
      * injection E as <-. exact Ea.
      * injection E as _ E. destruct init; discriminate E.
    + destruct init as [|i init]; cbn in E.
      * injection E as _ E. discriminate E.
      * injection E as _ E. apply (IH init). exact E.
Qed.

Lemma strip_head (s : string) :
  match Py.strip s with
  | EmptyString => True
  | String c _ => Py.isspace c = false
  end.
Proof.
  unfold Py.strip. pose proof (lstrip_head s) as H.
  destruct (Py.lstrip s) as [|c u]; [exact I|].
  destruct (rstrip_cons c u H) as [r ->]. exact H.
Qed.

(** The loop of [get_string_values] over any items and any dictionary to
    start from: the last item with key [k] decides the value at [k]. *)
Lemma strip_items_lookup (items : list (string * string))
    (values : gmap string string) (k : string) :
  foldl (fun values item => <[fst item := Py.strip (snd item)]> values)
    values items !! k
  = match last (filter (fun item => fst item = k) items) with
    | Some item => Some (Py.strip (snd item))
    | None => values !! k
    end.
Proof.
  revert values. induction items as [|[k' text] rest IH]; intros values.
  - reflexivity.
  - cbn [foldl]. rewrite IH. cbn [fst snd].
    destruct (decide (k' = k)) as [->|Hne].
    + rewrite filter_cons_True by reflexivity.
      destruct (filter (fun item => fst item = k) rest) as [|i l] eqn:E.
      * cbn. apply lookup_insert_eq.
      * rewrite last_cons_cons.
        destruct (last (i :: l)) as [x|] eqn:El; [reflexivity|].
        apply last_None in El. discriminate El.
    + rewrite filter_cons_False by exact Hne.
      destruct (last (filter (fun item => fst item = k) rest));
        [reflexivity|]. apply lookup_insert_ne, Hne.
Qed.

Lemma unique_key (items : list (string * string)) (k a b : string) :
  NoDup (fst <$> items) -> (k, a) ∈ items -> (k, b) ∈ items -> a = b.
Proof.
  induction items as [|[k' c] rest IH]; intros Hnd Ha Hb.
  - apply elem_of_nil in Ha. destruct Ha.
  - cbn in Hnd. apply NoDup_cons in Hnd as [Hk Hnd].
    apply elem_of_cons in Ha as [Ha|Ha]; apply elem_of_cons in Hb as [Hb|Hb].
    + congruence.
    + injection Ha as -> ->. destruct Hk.
      apply list_elem_of_fmap. exists (k', b). split; [reflexivity | exact Hb].
    + injection Hb as -> ->. destruct Hk.
      apply list_elem_of_fmap. exists (k', a). split; [reflexivity | exact Ha].
    + apply IH; assumption.
Qed.

(** X9. The string values are the trimmed texts. [get_string_values]
    returns a dictionary with exactly the keys of [self.string_fields];
    every value is the text of a field with that key with leading and
    trailing whitespace removed: it does not start or end with a whitespace
    character, and trimming it again changes nothing. When the keys are
    distinct, as the keys of a dictionary are, every field is there with
    its trimmed text. *)
Theorem get_string_values_trimmed (self : state) :
  let values := get_string_values self in
  (forall k, is_Some (values !! k) <-> k ∈ fst <$> string_fields self)
  /\ (forall k v, values !! k = Some v ->
        (exists text, (k, text) ∈ string_fields self /\ v = Py.strip text)
        /\ Py.strip v = v
        /\ (forall c rest, v = String c rest -> Py.isspace c = false)
        /\ (forall init c, v = init +:+ String c "" -> Py.isspace c = false))
  /\ (NoDup (fst <$> string_fields self) ->
      forall k text, (k, text) ∈ string_fields self ->
        values !! k = Some (Py.strip text)).
Proof.
  intros values.
  assert (Hv : forall k, values !! k
            = (fun item => Py.strip (snd item))
                <$> last (filter (fun item => fst item = k)
                            (string_fields self))).
  { intros k. unfold values, get_string_values.
    rewrite strip_items_lookup, lookup_empty.
    destruct (last _); reflexivity. }
  assert (Hlast : forall k item,
            last (filter (fun item => fst item = k) (string_fields self))
            = Some item ->
            item ∈ string_fields self /\ fst item = k).
  { intros k item E. apply last_Some_elem_of, list_elem_of_filter in E.
    destruct E; split; assumption. }
  split; [|split].
  - intros k. rewrite Hv, list_elem_of_fmap. split.
    + intros [v E].
      destruct (last _) as [item|] eqn:El; [|discriminate E].
      destruct (Hlast _ _ El) as [Hin Hk]. exists item. auto.
    + intros (item & Hk & Hin).
      destruct (filter (fun item => fst item = k) (string_fields self))
        as [|i l] eqn:Ef.
      * assert (Hf : item ∈ filter (fun item => fst item = k)
                         (string_fields self))
          by (apply list_elem_of_filter; auto).
        rewrite Ef in Hf. apply elem_of_nil in Hf. destruct Hf.
      * destruct (last (i :: l)) as [x|] eqn:El; [eexists; reflexivity|].
        apply last_None in El. discriminate El.
  - intros k v E. rewrite Hv in E.
    destruct (last _) as [[k' text]|] eqn:El; [|discriminate E].
    destruct (Hlast _ _ El) as [Hin Hk]. cbn in Hk, E. subst k'.
    injection E as <-. split; [exists text; auto|].
    split; [apply strip_idemp|]. split.
    + intros c rest Ec. pose proof (strip_head text) as Hh.
      unfold Py.strip in Hh. rewrite Ec in Hh. exact Hh.
    + intros init c Ec. apply (rstrip_last (Py.lstrip text) init). exact Ec.
  - intros Hnd k text Hin. rewrite Hv.
    destruct (last _) as [[k' text']|] eqn:El.
    + destruct (Hlast _ _ El) as [Hin' Hk]. cbn in Hk. subst k'. cbn.
      rewrite (unique_key _ _ _ _ Hnd Hin' Hin). reflexivity.
    + apply last_None in El.
      assert (Hf : (k, text) ∈ filter (fun item => fst item = k)
                       (string_fields self))
        by (apply list_elem_of_filter; auto).
      rewrite El in Hf. apply elem_of_nil in Hf. destruct Hf.
Qed.

Lemma chars_append (a b : string) :
  String.list_ascii_of_string (a +:+ b)
  = (String.list_ascii_of_string a ++ String.list_ascii_of_string b)%list.
Proof.
  induction a as [|c a IH]; [reflexivity|].
  change (String c a +:+ b) with (String c (a +:+ b)).
  cbn [String.list_ascii_of_string]. rewrite IH. reflexivity.
Qed.

Lemma chars_replace (old : ascii) (new s : string) (c : ascii) :
  In c (String.list_ascii_of_string (Py.replace old new s)) ->
  In c (String.list_ascii_of_string new) \/ (In c (String.list_ascii_of_string s) /\ c <> old).
Proof.
  induction s as [|a s IH]; cbn; [tauto|].
  destruct (Ascii.eqb a old) eqn:E.
  - rewrite chars_append, in_app_iff. intros [H|H]; [auto|].
    destruct (IH H) as [|[]]; auto.
  - apply Ascii.eqb_neq in E. cbn. intros [<-|H]; [auto|].
    destruct (IH H) as [|[]]; auto.
Qed.

Lemma chars_lower (s : string) :
  String.list_ascii_of_string (Py.lower s)
  = List.map Py.lower_char (String.list_ascii_of_string s).
Proof. induction s as [|a s IH]; cbn; [reflexivity|]. f_equal. exact IH. Qed.

Lemma replace_absent (old : ascii) (new s : string) :
  (forall c, In c (String.list_ascii_of_string s) -> c <> old) ->
  Py.replace old new s = s.
Proof.
  induction s as [|a s IH]; intros H; cbn; [reflexivity|].
  destruct (Ascii.eqb a old) eqn:E.
  - apply Ascii.eqb_eq in E. destruct (H a); [left; reflexivity | exact E].
  - f_equal. apply IH. intros c Hc. apply H. right. exact Hc.
Qed.

Lemma lower_fixed (s : string) :
  (forall c, In c (String.list_ascii_of_string s) -> Py.lower_char c = c) ->
  Py.lower s = s.
Proof.
  induction s as [|a s IH]; intros H; cbn; [reflexivity|]. f_equal.
  - apply H. left. reflexivity.
  - apply IH. intros c Hc. apply H. right. exact Hc.
Qed.

Lemma lower_char_idemp (c : ascii) :
  Py.lower_char (Py.lower_char c) = Py.lower_char c.
Proof. destruct c as [[] [] [] [] [] [] [] []]; reflexivity. Qed.

(** No character is lowered to a colon or to a space but the colon and the
    space. *)
Lemma lower_char_separator (c : ascii) :
  (Py.lower_char c = ":"%char -> c = ":"%char)
  /\ (Py.lower_char c = " "%char -> c = " "%char).
Proof.
  destruct c as [[] [] [] [] [] [] [] []]; split; intros H;
    first [reflexivity | discriminate H].
Qed.

(** X10. The key of a field. Whatever the label, the key
    [label.replace(':', '').replace(' ', '_').lower()] contains no colon
    and no space, every character of it is its own lower case, and the key
    of the key is the key. *)
Theorem field_key_normal (label : string) :
  let key := field_key label in
  (forall c, In c (String.list_ascii_of_string key) ->
     c <> ":"%char /\ c <> " "%char /\ Py.lower_char c = c)
  /\ field_key key = key.
Proof.
  intros key.
  assert (H : forall c, In c (String.list_ascii_of_string key) ->
            c <> ":"%char /\ c <> " "%char /\ Py.lower_char c = c).
  { intros c Hc. unfold key, field_key in Hc.
    rewrite chars_lower in Hc. apply in_map_iff in Hc as (c' & <- & Hc).
    assert (Hc' : c' <> ":"%char /\ c' <> " "%char).
    { apply chars_replace in Hc as [Hc|[Hc Hsp]].
      - cbn in Hc. destruct Hc as [<-|[]]. split; discriminate.
      - apply chars_replace in Hc as [[]|[_ Hcol]]. split; assumption. }
    destruct Hc' as [Hcol Hsp].
    destruct (lower_char_separator c') as [H1 H2].
    split; [intros E; apply Hcol, H1, E|].
    split; [intros E; apply Hsp, H2, E|]. apply lower_char_idemp. }
  split; [exact H|]. fold key. unfold field_key.
  rewrite (replace_absent ":" "" key) by (intros c Hc; apply (H c Hc)).
  rewrite (replace_absent " " "_" key) by (intros c Hc; apply (H c Hc)).
  apply lower_fixed. intros c Hc. apply (H c Hc).
Qed.

End FieldFacts.

Lemma get_string_values_trimmed_witness :
  MainWindow.get_string_values
    {| MainWindow.input_files := [];
       MainWindow.output_path := "";
       MainWindow.string_fields :=
         [("analyst", "  Ann Lee "); ("version", "2")] |}
    !! "analyst" = Some "Ann Lee".
Proof.
  apply (proj2 (proj2 (get_string_values_trimmed
                         {| MainWindow.input_files := [];
                            MainWindow.output_path := "";
                            MainWindow.string_fields :=
                              [("analyst", "  Ann Lee "); ("version", "2")] |}))
           ltac:(cbn;
                 repeat (apply NoDup_cons; split;
                         [rewrite ?elem_of_cons, elem_of_nil;
                          intuition discriminate|]);
                 apply NoDup_nil; exact I)
           "analyst" "  Ann Lee ").
  left.
Defined.

Lemma field_key_normal_witness :
  Py.lower_char "r" = "r"%char.
Proof.
  apply (proj1 (field_key_normal "Report Date:") "r"%char).
  vm_compute. auto.
Defined.

(** ** The slots of the window *)

Section WindowFacts.
Context {World Data : Type} (env : Env World Data) (desk : Desktop World).
Import MainWindow Window.

(** When [MainWindow.process_files] starts a worker, it hands over the
    attributes of the window, both guards have passed and the validator has
    found nothing. *)
Lemma process_files_start (s : state) (files : list string)
    (string_values : gmap string string) (out : string) :
  MainWindow.process_files env s = start files string_values out ->
  files = input_files s /\ string_values = get_string_values s
  /\ out = output_path s
  /\ input_files s <> [] /\ output_path s <> ""
  /\ validate_string_inputs env (get_string_values s) = [].
Proof.
  unfold MainWindow.process_files.
  destruct (input_files s) as [|f fs]; [discriminate|].
  destruct (output_path s) as [|c o]; [discriminate|].
  destruct (validate_string_inputs env (get_string_values s)) as [|e es];
    [|discriminate].
  intros E. injection E as <- <- <-. repeat split; discriminate.
Qed.

Lemma process_files_starts (s : state) :
  input_files s <> [] -> output_path s <> "" ->
  validate_string_inputs env (get_string_values s) = [] ->
  MainWindow.process_files env s
  = start (input_files s) (get_string_values s) (output_path s).
Proof.
  unfold MainWindow.process_files. intros Hf Ho Hv.
  destruct (input_files s) as [|f fs]; [congruence|].
  destruct (output_path s) as [|c o]; [congruence|].
  rewrite Hv. reflexivity.
Qed.

Lemma can_process_ready (s : state) :
  can_process s = true <-> input_files s <> [] /\ output_path s <> "".
Proof.
  unfold can_process. destruct (input_files s), (output_path s);
    split; try discriminate; try (intros [? ?]; congruence).
  all: intros _; split; discriminate.
Qed.

Lemma stylesheet_or_not_empty (name default : string) :
  default <> "" -> stylesheet_or desk name default <> "".
Proof.
  intros H. unfold stylesheet_or.
  destruct (get_stylesheet desk name) as [[|c s]|];
    [exact H | discriminate | exact H].
Qed.

Lemma update_process_button_state_enabled (ui : widgets) :
  self (update_process_button_state desk ui) = self ui
  /\ process_btn_enabled (update_process_button_state desk ui)
     = can_process (self ui)
  /\ progress_bar_visible (update_process_button_state desk ui)
     = progress_bar_visible ui
  /\ boxes (update_process_button_state desk ui) = boxes ui
  /\ output_path_label (update_process_button_state desk ui)
     = output_path_label ui.
Proof.
  unfold update_process_button_state.
  destruct (can_process (self ui)); repeat split.
Qed.

Lemma self_on_files_selected (files : list string) (ui : widgets) :
  self (on_files_selected desk files ui)
  = {| input_files := files;
       output_path := output_path (self ui);
       string_fields := string_fields (self ui) |}.
Proof.
  unfold on_files_selected.
  set (ui1 := set_self _ ui).
  destruct (update_process_button_state_enabled ui1) as (Hs & _).
  cbn. rewrite Hs. reflexivity.
Qed.

Lemma deliver_all_app (reply : bool) (ss1 ss2 : list signal) (ui : widgets)
    (w : World) :
  deliver_all desk reply (ss1 ++ ss2) ui w
  = let '(ui1, made1, w1) := deliver_all desk reply ss1 ui w in
    let '(ui2, made2, w2) := deliver_all desk reply ss2 ui1 w1 in
    (ui2, made1 ++ made2, w2).
Proof.
  revert ui w. induction ss1 as [|s ss1 IH]; intros ui w; cbn [app deliver_all].
  - destruct (deliver_all desk reply ss2 ui w) as [[ui2 made2] w2].
    reflexivity.
  - destruct (deliver desk reply s ui w) as [[ui1 made1] w1].
    rewrite IH.
    destruct (deliver_all desk reply ss1 ui1 w1) as [[ui2 made2] w2].
    destruct (deliver_all desk reply ss2 ui2 w2) as [[ui3 made3] w3].
    rewrite app_assoc. reflexivity.
Qed.

(** Progress signals reach the progress bar only: it shows the last one. *)
Lemma deliver_all_progress (reply : bool) (ps : list Z) (ui : widgets)
    (w : World) :
  deliver_all desk reply (progress_updated <$> ps) ui w
  = (match last ps with Some v => setValue v ui | None => ui end, [], w).
Proof.
  revert ui. induction ps as [|v ps IH]; intros ui; [reflexivity|].
  cbn [fmap list_fmap deliver_all deliver]. rewrite IH, last_cons. clear IH.
  destruct (last ps); reflexivity.
Qed.

(** X11. The process button is enabled exactly when a click passes the
    guards. After [update_process_button_state], the button is enabled if
    and only if there are input files and an output path, which is if and
    only if a click on it does not end in the warning [No Files] or
    [No Output Location]: it starts the worker or reports an invalid
    configuration. An enabled button has a style sheet that is not
    empty. *)
Theorem button_enabled_iff_click_passes_guards (ui : widgets) :
  let ui' := update_process_button_state desk ui in
  self ui' = self ui
  /\ (process_btn_enabled ui' = true <->
      input_files (self ui) <> [] /\ output_path (self ui) <> "")
  /\ (process_btn_enabled ui' = true <->
      match MainWindow.process_files env (self ui) with
      | start _ _ _ => True
      | warning title _ => title = "Invalid Configuration"
      end)
  /\ (process_btn_enabled ui' = true -> process_btn_style ui' <> "").
Proof.
  intros ui'.
  destruct (update_process_button_state_enabled ui) as (Hs & He & _).
  fold ui' in Hs, He. split; [exact Hs|]. rewrite He.
  split; [apply can_process_ready|]. split.
  - unfold can_process, MainWindow.process_files.
    destruct (input_files (self ui)) as [|f fs];
      [split; discriminate|].
    destruct (output_path (self ui)) as [|c o]; [split; discriminate|].
    destruct (validate_string_inputs env _); split; auto.
  - intros Hc. unfold ui', update_process_button_state. rewrite Hc. cbn.
    apply stylesheet_or_not_empty. discriminate.
Qed.

(** X12. Selecting files while the worker runs enables the button again.
    When a click has started a worker, the process button is disabled and
    the progress bar is shown at 0; if a list of files that is not empty
    is then selected, [on_files_selected] enables the button although the
    worker has not finished, and another click starts a second worker, on
    the new files, with the same string values and output path. *)
Theorem selection_during_run_enables_button (ui ui1 : widgets)
    (files : list string)
    (args : list string * gmap string string * string) :
  files <> [] ->
  process_files env ui = (ui1, Some args) ->
  process_btn_enabled ui1 = false
  /\ progress_bar_visible ui1 = true
  /\ progress_bar_value ui1 = 0
  /\ let ui2 := on_files_selected desk files ui1 in
     process_btn_enabled ui2 = true
     /\ progress_bar_visible ui2 = true
     /\ exists ui3,
          process_files env ui2
          = (ui3, Some (files, snd (fst args), snd args)).
Proof.
  intros Hne. unfold process_files at 1.
  destruct (MainWindow.process_files env (self ui)) as [title text|fs sv out]
    eqn:Ep; [discriminate|].
  intros E. injection E as <- <-.
  destruct (process_files_start _ _ _ _ Ep) as (-> & -> & -> & Hf & Ho & Hv).
  repeat split.
  - unfold on_files_selected. cbn.
    destruct (update_process_button_state_enabled
                (set_self {| input_files := files;
                             output_path := output_path (self ui);
                             string_fields := string_fields (self ui) |}
                   (showMessage "Processing files..."
                      (setValue 0 (setVisible true
                         (setEnabled false (process_btn_style ui) ui))))))
      as (_ & He & _).
    cbn in He. rewrite He. apply can_process_ready. cbn. auto.
  - unfold on_files_selected, update_process_button_state. cbn.
    destruct (can_process _); reflexivity.
  - unfold process_files.
    rewrite self_on_files_selected. cbn [self setVisible setEnabled
      setValue showMessage].
    rewrite process_files_starts; cbn; try assumption.
    eexists. reflexivity.
Qed.

(** X13. The output path changes only to a validated path. When the
    dialog is cancelled, [choose_output_location] changes nothing and asks
    nothing. Otherwise it asks [validate_output_path] about the chosen
    path, once. Only when the answer is [True] is the path stored; its base
    name is then shown and the button enabled if there are input files.
    When the answer is [False], the output path, its label and the button
    stay as they were and the warning [Invalid Output Path] is shown. The
    input files and the string fields are never changed. *)
Theorem output_path_set_only_when_valid (file_path : string) (ui : widgets)
    (w : World) :
  let '(r, made, w') := choose_output_location env desk file_path ui w in
  (file_path = "" -> r = Ok ui /\ made = [] /\ w' = w)
  /\ (file_path <> "" ->
      made = [validate_output_path_call file_path
                (fst (validate_output_path desk file_path w))]
      /\ w' = snd (validate_output_path desk file_path w))
  /\ match r with
     | Raise e => made = [validate_output_path_call file_path (Raise e)]
     | Ok ui' =>
         input_files (self ui') = input_files (self ui)
         /\ string_fields (self ui') = string_fields (self ui)
         /\ progress_bar_visible ui' = progress_bar_visible ui
         /\ (made = [validate_output_path_call file_path (Ok true)]
             /\ output_path (self ui') = file_path
             /\ output_path_label ui' = basename env file_path
             /\ boxes ui' = boxes ui
             /\ (process_btn_enabled ui' = true <->
                 input_files (self ui) <> [])
             \/ made <> [validate_output_path_call file_path (Ok true)]
                /\ output_path (self ui') = output_path (self ui)
                /\ output_path_label ui' = output_path_label ui
                /\ process_btn_enabled ui' = process_btn_enabled ui
                /\ (made = [] -> ui' = ui)
                /\ (made <> [] ->
                    boxes ui'
                    = boxes ui
                        ++ [QMessageBox_warning "Invalid Output Path"
                              "The selected output location is not accessible or the filename is invalid."]))
     end.
Proof.
  unfold choose_output_location.
  destruct file_path as [|c p].
  - split; [auto|]. split; [congruence|].
    repeat split. right. repeat split; congruence.
  - destruct (validate_output_path desk (String c p) w) as [[[|]|e] w1];
      cbn [fst snd].
    + split; [discriminate|]. split; [auto|].
      set (ui1 := setText _ _).
      destruct (update_process_button_state_enabled ui1)
        as (Hs & He & Hv & Hb & Hl).
      rewrite Hs, He, Hv, Hb, Hl. subst ui1. cbn.
      repeat split. left. repeat split.
      * rewrite can_process_ready. cbn. tauto.
      * rewrite can_process_ready. cbn. intros H. split; [exact H|discriminate].
    + split; [discriminate|]. split; [auto|]. cbn.
      repeat split. right. repeat split; congruence.
    + split; [discriminate|]. split; [auto|]. reflexivity.
Qed.

(** X14. The window after a run. A click that passes the guards and the
    validator runs the worker on the attributes of the window; when the
    signals of the run have been delivered, the process button is enabled
    again, the progress bar is hidden and holds the last progress value
    emitted, between 0 and 100 (0 if there was none). After
    [processing_complete] the bar holds 100, the status is
    [Processing complete!], the success message and the question
    [Open File?] have been shown, and [os.startfile] has been called, on the
    output path, exactly when the answer was Yes; if it raised, the warning
    [Cannot Open File] follows. After [processing_error] the status is
    [Processing failed!], the error message has been shown in one critical
    box and nothing was opened. A click that does not start the worker
    shows one warning and changes nothing else. *)
Theorem window_after_run (reply : bool) (ui : widgets) (w : World) :
  let '(ui', t, made, w') := clicked env desk reply ui w in
  self ui' = self ui
  /\ match MainWindow.process_files env (self ui) with
     | warning title text =>
         ui' = show_box (QMessageBox_warning title text) ui
         /\ t = [] /\ made = [] /\ w' = w
     | start files string_values out =>
         t = fst (ProcessingThread.run env files string_values out w)
         /\ out = output_path (self ui)
         /\ process_btn_enabled ui' = true
         /\ progress_bar_visible ui' = false
         /\ progress_bar_value ui' = default 0 (last (progress_values t))
         /\ 0 <= progress_bar_value ui' <= 100
         /\ match outcomes t with
            | [processing_complete message] =>
                progress_bar_value ui' = 100
                /\ status_message ui' = "Processing complete!"
                /\ exists opened,
                     boxes ui'
                     = boxes ui
                         ++ [QMessageBox_information "Success" message;
                             QMessageBox_question "Open File?"
                               "Would you like to open the generated file?"]
                         ++ opened
                     /\ if reply
                        then exists r,
                               made = [startfile_call out r]
                               /\ opened
                                  = match r with
                                    | Ok _ => []
                                    | Raise e =>
                                        [QMessageBox_warning "Cannot Open File"
                                           ("Could not open the output file:"
                                              +:+ Py.newline +:+ e)]
                                    end
                        else made = [] /\ opened = []
            | [processing_error error_message] =>
                status_message ui' = "Processing failed!"
                /\ made = []
                /\ boxes ui'
                   = boxes ui
                       ++ [QMessageBox_critical "Processing Error"
                             error_message]
            | _ => False
            end
     end.
Proof.
  unfold clicked, process_files.
  destruct (MainWindow.process_files env (self ui))
    as [title text|files sv out] eqn:Ep.
  - repeat split.
  - destruct (process_files_start _ _ _ _ Ep) as (_ & _ & Hout & _).
    pose proof (run_signals env files sv out w) as Hrun. cbv zeta in Hrun.
    destruct (ProcessingThread.run env files sv out w) as [t w1].
    cbn [fst] in Hrun. destruct Hrun as (Hpre & Hsucc & o & Hs & Ho).
    pose proof (outcomes_of_signals t _ o Hs Ho) as Hout1.
    assert (Hlast : last (signals t) = Some o) by (rewrite Hs; apply last_snoc).
    assert (Hb : 0 <= default 0 (last (progress_values t)) <= 100).
    { destruct (last (progress_values t)) as [v|] eqn:El; [|cbn; lia].
      apply last_Some_elem_of in El.
      destruct Hpre as [rest Hrest].
      pose proof (expected_progress_bounded (length files)) as B.
      rewrite Hrest, Forall_app, Forall_forall in B.
      destruct B as [B _]. exact (B _ El). }
    rewrite Hs, deliver_all_app, deliver_all_progress.
    set (ui1 := match last (progress_values t) with
                | Some v => setValue v _
                | None => _
                end).
    assert (Hval : progress_bar_value ui1
                   = default 0 (last (progress_values t)))
      by (subst ui1; destruct (last (progress_values t)); reflexivity).
    assert (Hself : self ui1 = self ui)
      by (subst ui1; destruct (last (progress_values t)); reflexivity).
    assert (Hbox : boxes ui1 = boxes ui)
      by (subst ui1; destruct (last (progress_values t)); reflexivity).
    clearbody ui1.
    destruct o as [v|message|error_message]; [discriminate Ho| |].
    + assert (H100 : default 0 (last (progress_values t)) = 100).
      { rewrite Hsucc by (exists message; exact Hlast).
        unfold expected_progress. rewrite !app_assoc.
        change ((validating_values (Z.of_nat (length files)) 0
                   (Z.of_nat (length files))
                   ++ loading_values (Z.of_nat (length files)) 0
                        (Z.of_nat (length files))) ++ [70; 85; 100])
          with ((validating_values (Z.of_nat (length files)) 0
                   (Z.of_nat (length files))
                   ++ loading_values (Z.of_nat (length files)) 0
                        (Z.of_nat (length files))) ++ [70; 85] ++ [100]).
        rewrite !app_assoc, last_snoc. reflexivity. }
      cbn [deliver_all deliver]. unfold on_processing_complete.
      destruct reply.
      * cbn [self setVisible setEnabled showMessage show_box].
        rewrite Hself, <- Hout.
        destruct (startfile desk out w1) as [[u|e] w2]; cbn;
          rewrite ?Hout1, ?Hself, ?Hval, ?Hbox, ?app_nil_r, <- ?app_assoc;
          (repeat split; try assumption; try (apply Hb));
          eexists; (split; [reflexivity|]); eexists;
          (split; reflexivity).
      * cbn. rewrite ?Hout1, ?Hself, ?Hval, ?Hbox, ?app_nil_r, <- ?app_assoc.
        repeat split; try assumption; try (apply Hb).
        exists []. repeat split.
    + cbn. rewrite ?Hout1, ?Hself, ?Hval, ?Hbox, ?app_nil_r.
      repeat split; try assumption; apply Hb.
Qed.

(** X15. The worker gets the files the drop area accepted. When the list
    emitted by a drop reaches [on_files_selected] and a click then starts
    the worker, the worker is created with exactly the dropped paths that
    [is_valid_excel_file] answered [True], in drop order and at least one,
    with the trimmed texts of the string fields, which the validator
    accepts, and with the output path of the window, which is not empty. *)
Theorem worker_gets_accepted_files (urls : list string) (ui : widgets)
    (w : World) :
  let '(r, t, _) := DropArea.dropEvent env urls w in
  forall s files ui' args,
    r = Ok s -> DropArea.files_dropped s = Some files ->
    process_files env (on_files_selected desk files ui) = (ui', Some args) ->
    args = (files, get_string_values (self ui), output_path (self ui))
    /\ files = accepted (validity_results t)
    /\ files <> []
    /\ Forall (fun p => (p, Ok true) ∈ validity_results t) files
    /\ validate_string_inputs env (get_string_values (self ui)) = []
    /\ output_path (self ui) <> "".
Proof.
  unfold DropArea.dropEvent, bind, ret.
  pose proof (classify_results env urls [] [] w) as H.
  destruct (FileDropArea.classify env urls [] [] w) as [[[[fs inv]|e] t] w1];
    cbn zeta in H |- *; rewrite ?app_nil_r; [|discriminate].
  destruct H as (_ & _ & _ & _ & -> & _). cbn [fst snd app].
  intros s files ui' args Es Ef Ep. injection Es as <-.
  unfold DropArea.report in Ef.
  destruct (accepted (validity_results t)) as [|a acc] eqn:Ea;
    [discriminate Ef|].
  cbn in Ef. injection Ef as <-.
  unfold process_files in Ep.
  rewrite self_on_files_selected in Ep.
  destruct (MainWindow.process_files env _) as [title text|f sv out] eqn:E;
    [discriminate Ep|].
  injection Ep as _ <-.
  destruct (process_files_start _ _ _ _ E) as (-> & -> & -> & _ & Ho & Hv).
  cbn in Ho, Hv |- *. repeat split; try assumption; try discriminate.
  rewrite <- Ea. apply Forall_forall. intros p Hp.
  apply accepted_answered_true. exact Hp.
Qed.

End WindowFacts.

Lemma button_enabled_iff_click_passes_guards_witness :
  Window.process_btn_enabled
    (Window.update_process_button_state SampleDesktop.desk SampleDesktop.ready)
  = true.
Proof.
  apply (proj2 (proj1 (proj2 (button_enabled_iff_click_passes_guards
                                Sample.env SampleDesktop.desk
                                SampleDesktop.ready)))).
  split; discriminate.
Defined.

Lemma selection_during_run_enables_button_witness :
  Window.process_btn_enabled
    (Window.on_files_selected SampleDesktop.desk ["d.xlsx"]
       (fst (Window.process_files Sample.env SampleDesktop.ready)))
  = true.
Proof.
  destruct (Window.process_files Sample.env SampleDesktop.ready)
    as [ui1 [args|]] eqn:E; [|vm_compute in E; discriminate E].
  assert (Hne : ["d.xlsx"] <> @nil string) by discriminate.
  exact (proj1 (proj2 (proj2 (proj2
           (selection_during_run_enables_button Sample.env SampleDesktop.desk
              SampleDesktop.ready ui1 ["d.xlsx"] args Hne E))))).
Defined.

Lemma output_path_set_only_when_valid_witness :
  Window.choose_output_location Sample.env SampleDesktop.desk ""
    SampleDesktop.ready tt
  = (Ok SampleDesktop.ready, [], tt).
Proof.
  pose proof (output_path_set_only_when_valid Sample.env SampleDesktop.desk ""
                SampleDesktop.ready tt) as H.
  destruct (Window.choose_output_location Sample.env SampleDesktop.desk ""
              SampleDesktop.ready tt) as [[r made] w'].
  destruct H as (H & _). destruct (H eq_refl) as (-> & -> & ->). reflexivity.
Defined.

Lemma worker_gets_accepted_files_witness :
  snd (Window.process_files Sample.env
         (Window.on_files_selected SampleDesktop.desk ["a.xlsx"; "b.xlsx"]
            SampleDesktop.ready))
  = Some (["a.xlsx"; "b.xlsx"], Sample.metadata, "out.xlsx").
Proof.
  pose proof (worker_gets_accepted_files Sample.env SampleDesktop.desk
                ["a.xlsx"; "notes.txt"; "b.xlsx"] SampleDesktop.ready tt)
    as H.
  destruct (DropArea.dropEvent Sample.env ["a.xlsx"; "notes.txt"; "b.xlsx"] tt)
    as [[r t] w] eqn:E.
  assert (Er : exists s, r = Ok s
                 /\ DropArea.files_dropped s = Some ["a.xlsx"; "b.xlsx"]).
  { vm_compute in E. injection E as <- _ _. eexists. split; reflexivity. }
  destruct Er as (s & Er & Ef).
  destruct (Window.process_files Sample.env
              (Window.on_files_selected SampleDesktop.desk
                 ["a.xlsx"; "b.xlsx"] SampleDesktop.ready))
    as [ui' [args|]] eqn:Ep; [|vm_compute in Ep; discriminate Ep].
  destruct (H s _ ui' args Er Ef Ep) as (-> & _). cbn [snd].
  vm_compute. reflexivity.
Defined.
